(** * aniwT: document ingestion and sequential page translation

    A shallow embedding of [AppComponent] (app.component.ts) and of
    [GeminiService] (gemini.service.ts), with the properties the design
    document states about them (C1 to C10) and further properties read off
    the code (X1 to X26).

    Conventions.
    - A JavaScript string is a [string]; each character stands for one code
      unit below 256.  Comparison of strings is by code units, which is the
      order [Array.prototype.sort] uses without a comparator.
    - A signal is a field of the component record; [set] and [update] are
      record updates.  Every write to a signal is logged in a history of
      component snapshots, so that statements about every point of a run can
      be made.
    - An awaited promise is the value it settles with: [Fulfilled v] or
      [Rejected e]; [await] of a rejected promise raises [e].
    - The external libraries (JSZip, pdf.js, the GenAI SDK, the browser's
      object-URL registry) are environments: records of answers. *)

From Stdlib Require Import String Ascii QArith DecimalString.
From stdpp Require Import gmap strings list sorting.

Open Scope string_scope.

(** ** JavaScript string primitives *)

Module Js.

Definition code (c : ascii) : nat := nat_of_ascii c.

(** [String.prototype.toLowerCase] on one code unit below 256: A-Z and the
    Latin-1 capitals U+00C0-U+00DE (U+00D7 is the multiplication sign). *)
Definition lowerChar (c : ascii) : ascii :=
  let n := code c in
  if ((65 <=? n) && (n <=? 90))%nat then ascii_of_nat (n + 32)
  else if ((192 <=? n) && (n <=? 222) && negb (n =? 215))%nat
       then ascii_of_nat (n + 32)
       else c.

Fixpoint toLowerCase (s : string) : string :=
  match s with
  | EmptyString => EmptyString
  | String c s' => String (lowerChar c) (toLowerCase s')
  end.

(** What [trim] strips, as far as it lies below 256: TAB, LF, VT, FF, CR,
    SPACE, NBSP.  The white space of JavaScript from U+1680 on is no code
    unit of these strings. *)
Definition isWhiteSpace (c : ascii) : bool :=
  let n := code c in
  ((9 <=? n) && (n <=? 13) || (n =? 32) || (n =? 160))%nat.

Fixpoint trimStart (s : string) : string :=
  match s with
  | EmptyString => EmptyString
  | String c s' => if isWhiteSpace c then trimStart s' else s
  end.

Definition trimEnd (s : string) : string :=
  String.rev (trimStart (String.rev s)).

Definition trim (s : string) : string := trimEnd (trimStart s).

(** [s.split(sep)] for a separator of one code unit: never empty. *)
Fixpoint split (sep : ascii) (s : string) : list string :=
  match s with
  | EmptyString => [EmptyString]
  | String c s' =>
      if Ascii.eqb c sep then EmptyString :: split sep s'
      else match split sep s' with
           | h :: t => String c h :: t
           | [] => [String c EmptyString]
           end
  end.

(** [Array.prototype.pop], as far as its result goes: the last element,
    [None] for [undefined]. *)
Definition pop {A} (l : list A) : option A := last l.

(** [s.includes(t)] *)
Fixpoint includes (s t : string) : bool :=
  String.prefix t s ||
  match s with
  | EmptyString => false
  | String _ s' => includes s' t
  end.

(** Truthiness of a string: only the empty string is falsy. *)
Definition truthy (s : string) : bool :=
  match s with EmptyString => false | _ => true end.

(** Canonicalization of the [i] flag (no [u] flag) against an ASCII
    pattern: a code unit of 128 or more is never folded to an ASCII one,
    so only a-z fold, to A-Z. *)
Definition canonicalize (c : ascii) : ascii :=
  let n := code c in
  if ((97 <=? n) && (n <=? 122))%nat then ascii_of_nat (n - 32) else c.

Fixpoint eqbCI (s t : string) : bool :=
  match s, t with
  | EmptyString, EmptyString => true
  | String a s', String b t' =>
      Ascii.eqb (canonicalize a) (canonicalize b) && eqbCI s' t'
  | _, _ => false
  end.

(** [/lit$/i.test(s)] for a literal [lit]: [s] ends with [lit], letter
    case ignored. *)
Definition endsWithCI (s lit : string) : bool :=
  let n := String.length s in
  let k := String.length lit in
  (k <=? n)%nat && eqbCI (String.substring (n - k) k s) lit.

(** Template-literal rendering of a number that is a natural. *)
Definition ofNat (n : nat) : string :=
  NilZero.string_of_uint (Nat.to_uint n).

End Js.

(** ** Data model *)

Inductive AppStatus :=
| St_idle | St_loading_file | St_file_loaded
| St_translating | St_success | St_error.

Inductive TranslationMode :=
| Mode_short | Mode_full | Mode_bold | Mode_in_depth.

(** A [Blob] is its bytes; a [File] is a named, typed blob. *)
Definition Blob := string.

Record File := { name : string; type : string; bits : Blob }.

(** The string that [URL.createObjectURL] returns, by its serial number. *)
Definition ObjectUrl := nat.

Record Page := {
  pageNum : nat;
  file : File;
  previewUrl : ObjectUrl;
  translation : option (list string);
  isTranslating : bool;
  error : option string
}.

(** A thrown value: an object with a [message] property and a string form. *)
Record JsError := { message : option string; toString : string }.

(** [new Error(msg)] *)
Definition newError (msg : string) : JsError :=
  {| message := Some msg;
     toString := if Js.truthy msg then "Error: " ++ msg else "Error" |}.

(** A [TypeError] with message [msg]. *)
Definition typeError (msg : string) : JsError :=
  {| message := Some msg; toString := "TypeError: " ++ msg |}.

Inductive Settled (A : Type) :=
| Fulfilled (v : A)
| Rejected (e : JsError).
Arguments Fulfilled {A} v.
Arguments Rejected {A} e.

Record AppComponent := {
  status : AppStatus;
  uploadedFile : option File;
  fileName : string;
  pages : list Page;
  totalPageCount : nat;
  translatedPageCount : nat;
  wikiUrl : string;
  translationMode : TranslationMode;
  isApiKeyModalVisible : bool;
  apiKeyInput : string;
  errorMessage : string;
  isDragging : bool
}.

(** ** The environment *)

(** JSZip: an archive is the object [zip.files]; an entry is a directory or
    not, and reading it as a blob settles one way or the other. *)
Record ZipObject := { dir : bool; async_blob : Settled Blob }.

(** What a render task has drawn on its canvas. *)
Definition Drawing := string.

(** pdf.js. The viewport, and the canvas sized from it, are represented by
    the scale the viewport was asked for: [getContext2d scale] says whether
    [canvas.getContext('2d')] is non-null; [render scale] is the render
    task's promise, fulfilled with what the task has drawn on the canvas;
    [toBlob scale drawing mime] is what the [toBlob] callback gets from the
    canvas that holds that drawing. *)
Record PDFPageProxy := {
  getContext2d : Q -> bool;
  render : Q -> Settled Drawing;
  toBlob : Q -> Drawing -> string -> option Blob
}.

Record PDFDocumentProxy := {
  numPages : nat;
  getPage : nat -> Settled PDFPageProxy
}.

(** A call of the injected service, as [AppComponent] sees it: what the call
    printed to the console, and how the promise it returned settled.  The
    promise is fulfilled with [response.text], a string, or [undefined] for
    a response without text. *)
Record ServiceCall := {
  logged : list (string * JsError);
  settled : Settled (option string)
}.

(** What [AppComponent] sees of the injected service.  The first argument of
    [translateMangaPage] is the number of calls made before this one: the
    service may answer each call differently. *)
Record TranslationClient := {
  apiKeySignal : string;
  translateMangaPage :
    nat -> File -> string -> TranslationMode -> ServiceCall
}.

Record Env := {
  JSZip_loadAsync : File -> Settled (gmap string ZipObject);
  pdfjsLib : option (File -> Settled PDFDocumentProxy);
  geminiService : TranslationClient
}.

(** The component together with what it acts on: the browser's registry of
    live object URLs, the console, the log of calls made to the service, and
    the history of the component's signal writes. *)
Record World := {
  app : AppComponent;
  liveUrls : gset ObjectUrl;
  createdUrls : nat;
  console : list (string * JsError);
  calls : list (File * string * TranslationMode);
  history : list AppComponent
}.

(** ** Signal writes *)

Definition set_status v a :=
  {| status := v; uploadedFile := uploadedFile a; fileName := fileName a;
     pages := pages a; totalPageCount := totalPageCount a;
     translatedPageCount := translatedPageCount a; wikiUrl := wikiUrl a;
     translationMode := translationMode a;
     isApiKeyModalVisible := isApiKeyModalVisible a;
     apiKeyInput := apiKeyInput a; errorMessage := errorMessage a;
     isDragging := isDragging a |}.

Definition set_uploadedFile v a :=
  {| status := status a; uploadedFile := v; fileName := fileName a;
     pages := pages a; totalPageCount := totalPageCount a;
     translatedPageCount := translatedPageCount a; wikiUrl := wikiUrl a;
     translationMode := translationMode a;
     isApiKeyModalVisible := isApiKeyModalVisible a;
     apiKeyInput := apiKeyInput a; errorMessage := errorMessage a;
     isDragging := isDragging a |}.

Definition set_fileName v a :=
  {| status := status a; uploadedFile := uploadedFile a; fileName := v;
     pages := pages a; totalPageCount := totalPageCount a;
     translatedPageCount := translatedPageCount a; wikiUrl := wikiUrl a;
     translationMode := translationMode a;
     isApiKeyModalVisible := isApiKeyModalVisible a;
     apiKeyInput := apiKeyInput a; errorMessage := errorMessage a;
     isDragging := isDragging a |}.

Definition update_pages (f : list Page -> list Page) a :=
  {| status := status a; uploadedFile := uploadedFile a;
     fileName := fileName a; pages := f (pages a);
     totalPageCount := totalPageCount a;
     translatedPageCount := translatedPageCount a; wikiUrl := wikiUrl a;
     translationMode := translationMode a;
     isApiKeyModalVisible := isApiKeyModalVisible a;
     apiKeyInput := apiKeyInput a; errorMessage := errorMessage a;
     isDragging := isDragging a |}.

Definition set_pages (v : list Page) := update_pages (fun _ => v).

Definition set_totalPageCount v a :=
  {| status := status a; uploadedFile := uploadedFile a;
     fileName := fileName a; pages := pages a; totalPageCount := v;
     translatedPageCount := translatedPageCount a; wikiUrl := wikiUrl a;
     translationMode := translationMode a;
     isApiKeyModalVisible := isApiKeyModalVisible a;
     apiKeyInput := apiKeyInput a; errorMessage := errorMessage a;
     isDragging := isDragging a |}.

Definition update_translatedPageCount (f : nat -> nat) a :=
  {| status := status a; uploadedFile := uploadedFile a;
     fileName := fileName a; pages := pages a;
     totalPageCount := totalPageCount a;
     translatedPageCount := f (translatedPageCount a); wikiUrl := wikiUrl a;
     translationMode := translationMode a;
     isApiKeyModalVisible := isApiKeyModalVisible a;
     apiKeyInput := apiKeyInput a; errorMessage := errorMessage a;
     isDragging := isDragging a |}.

Definition set_translatedPageCount (v : nat) :=
  update_translatedPageCount (fun _ => v).

Definition set_wikiUrl v a :=
  {| status := status a; uploadedFile := uploadedFile a;
     fileName := fileName a; pages := pages a;
     totalPageCount := totalPageCount a;
     translatedPageCount := translatedPageCount a; wikiUrl := v;
     translationMode := translationMode a;
     isApiKeyModalVisible := isApiKeyModalVisible a;
     apiKeyInput := apiKeyInput a; errorMessage := errorMessage a;
     isDragging := isDragging a |}.

Definition set_translationMode v a :=
  {| status := status a; uploadedFile := uploadedFile a;
     fileName := fileName a; pages := pages a;
     totalPageCount := totalPageCount a;
     translatedPageCount := translatedPageCount a; wikiUrl := wikiUrl a;
     translationMode := v;
     isApiKeyModalVisible := isApiKeyModalVisible a;
     apiKeyInput := apiKeyInput a; errorMessage := errorMessage a;
     isDragging := isDragging a |}.

Definition set_isApiKeyModalVisible v a :=
  {| status := status a; uploadedFile := uploadedFile a;
     fileName := fileName a; pages := pages a;
     totalPageCount := totalPageCount a;
     translatedPageCount := translatedPageCount a; wikiUrl := wikiUrl a;
     translationMode := translationMode a;
     isApiKeyModalVisible := v;
     apiKeyInput := apiKeyInput a; errorMessage := errorMessage a;
     isDragging := isDragging a |}.

Definition set_errorMessage v a :=
  {| status := status a; uploadedFile := uploadedFile a;
     fileName := fileName a; pages := pages a;
     totalPageCount := totalPageCount a;
     translatedPageCount := translatedPageCount a; wikiUrl := wikiUrl a;
     translationMode := translationMode a;
     isApiKeyModalVisible := isApiKeyModalVisible a;
     apiKeyInput := apiKeyInput a; errorMessage := v;
     isDragging := isDragging a |}.

(** ** The monad of handlers

    A handler runs on a world and settles with a value or a thrown error;
    what it did to the world before throwing stays done. *)

Definition M (A : Type) : Type := World -> Settled A * World.

Definition ret {A} (v : A) : M A := fun w => (Fulfilled v, w).

Definition bind {A B} (c : M A) (k : A -> M B) : M B :=
  fun w =>
    match c w with
    | (Fulfilled v, w') => k v w'
    | (Rejected e, w') => (Rejected e, w')
    end.

Definition throw {A} (e : JsError) : M A := fun w => (Rejected e, w).

Definition tryCatch {A} (body : M A) (handler : JsError -> M A) : M A :=
  fun w =>
    match body w with
    | (Fulfilled v, w') => (Fulfilled v, w')
    | (Rejected e, w') => handler e w'
    end.

Definition await {A} (p : Settled A) : M A := fun w => (p, w).

Declare Scope js_scope.
Delimit Scope js_scope with js.
Notation "x <- c ;; k" := (bind c (fun x => k))
  (at level 100, c at next level, right associativity) : js_scope.
Notation "c ;; k" := (bind c (fun _ => k))
  (at level 100, right associativity) : js_scope.
Open Scope js_scope.

(** Reading a signal. *)
Definition read {A} (f : AppComponent -> A) : M A :=
  fun w => (Fulfilled (f (app w)), w).

(** Writing a signal: the new snapshot goes to the history. *)
Definition write (f : AppComponent -> AppComponent) : M unit :=
  fun w =>
    let a := f (app w) in
    (Fulfilled tt,
     {| app := a; liveUrls := liveUrls w; createdUrls := createdUrls w;
        console := console w; calls := calls w;
        history := history w ++ [a] |}).

(** [URL.createObjectURL]: a URL never handed out before, live from now
    on. *)
Definition createObjectURL : M ObjectUrl :=
  fun w =>
    let u := createdUrls w in
    (Fulfilled u,
     {| app := app w; liveUrls := {[u]} ∪ liveUrls w;
        createdUrls := S u; console := console w; calls := calls w;
        history := history w |}).

(** [URL.revokeObjectURL], the only way a URL stops being live.  The
    component never calls it. *)
Definition revokeObjectURL (u : ObjectUrl) : M unit :=
  fun w =>
    (Fulfilled tt,
     {| app := app w; liveUrls := liveUrls w ∖ {[u]};
        createdUrls := createdUrls w; console := console w;
        calls := calls w; history := history w |}).

Definition console_error (label : string) (e : JsError) : M unit :=
  fun w =>
    (Fulfilled tt,
     {| app := app w; liveUrls := liveUrls w; createdUrls := createdUrls w;
        console := console w ++ [(label, e)]; calls := calls w;
        history := history w |}).

(** [for (const x of l) body], with the local variables the body assigns
    threaded as [acc]. *)
Fixpoint forOf {A S} (l : list A) (acc : S) (body : A -> S -> M S) : M S :=
  match l with
  | [] => ret acc
  | x :: l' => acc' <- body x acc ;; forOf l' acc' body
  end.

(** The world a handler leaves, however it settled. *)
Definition exec {A} (c : M A) (w : World) : World := snd (c w).

(** ** AppComponent: helpers *)

(** [getImageMimeType(filename)] *)
Definition getImageMimeType (filename : string) : string :=
  let extension := Js.toLowerCase <$> Js.pop (Js.split "." filename) in
  if decide (extension = Some "jpg") then "image/jpeg"
  else if decide (extension = Some "jpeg") then "image/jpeg"
  else if decide (extension = Some "png") then "image/png"
  else if decide (extension = Some "gif") then "image/gif"
  else if decide (extension = Some "webp") then "image/webp"
  else "application/octet-stream".

(** The filter of [handleCbz]: [/\.(jpe?g|png|gif|webp)$/i.test(name)]. *)
Definition imageNameRegex (n : string) : bool :=
  Js.endsWithCI n ".jpg" || Js.endsWithCI n ".jpeg" ||
  Js.endsWithCI n ".png" || Js.endsWithCI n ".gif" ||
  Js.endsWithCI n ".webp".

(** [!zip.files[name].dir && regex.test(name)], for a key of [zip.files]. *)
Definition isImageEntry (files : gmap string ZipObject) (n : string) : bool :=
  match files !! n with
  | Some o => negb (dir o) && imageNameRegex n
  | None => false
  end.

(** [zip.file(name)]: the entry of that name unless it is a directory, else
    [null]. *)
Definition zip_file (files : gmap string ZipObject) (n : string)
  : option ZipObject :=
  match files !! n with
  | Some o => if dir o then None else Some o
  | None => None
  end.

(** [Object.keys(zip.files)] *)
Definition Object_keys (files : gmap string ZipObject) : list string :=
  (map_to_list files).*1.

(** The order of [Array.prototype.sort()] on strings. *)
Definition str_le (s t : string) : Prop := String.leb s t = true.

#[global] Instance str_le_dec s t : Decision (str_le s t).
Proof. unfold str_le. apply _. Defined.

Definition sort (l : list string) : list string := merge_sort str_le l.

(** [Object.keys(zip.files).filter(...).sort()] *)
Definition imageFilesOf (files : gmap string ZipObject) : list string :=
  sort (filter (fun n => isImageEntry files n = true) (Object_keys files)).

(** A page as both extractions create it. *)
Definition newPage (n : nat) (f : File) (u : ObjectUrl) : Page :=
  {| pageNum := n; file := f; previewUrl := u; translation := None;
     isTranslating := false; error := None |}.

(** The three spreads of [translateAll]. *)
Definition markTranslating (p : Page) : Page :=
  {| pageNum := pageNum p; file := file p; previewUrl := previewUrl p;
     translation := translation p; isTranslating := true; error := None |}.

Definition withTranslation (ls : list string) (p : Page) : Page :=
  {| pageNum := pageNum p; file := file p; previewUrl := previewUrl p;
     translation := Some ls; isTranslating := false; error := error p |}.

Definition withError (msg : string) (p : Page) : Page :=
  {| pageNum := pageNum p; file := file p; previewUrl := previewUrl p;
     translation := translation p; isTranslating := false;
     error := Some msg |}.

(** [currentPages.map(p => p.pageNum === n ? f(p) : p)] *)
Definition mapPage (n : nat) (f : Page -> Page) (ps : list Page) : list Page :=
  map (fun p => if decide (pageNum p = n) then f p else p) ps.

Definition newline : ascii := ascii_of_nat 10.

(** [resultText.split('\n').filter(line => line.trim() !== '')] *)
Definition translationLines (resultText : string) : list string :=
  filter (fun line => Js.trim line <> "") (Js.split newline resultText).

(** The message of the [TypeError] thrown by [resultText.split] when
    [resultText] is [undefined]. *)
Definition msg_splitOfUndefined : string :=
  "Cannot read properties of undefined (reading 'split')".

(** [resultText.split('\n').filter(line => line.trim() !== '')] for the
    value the awaited call gave: reading [split] of [undefined] throws. *)
Definition translationLinesOf (resultText : option string)
  : Settled (list string) :=
  match resultText with
  | Some text => Fulfilled (translationLines text)
  | None => Rejected (typeError msg_splitOfUndefined)
  end.

(** [{ ...p, isTranslating: false, translation: resultText.split(...)... }],
    which throws when the split does. *)
Definition withTranslationOf (resultText : option string) (p : Page)
  : Settled Page :=
  match translationLinesOf resultText with
  | Fulfilled ls => Fulfilled (withTranslation ls p)
  | Rejected e => Rejected e
  end.

(** [currentPages.map(p => p.pageNum === n ? f(p) : p)] for an [f] that may
    throw: [f] is reached for the pages numbered [n] only. *)
Fixpoint mapPageE (n : nat) (f : Page -> Settled Page) (ps : list Page)
  : Settled (list Page) :=
  match ps with
  | [] => Fulfilled []
  | p :: ps' =>
      match (if decide (pageNum p = n) then f p else Fulfilled p) with
      | Fulfilled p' =>
          match mapPageE n f ps' with
          | Fulfilled l => Fulfilled (p' :: l)
          | Rejected e => Rejected e
          end
      | Rejected e => Rejected e
      end
  end.

(** [this.pages.update(f)] for an [f] that may throw: the signal is written
    only when [f] returns. *)
Definition tryUpdate_pages (f : list Page -> Settled (list Page)) : M unit :=
  ps <- read pages ;;
  ps' <- await (f ps) ;;
  write (set_pages ps').

(** [e.message || 'An unknown error occurred'] *)
Definition messageOr (e : JsError) : string :=
  match message e with
  | Some m => if Js.truthy m then m else "An unknown error occurred"
  | None => "An unknown error occurred"
  end.

(** The viewport scale of [handlePdf]. *)
Definition pdfScale : Q := 3 # 2.

Definition msg_invalidFileType : string :=
  "Invalid file type. Please upload a .cbz or .pdf file.".
Definition msg_cbzFailed : string :=
  "Failed to read the .cbz file. It might be corrupted.".
Definition msg_cbzNoImages : string := "No images found in the .cbz file.".
Definition msg_pdfUnavailable : string :=
  "PDF library is not available. Please check your connection.".
Definition msg_pdfFailed : string :=
  "Failed to read the .pdf file. It might be corrupted or protected.".
Definition msg_noPages : string := "No pages loaded to translate.".
Definition msg_noUrl : string :=
  "Please provide a Wikipedia or Fandom URL for context.".
Definition msg_noKey : string :=
  "API Key is not configured. Cannot translate.".

(** ** AppComponent: handlers *)

(** [reset()] *)
Definition reset : M unit :=
  write (set_status St_idle) ;;
  write (set_uploadedFile None) ;;
  write (set_fileName "") ;;
  write (set_pages []) ;;
  write (set_totalPageCount 0) ;;
  write (set_translatedPageCount 0) ;;
  write (set_wikiUrl "") ;;
  write (set_translationMode Mode_in_depth) ;;
  write (set_errorMessage "").

(** The first four statements of [handleFile]. *)
Definition prelude (f : File) : M unit :=
  reset ;;
  write (set_status St_loading_file) ;;
  write (set_uploadedFile (Some f)) ;;
  write (set_fileName (name f)).

Section AppComponent.

Variable env : Env.

(** The body of the [for] loop of [handleCbz]; the locals it assigns are
    [extractedPages] and [pageNum]. *)
Definition cbzStep (files : gmap string ZipObject) (imageName : string)
    (acc : list Page * nat) : M (list Page * nat) :=
  let '(extractedPages, pageNum) := acc in
  match zip_file files imageName with
  | Some imageFile =>
      blob <- await (async_blob imageFile) ;;
      let fileType := getImageMimeType imageName in
      let pageFile :=
        {| name := imageName; type := fileType; bits := blob |} in
      url <- createObjectURL ;;
      ret ((extractedPages ++ [newPage pageNum pageFile url])%list, S pageNum)
  | None => ret (extractedPages, pageNum)
  end.

(** The [catch] block of [handleCbz]. *)
Definition cbzCatch (e : JsError) : M unit :=
  write (set_status St_error) ;;
  write (set_errorMessage msg_cbzFailed) ;;
  console_error "" e.

(** The [catch] block of [handlePdf]. *)
Definition pdfCatch (e : JsError) : M unit :=
  write (set_status St_error) ;;
  write (set_errorMessage msg_pdfFailed) ;;
  console_error "" e.

(** [handleCbz(file)] *)
Definition handleCbz (file : File) : M unit :=
  tryCatch
    (files <- await (JSZip_loadAsync env file) ;;
     let imageFiles := imageFilesOf files in
     if decide (length imageFiles = 0)
     then throw (newError msg_cbzNoImages)
     else
       write (set_totalPageCount (length imageFiles)) ;;
       r <- forOf imageFiles ([], 1) (cbzStep files) ;;
       write (set_pages (fst r)) ;;
       write (set_status St_file_loaded))
    cbzCatch.

(** The body of the [for] loop of [handlePdf]. *)
Definition pdfStep (pdf : PDFDocumentProxy) (i : nat)
    (extractedPages : list Page) : M (list Page) :=
  page <- await (getPage pdf i) ;;
  if getContext2d page pdfScale then
    drawing <- await (render page pdfScale) ;;
    match toBlob page pdfScale drawing "image/png" with
    | Some blob =>
        let pageFile :=
          {| name := "page_" ++ Js.ofNat i ++ ".png";
             type := "image/png"; bits := blob |} in
        url <- createObjectURL ;;
        ret (extractedPages ++ [newPage i pageFile url])%list
    | None => ret extractedPages
    end
  else ret extractedPages.

(** [handlePdf(file)].  [getDocument] is given the file its object URL
    stands for. *)
Definition handlePdf (file : File) : M unit :=
  match pdfjsLib env with
  | None =>
      write (set_status St_error) ;;
      write (set_errorMessage msg_pdfUnavailable)
  | Some getDocument =>
      tryCatch
        (_ <- createObjectURL ;;
         pdf <- await (getDocument file) ;;
         write (set_totalPageCount (numPages pdf)) ;;
         extractedPages <- forOf (seq 1 (numPages pdf)) [] (pdfStep pdf) ;;
         write (set_pages extractedPages) ;;
         write (set_status St_file_loaded))
        pdfCatch
  end.

(** [file.name.toLowerCase().split('.').pop()] *)
Definition fileExtensionOf (n : string) : option string :=
  Js.pop (Js.split "." (Js.toLowerCase n)).

(** [handleFile(file)] *)
Definition handleFile (file : File) : M unit :=
  prelude file ;;
  let fileExtension := fileExtensionOf (name file) in
  if decide (fileExtension = Some "cbz") then handleCbz file
  else if decide (fileExtension = Some "pdf") then handlePdf file
  else
    write (set_status St_error) ;;
    write (set_errorMessage msg_invalidFileType).

(** [await this.geminiService.translateMangaPage(file, url, mode)] *)
Definition call_translateMangaPage (f : File) (url : string)
    (mode : TranslationMode) : M (option string) :=
  fun w =>
    let call :=
      translateMangaPage (geminiService env) (length (calls w)) f url mode in
    (settled call,
     {| app := app w; liveUrls := liveUrls w;
        createdUrls := createdUrls w; console := console w ++ logged call;
        calls := calls w ++ [(f, url, mode)]; history := history w |}).

(** The body of the [for] loop of [translateAll]. *)
Definition translateStep (url : string) (mode : TranslationMode)
    (page : Page) (_ : unit) : M unit :=
  tryCatch
    (write (update_pages (mapPage (pageNum page) markTranslating)) ;;
     resultText <- call_translateMangaPage (file page) url mode ;;
     tryUpdate_pages
       (mapPageE (pageNum page) (withTranslationOf resultText)) ;;
     write (update_translatedPageCount S))
    (fun e =>
       write (update_pages
                (mapPage (pageNum page) (withError (messageOr e)))) ;;
       write (set_errorMessage
                ("Failed on page " ++ Js.ofNat (pageNum page)
                 ++ ". See details above.")) ;;
       console_error ("Error on page " ++ Js.ofNat (pageNum page) ++ ":") e).

(** [translateAll()] *)
Definition translateAll : M unit :=
  url <- read (fun a => Js.trim (wikiUrl a)) ;;
  mode <- read translationMode ;;
  ps <- read pages ;;
  if decide (length ps = 0) then
    write (set_status St_error) ;;
    write (set_errorMessage msg_noPages)
  else if negb (Js.truthy url) then
    write (set_status St_error) ;;
    write (set_errorMessage msg_noUrl)
  else if negb (Js.truthy (apiKeySignal (geminiService env))) then
    write (set_status St_error) ;;
    write (set_errorMessage msg_noKey) ;;
    write (set_isApiKeyModalVisible true)
  else
    write (set_status St_translating) ;;
    write (set_translatedPageCount 0) ;;
    write (set_errorMessage "") ;;
    pagesToTranslate <- read pages ;;
    forOf pagesToTranslate tt (translateStep url mode) ;;
    write (set_status St_success).

End AppComponent.

(** ** GeminiService *)

Inductive HarmCategory :=
| HARM_CATEGORY_HARASSMENT | HARM_CATEGORY_HATE_SPEECH
| HARM_CATEGORY_SEXUALLY_EXPLICIT | HARM_CATEGORY_DANGEROUS_CONTENT.

Inductive HarmBlockThreshold := BLOCK_NONE.

(** The request of [generateContent].  Of the prompt, the two interpolated
    parts are kept: the context URL and the mode's instruction. *)
Record GenerateContentRequest := {
  model : string;
  promptContext : string;
  promptInstruction : string;
  inlineData : Blob * string;
  safetySettings : list (HarmCategory * HarmBlockThreshold)
}.

(** The SDK client: how the promise of [generateContent] settles.  A
    fulfilled promise is read at [response.text], which is [undefined] for
    a response without text; a rejection is with an error object (a
    rejection with [null] or [undefined], on which the [catch] block of
    [translateMangaPage] would throw itself, is not represented).  The
    first argument counts the earlier calls. *)
Record GoogleGenAI := {
  generateContent :
    nat -> GenerateContentRequest -> Settled (option string)
}.

Module GeminiService.

Record t := { genAI : option GoogleGenAI; apiKeySignal : string }.

(** The constructor: [apiKey] is [process.env.API_KEY]. *)
Definition new (apiKey : option string) (sdk : string -> GoogleGenAI) : t :=
  match apiKey with
  | Some k =>
      if Js.truthy k
      then {| genAI := Some (sdk k); apiKeySignal := "******" |}
      else {| genAI := None; apiKeySignal := "" |}
  | None => {| genAI := None; apiKeySignal := "" |}
  end.

(** [fileToGenerativePart(file)]: the file's data and its MIME type. *)
Definition fileToGenerativePart (f : File) : Blob * string :=
  (bits f, type f).

Definition modeInstruction (mode : TranslationMode) : string :=
  match mode with
  | Mode_short =>
      "Provide a natural, accurate, and context-aware Vietnamese translation for each piece of text. The translation should be concise, using short, easy-to-understand sentences, suitable for quick reading."
  | Mode_full =>
      "Provide a natural, accurate, and context-aware Vietnamese translation for each piece of text. Ensure the full and complete meaning of the original English text is preserved, even if it requires slightly longer sentences."
  | Mode_bold =>
      "Provide a creative and daring Vietnamese translation for each piece of text. Feel free to use modern slang, idioms, and a bold, inventive style that captures the spirit of the characters, even if it deviates slightly from a literal translation. The goal is a translation that is exciting and fresh."
  | Mode_in_depth =>
      "Provide a natural, accurate, and context-aware Vietnamese translation for each piece of text. Deeply analyze the provided context to maintain the original character's tone, emotion, and specific manner of speaking for the most nuanced and high-quality translation possible."
  end.

Definition msg_notInitialized : string :=
  "Gemini AI client is not initialized. Check API Key.".
Definition msg_invalidKey : string :=
  "Translation failed: The provided API key is invalid. Please check your key and try again.".

(** The template literal of the last [return]; an [undefined] message
    prints as [undefined]. *)
Definition msg_failed (e : JsError) : string :=
  "Translation failed. Please check the console for details. Error: "
  ++ match message e with Some m => m | None => "undefined" end.

Definition request (imageFile : File) (wikiUrl : string)
    (mode : TranslationMode) : GenerateContentRequest :=
  {| model := "gemini-2.5-flash";
     promptContext := wikiUrl;
     promptInstruction := modeInstruction mode;
     inlineData := fileToGenerativePart imageFile;
     safetySettings :=
       [(HARM_CATEGORY_HARASSMENT, BLOCK_NONE);
        (HARM_CATEGORY_HATE_SPEECH, BLOCK_NONE);
        (HARM_CATEGORY_SEXUALLY_EXPLICIT, BLOCK_NONE);
        (HARM_CATEGORY_DANGEROUS_CONTENT, BLOCK_NONE)] |}.

(** [translateMangaPage(imageFile, wikiUrl, mode)]: what the call prints to
    the console and how the promise it returns settles; [k] counts the
    earlier calls. *)
Definition translateMangaPage (this : t) (k : nat) (imageFile : File)
    (wikiUrl : string) (mode : TranslationMode) : ServiceCall :=
  match genAI this with
  | None =>
      {| logged := []; settled := Rejected (newError msg_notInitialized) |}
  | Some ai =>
      match generateContent ai k (request imageFile wikiUrl mode) with
      | Fulfilled text => {| logged := []; settled := Fulfilled text |}
      | Rejected error =>
          {| logged := [("Error translating manga page:", error)];
             settled :=
               if Js.includes (toString error) "API key not valid"
               then Fulfilled (Some msg_invalidKey)
               else Fulfilled (Some (msg_failed error)) |}
      end
  end.

(** The service as [AppComponent] has it injected. *)
Definition client (this : t) : TranslationClient :=
  Build_TranslationClient (apiKeySignal this) (translateMangaPage this).

End GeminiService.

(** ** Vocabulary: the answers of GeminiService *)

(** The text [translateMangaPage] returns for a failed request. *)
Definition failureText (e : JsError) : string :=
  if Js.includes (toString e) "API key not valid"
  then GeminiService.msg_invalidKey
  else GeminiService.msg_failed e.

(** ** Vocabulary: the guards of a run *)

(** The preconditions of a run, in the order [translateAll] tests them. *)
Inductive Guard := NonEmptyStore | ContextUrl | Credential.

(** The error message of each precondition. *)
Definition guardMessage (g : Guard) : string :=
  match g with
  | NonEmptyStore => msg_noPages
  | ContextUrl => msg_noUrl
  | Credential => msg_noKey
  end.

(** The test [translateAll] makes for each precondition. *)
Definition guardMet (env : Env) (a : AppComponent) (g : Guard) : bool :=
  match g with
  | NonEmptyStore => negb (length (pages a) =? 0)%nat
  | ContextUrl => Js.truthy (Js.trim (wikiUrl a))
  | Credential => Js.truthy (apiKeySignal (geminiService env))
  end.

(** The first precondition that does not hold, if any. *)
Definition firstUnmet (env : Env) (a : AppComponent) : option Guard :=
  if negb (guardMet env a NonEmptyStore) then Some NonEmptyStore
  else if negb (guardMet env a ContextUrl) then Some ContextUrl
  else if negb (guardMet env a Credential) then Some Credential
  else None.

(** ** Vocabulary: archives and extracted pages *)

(** The entries the filter of [handleCbz] keeps. *)
Definition isImage (n : string) (o : ZipObject) : Prop :=
  dir o = false /\ imageNameRegex n = true.

#[global] Instance isImage_dec n o : Decision (isImage n o).
Proof. unfold isImage. apply _. Defined.

(** The image entries of an archive, as a map. *)
Definition imageEntries (files : gmap string ZipObject)
  : gmap string ZipObject :=
  filter (fun kv => isImage kv.1 kv.2) files.

(** An archive all of whose image entries can be read. *)
Definition readable (files : gmap string ZipObject) : Prop :=
  forall n o, files !! n = Some o -> isImage n o ->
    exists b, async_blob o = Fulfilled b.

(** A page as extraction leaves it: not translating, no lines, no error. *)
Definition untouched (p : Page) : Prop :=
  translation p = None /\ isTranslating p = false /\ error p = None.

(** The name of the file of a page. *)
Definition pageName (p : Page) : string := name (file p).

(** ** Vocabulary: PDF documents *)

(** What the loop of [handlePdf] gets out of page [i]: the PNG blob of
    what rendering the page at scale 1.5 has drawn, if the page has a canvas
    context, the rendering completes and the canvas can be encoded. *)
Definition pageBlob (pdf : PDFDocumentProxy) (i : nat) : option Blob :=
  match getPage pdf i with
  | Fulfilled pg =>
      if getContext2d pg pdfScale then
        match render pg pdfScale with
        | Fulfilled drawing => toBlob pg pdfScale drawing "image/png"
        | Rejected _ => None
        end
      else None
  | Rejected _ => None
  end.

(** Page [i] can be fetched, and rendered when it has a canvas context. *)
Definition renders (pdf : PDFDocumentProxy) (i : nat) : Prop :=
  exists pg, getPage pdf i = Fulfilled pg /\
    (getContext2d pg pdfScale = true ->
     exists drawing, render pg pdfScale = Fulfilled drawing).

(** The file [handlePdf] makes for page [i] out of blob [b]. *)
Definition pdfPageFile (i : nat) (b : Blob) : File :=
  {| name := "page_" ++ Js.ofNat i ++ ".png"; type := "image/png";
     bits := b |}.

(** A page as [handlePdf] makes it out of its document. *)
Definition isPdfPage (pdf : PDFDocumentProxy) (p : Page) : Prop :=
  exists b, pageBlob pdf (pageNum p) = Some b /\
    file p = pdfPageFile (pageNum p) b /\ untouched p.

(** The page numbers among [l] that yield a blob. *)
Definition withBlob (pdf : PDFDocumentProxy) (l : list nat) : list nat :=
  filter (fun i => is_Some (pageBlob pdf i)) l.

(** ** Vocabulary: what a handler leaves alone *)

(** A relation between the world before and the world after that a
    handler keeps, however it settles. *)
Definition respects {A} (R : relation World) (c : M A) : Prop :=
  forall w, R w (c w).2.

(** No live object URL is lost. *)
Definition keepsUrls : relation World :=
  fun w w' => liveUrls w ⊆ liveUrls w'.

(** The component is not written to. *)
Definition keepsApp : relation World := fun w w' => app w' = app w.

(** ** Vocabulary: the loop of a run *)

(** What the [try] or the [catch] block does to the page being translated,
    according to how the call settled. *)
Definition settle (o : Settled string) : Page -> Page :=
  match o with
  | Fulfilled resultText => withTranslation (translationLines resultText)
  | Rejected e => withError (messageOr e)
  end.

(** How an awaited call ends for the [try] block: with the text of the
    answer; with the error of a rejected promise; or, for an answer without
    text, with the [TypeError] of [resultText.split]. *)
Definition answerOf (r : Settled (option string)) : Settled string :=
  match r with
  | Fulfilled (Some text) => Fulfilled text
  | Fulfilled None => Rejected (typeError msg_splitOfUndefined)
  | Rejected e => Rejected e
  end.

Section Loop.

Variable env : Env.
Variables (url : string) (mode : TranslationMode).

(** How call number [k], made for [page], ends for the iteration of a page
    of the store: with the text of the answer, or with the error that takes
    the iteration to its [catch] block. *)
Definition outcome (k : nat) (page : Page) : Settled string :=
  answerOf
    (settled (translateMangaPage (geminiService env) k (file page) url mode)).

(** What the loop over [l], whose first call is call number [k], makes of
    a page of the store. *)
Fixpoint after (l : list Page) (k : nat) (p : Page) : Page :=
  match l with
  | [] => p
  | page :: l' =>
      after l' (S k)
        (if decide (pageNum p = pageNum page)
         then settle (outcome k page) (markTranslating p)
         else p)
  end.

End Loop.

(** The three writes that open a run. *)
Definition begin : M unit :=
  write (set_status St_translating) ;;
  write (set_translatedPageCount 0) ;;
  write (set_errorMessage "").

(** How a promise settled. *)
Definition rejects {A} (o : Settled A) : Prop := exists e, o = Rejected e.
Definition fulfils {A} (o : Settled A) : Prop := exists v, o = Fulfilled v.

(** ** Vocabulary: the invariants of the Page Store *)

(** How many pages have [isTranslating] set. *)
Definition translatingCount (ps : list Page) : nat :=
  length (filter (fun p => isTranslating p = true) ps).

(** A page has lines, or an error, or neither: exactly one of the three. *)
Definition exactlyOne (p : Page) : Prop :=
  (is_Some (translation p) /\ error p = None) \/
  (translation p = None /\ is_Some (error p)) \/
  (translation p = None /\ error p = None).

(** The claim on a Page Store: at most one page is translating, and every
    page has exactly one of lines, an error, neither. *)
Definition consistent (ps : list Page) : Prop :=
  translatingCount ps <= 1 /\ Forall exactlyOne ps.

(** A store on which the loop is about to run over [l], its first call
    being call number [k]: page numbers do not repeat, no page is
    translating, every page has exactly one of lines, an error, neither, and
    a page whose iteration is going to fail has no lines yet. *)
Definition ready (env : Env) (url : string) (mode : TranslationMode)
    (k : nat) (l ps : list Page) : Prop :=
  NoDup (map pageNum ps) /\
  NoDup (map pageNum l) /\
  Forall (fun p => isTranslating p = false) ps /\
  Forall exactlyOne ps /\
  (forall j page p, l !! j = Some page ->
     rejects (outcome env url mode (k + j) page) ->
     p ∈ ps -> pageNum p = pageNum page -> translation p = None).

(** The store as ingestion leaves it: page numbers do not repeat, no page
    is translating, no page has lines. *)
Definition startable (ps : list Page) : Prop :=
  NoDup (map pageNum ps) /\
  Forall (fun p => isTranslating p = false /\ translation p = None) ps.

(** ** Example data *)

(** The signals as the component initializes them. *)
Definition app0 : AppComponent :=
  {| status := St_idle; uploadedFile := None; fileName := "";
     pages := []; totalPageCount := 0; translatedPageCount := 0;
     wikiUrl := ""; translationMode := Mode_in_depth;
     isApiKeyModalVisible := true; apiKeyInput := "";
     errorMessage := ""; isDragging := false |}.

(** The component as constructed, in a browser that has made no object URL
    yet. *)
Definition world0 : World :=
  {| app := app0; liveUrls := ∅; createdUrls := 0; console := [];
     calls := []; history := [] |}.

(** A world with its component replaced. *)
Definition withApp (a : AppComponent) (w : World) : World :=
  {| app := a; liveUrls := liveUrls w; createdUrls := createdUrls w;
     console := console w; calls := calls w; history := history w |}.

(** An environment with the client [c], no PDF library, and in which no
    file opens as an archive. *)
Definition envOf (c : TranslationClient) : Env :=
  {| JSZip_loadAsync := fun _ => Rejected (newError "not a zip file");
     pdfjsLib := None;
     geminiService := c |}.

(** A call that prints nothing and is fulfilled with [text]. *)
Definition answers (text : string) : ServiceCall :=
  {| logged := []; settled := Fulfilled (Some text) |}.

(** A call that prints nothing and is rejected with [e]. *)
Definition fails (e : JsError) : ServiceCall :=
  {| logged := []; settled := Rejected e |}.

(** A client with a key that answers every call with the same text. *)
Definition echoClient : TranslationClient :=
  {| apiKeySignal := "******";
     translateMangaPage := fun _ _ _ _ => answers "English: Hi" |}.

(** Three extracted pages. *)
Definition page1 : Page :=
  newPage 1 {| name := "001.png"; type := "image/png"; bits := "a" |} 0.
Definition page2 : Page :=
  newPage 2 {| name := "002.png"; type := "image/png"; bits := "b" |} 1.
Definition page3 : Page :=
  newPage 3 {| name := "010.jpg"; type := "image/jpeg"; bits := "c" |} 2.

(** A loaded session of three pages, the context URL still blank. *)
Definition loaded3 : World :=
  withApp (set_status St_file_loaded (set_pages [page1; page2; page3] app0))
          world0.

(** A file entry with readable data [b]. *)
Definition zipEntry (b : Blob) : ZipObject :=
  {| dir := false; async_blob := Fulfilled b |}.

(** A directory entry. *)
Definition zipDir : ZipObject := {| dir := true; async_blob := Fulfilled "" |}.

(** The archive of the design document's example. *)
Definition book : gmap string ZipObject :=
  list_to_map
    [("002.png", zipEntry "b"); ("001.png", zipEntry "a");
     ("010.jpg", zipEntry "c")].

(** An environment in which every file opens as the archive [files]. *)
Definition zipEnv (files : gmap string ZipObject) : Env :=
  {| JSZip_loadAsync := fun _ => Fulfilled files;
     pdfjsLib := None;
     geminiService := echoClient |}.

(** An uploaded file, by its name. *)
Definition upload (n : string) : File :=
  {| name := n; type := ""; bits := "" |}.

(** An archive with a folder, a text file and two images. *)
Definition mixedArchive : gmap string ZipObject :=
  list_to_map
    [("ch1/", zipDir); ("ch1/b.JPEG", zipEntry "b"); ("notes.txt", zipEntry "n");
     ("ch1/a.webp", zipEntry "a")].

(** A well-formed archive with a folder and a text file, no image. *)
Definition textOnly : gmap string ZipObject :=
  list_to_map [("docs/", zipDir); ("docs/readme.txt", zipEntry "r")].

(** An environment in which no file opens as an archive. *)
Definition corruptEnv : Env := envOf echoClient.

(** The PNG encoding of a drawing, in the examples. *)
Definition pngOf (drawing : Drawing) : Blob := "PNG:" ++ drawing.

(** A page whose rendering draws [d] and whose canvas encodes. *)
Definition pdfPageOk (d : Drawing) : PDFPageProxy :=
  {| getContext2d := fun _ => true; render := fun _ => Fulfilled d;
     toBlob := fun _ drawing _ => Some (pngOf drawing) |}.

(** A page too large for the canvas to be encoded: [toBlob] yields [null]. *)
Definition pdfPageNoBlob : PDFPageProxy :=
  {| getContext2d := fun _ => true; render := fun _ => Fulfilled "";
     toBlob := fun _ _ _ => None |}.

(** A document of three pages, the second of which cannot be encoded. *)
Definition threePages : PDFDocumentProxy :=
  {| numPages := 3;
     getPage := fun i =>
       Fulfilled (if (i =? 2)%nat then pdfPageNoBlob else pdfPageOk "panels") |}.

(** A document of three pages that all render and encode. *)
Definition threeGoodPages : PDFDocumentProxy :=
  {| numPages := 3; getPage := fun i => Fulfilled (pdfPageOk "panels") |}.

(** An environment in which every file opens as the document [pdf]. *)
Definition pdfEnv (pdf : PDFDocumentProxy) : Env :=
  {| JSZip_loadAsync := fun _ => Rejected (newError "not a zip file");
     pdfjsLib := Some (fun _ => Fulfilled pdf);
     geminiService := echoClient |}.

(** A client with a key whose call number [k0] is rejected and whose other
    calls are fulfilled. *)
Definition failingAt (k0 : nat) : TranslationClient :=
  {| apiKeySignal := "******";
     translateMangaPage := fun k _ _ _ =>
       if (k =? k0)%nat then fails (newError "quota exceeded")
       else answers "English: Hi" |}.

(** The loaded session of three pages, with a context URL entered. *)
Definition session3 : World :=
  withApp (set_wikiUrl " https://en.wikipedia.org/wiki/One_Piece "
             (app loaded3)) world0.

(** An SDK client that answers every call. *)
Definition sdkOk (_ : string) : GoogleGenAI :=
  {| generateContent := fun _ _ => Fulfilled (Some "English: Hi") |}.

(** An SDK client that gives every call the same answer; [None] is a
    response without text. *)
Definition sdkAnswering (text : option string) (_ : string) : GoogleGenAI :=
  {| generateContent := fun _ _ => Fulfilled text |}.

(** The error of the backing service for a key it does not accept. *)
Definition invalidKeyError : JsError :=
  {| message := Some "API key not valid. Please pass a valid API key.";
     toString :=
       "ApiError: API key not valid. Please pass a valid API key." |}.

(** An SDK client that rejects every call for its key. *)
Definition sdkInvalidKey (_ : string) : GoogleGenAI :=
  {| generateContent := fun _ _ => Rejected invalidKeyError |}.

(** An SDK client whose call number [k0] gets a response without text. *)
Definition sdkSilentAt (k0 : nat) (_ : string) : GoogleGenAI :=
  {| generateContent := fun k _ =>
       if (k =? k0)%nat then Fulfilled None
       else Fulfilled (Some "English: Hi") |}.

(** An SDK client whose call number [k0] fails with a server error. *)
Definition sdkFailingAt (k0 : nat) (_ : string) : GoogleGenAI :=
  {| generateContent := fun k _ =>
       if (k =? k0)%nat then Rejected (newError "503 Service Unavailable")
       else Fulfilled (Some "English: Hi") |}.

(** ** Vocabulary: strings *)

(** A string of white space only. *)
Fixpoint isBlank (s : string) : bool :=
  match s with
  | EmptyString => true
  | String c s' => Js.isWhiteSpace c && isBlank s'
  end.

(** The code unit [c] occurs in [s]. *)
Fixpoint hasChar (c : ascii) (s : string) : bool :=
  match s with
  | EmptyString => false
  | String a s' => Ascii.eqb a c || hasChar c s'
  end.

(** [l.join(sep)] for a separator of one code unit. *)
Fixpoint join (sep : ascii) (l : list string) : string :=
  match l with
  | [] => EmptyString
  | [s] => s
  | s :: l' => s ++ String sep (join sep l')
  end.

(** All code units below 256. *)
Definition allChars : list ascii := map ascii_of_nat (seq 0 256).

(** A lower-case ASCII letter. *)
Definition isLowerLetter (c : ascii) : bool :=
  ((97 <=? Js.code c) && (Js.code c <=? 122))%nat.

Fixpoint isLowerWord (s : string) : bool :=
  match s with
  | EmptyString => true
  | String c s' => isLowerLetter c && isLowerWord s'
  end.

(** ** Vocabulary: ingestion *)

(** The MIME types [getImageMimeType] gives to images. *)
Definition imageTypes : list string :=
  ["image/jpeg"; "image/png"; "image/gif"; "image/webp"].

(** The world in which the loop of [handleCbz] starts. *)
Definition cbzLoopStart (files : gmap string ZipObject) (w : World) : World :=
  exec (write (set_totalPageCount (length (imageFilesOf files)))) w.

(** The world in which the loop of [handlePdf] starts. *)
Definition pdfLoopStart (pdf : PDFDocumentProxy) (w : World) : World :=
  exec (write (set_totalPageCount (numPages pdf))) (exec createObjectURL w).

(** The world a completed loop is turned into by the last two writes of
    [handleCbz] and [handlePdf]. *)
Definition loadedWith (ps : list Page) (w : World) : World :=
  exec (write (set_status St_file_loaded)) (exec (write (set_pages ps)) w).

(** What a page the loop of [handleCbz] made was made from. *)
Definition fromEntry (files : gmap string ZipObject) (p : Page) : Prop :=
  exists o, files !! pageName p = Some o /\ dir o = false /\
    async_blob o = Fulfilled (bits (file p)) /\
    type (file p) = getImageMimeType (pageName p).

(** Page [i] of a document fails with [e]: fetching it is rejected, or it has
    a canvas context and rendering it is rejected. *)
Definition failsToRender (pdf : PDFDocumentProxy) (i : nat) (e : JsError)
  : Prop :=
  getPage pdf i = Rejected e \/
  exists pg, getPage pdf i = Fulfilled pg /\
    getContext2d pg pdfScale = true /\ render pg pdfScale = Rejected e.

(** An archive whose second image cannot be read. *)
Definition damagedArchive : gmap string ZipObject :=
  list_to_map
    [("1.png", zipEntry "a");
     ("2.png", {| dir := false;
                  async_blob := Rejected (newError "CRC32 mismatch") |});
     ("3.png", zipEntry "c")].

(** A part of the world is left as it was. *)
Definition keeps {A} (part : World -> A) : relation World :=
  fun w w' => part w' = part w.

(** The messages with which ingestion fails. *)
Definition ingestionMessages : list string :=
  [msg_invalidFileType; msg_cbzFailed; msg_pdfUnavailable; msg_pdfFailed].

(** [w'] is [w0] with pages loaded: the state is [file-loaded], the page
    total was set, and the preview URLs of the pages are consecutive URLs
    made since [w0], live in [w']. *)
Definition loadedFrom (w0 w' : World) : Prop :=
  exists ps n c,
    app w'
    = set_status St_file_loaded
        (set_pages ps (set_totalPageCount n (app w0))) /\
    length ps <= n /\
    createdUrls w0 <= c /\
    map previewUrl ps = seq c (length ps) /\
    createdUrls w' = c + length ps /\
    (forall u, u ∈ map previewUrl ps -> u ∈ liveUrls w') /\
    console w' = console w0.

(** [w'] is [w0] with ingestion failed: the state is [error] with one of the
    messages of ingestion, and at most the page total was set. *)
Definition failedFrom (w0 w' : World) : Prop :=
  exists m B,
    app w' = set_errorMessage m (set_status St_error B) /\
    (B = app w0 \/ exists n, B = set_totalPageCount n (app w0)) /\
    m ∈ ingestionMessages /\
    createdUrls w0 <= createdUrls w'.

(** The serial number of the next object URL does not go down. *)
Definition urlsGrow : relation World :=
  fun w w' => createdUrls w <= createdUrls w'.

(** ** Vocabulary: the component through a run *)

(** The banner [translateAll] sets for a page whose iteration failed. *)
Definition msg_failedOnPage (n : nat) : string :=
  "Failed on page " ++ Js.ofNat n ++ ". See details above.".

(** The label of the console entry for such a page. *)
Definition label_errorOnPage (n : nat) : string :=
  "Error on page " ++ Js.ofNat n ++ ":".

(** What one iteration of the loop of [translateAll] makes of the
    component, for the page numbered [n], according to how the call
    settled. *)
Definition stepApp (o : Settled string) (n : nat) (a : AppComponent)
  : AppComponent :=
  let a1 := update_pages (mapPage n markTranslating) a in
  match o with
  | Fulfilled resultText =>
      update_translatedPageCount S
        (update_pages
           (mapPage n (withTranslation (translationLines resultText))) a1)
  | Rejected e =>
      set_errorMessage (msg_failedOnPage n)
        (update_pages (mapPage n (withError (messageOr e))) a1)
  end.

Section RunVocabulary.

Variable env : Env.
Variables (url : string) (mode : TranslationMode).

(** What the loop over [l], whose first call is call number [k], makes of
    the component. *)
Fixpoint runApp (l : list Page) (k : nat) (a : AppComponent) : AppComponent :=
  match l with
  | [] => a
  | page :: l' =>
      runApp l' (S k) (stepApp (outcome env url mode k page) (pageNum page) a)
  end.

(** The iterations of the loop over [l] that end in the [catch] block, in
    order: the number of the page and the error caught. *)
Fixpoint failures (l : list Page) (k : nat) : list (nat * JsError) :=
  match l with
  | [] => []
  | page :: l' =>
      match outcome env url mode k page with
      | Fulfilled _ => failures l' (S k)
      | Rejected e => (pageNum page, e) :: failures l' (S k)
      end
  end.

End RunVocabulary.

(** The console entry of the [catch] block. *)
Definition failureEntry (f : nat * JsError) : string * JsError :=
  (label_errorOnPage f.1, f.2).

(** The banner after a run in which the iterations [fs] failed. *)
Definition bannerOf (fs : list (nat * JsError)) (before : string) : string :=
  match last fs with
  | Some f => msg_failedOnPage f.1
  | None => before
  end.

Section RunConsole.

Variable env : Env.
Variables (url : string) (mode : TranslationMode).

(** What the loop over [l], whose first call is call number [k], prints to
    the console: for each page what the service printed during the call,
    then the entry of the [catch] block if the iteration ended in it. *)
Fixpoint runConsole (l : list Page) (k : nat) : list (string * JsError) :=
  match l with
  | [] => []
  | page :: l' =>
      logged (translateMangaPage (geminiService env) k (file page) url mode)
      ++ match outcome env url mode k page with
         | Fulfilled _ => []
         | Rejected e => [failureEntry (pageNum page, e)]
         end
      ++ runConsole l' (S k)
  end.

End RunConsole.

(** A page a run has been through: it is not translating, and it has lines
    or an error. *)
Definition attempted (p : Page) : Prop :=
  isTranslating p = false /\
  (is_Some (translation p) \/ is_Some (error p)).

(** The component as [translateAll] leaves it when the guard [g] is the
    first that does not hold. *)
Definition refused (g : Guard) (a : AppComponent) : AppComponent :=
  let a' := set_errorMessage (guardMessage g) (set_status St_error a) in
  match g with
  | Credential => set_isApiKeyModalVisible true a'
  | _ => a'
  end.

(** The component as the three writes that open a run leave it. *)
Definition begun (a : AppComponent) : AppComponent :=
  set_errorMessage "" (set_translatedPageCount 0 (set_status St_translating a)).

(** What identifies a page and is shown of it whatever its translation. *)
Definition identity (p : Page) : nat * File * ObjectUrl :=
  (pageNum p, file p, previewUrl p).

(** ** AppComponent: the constructor and the handlers of the page *)

Definition set_apiKeyInput v a :=
  {| status := status a; uploadedFile := uploadedFile a;
     fileName := fileName a; pages := pages a;
     totalPageCount := totalPageCount a;
     translatedPageCount := translatedPageCount a; wikiUrl := wikiUrl a;
     translationMode := translationMode a;
     isApiKeyModalVisible := isApiKeyModalVisible a;
     apiKeyInput := v; errorMessage := errorMessage a;
     isDragging := isDragging a |}.

Definition set_isDragging v a :=
  {| status := status a; uploadedFile := uploadedFile a;
     fileName := fileName a; pages := pages a;
     totalPageCount := totalPageCount a;
     translatedPageCount := translatedPageCount a; wikiUrl := wikiUrl a;
     translationMode := translationMode a;
     isApiKeyModalVisible := isApiKeyModalVisible a;
     apiKeyInput := apiKeyInput a; errorMessage := errorMessage a;
     isDragging := v |}.

Definition msg_enterKey : string := "Please enter a key to proceed.".

(** The effect registered by the constructor, as it runs: the service's key
    signal is read and, if it is truthy, the key dialog is hidden. *)
Definition constructorEffect (env : Env) : M unit :=
  if Js.truthy (apiKeySignal (geminiService env))
  then write (set_isApiKeyModalVisible false)
  else ret tt.

(** [new AppComponent()]: the signals at their initial values, then the
    effect.  Setting the worker of pdf.js is left out. *)
Definition newAppComponent (env : Env) : World :=
  exec (constructorEffect env) world0.

(** [saveApiKey()] *)
Definition saveApiKey : M unit :=
  key <- read apiKeyInput ;;
  if Js.truthy (Js.trim key)
  then write (set_isApiKeyModalVisible false)
  else write (set_errorMessage msg_enterKey).

(** A call whose promise is neither awaited nor caught: the caller goes on
    whatever becomes of it.  The world is taken once the call has
    settled. *)
Definition detached {A} (c : M A) : M unit :=
  fun w => (Fulfilled tt, exec c w).

(** What the handlers read of a [DragEvent]: [event.dataTransfer?.files],
    [None] when there is no [dataTransfer].  [preventDefault] acts on the
    event only and is left out. *)
Record DragEvent := { dataTransfer_files : option (list File) }.

(** What [onFileSelected] reads of its event: [event.target.files], [None]
    for [null]. *)
Record InputEvent := { target_files : option (list File) }.

Section AppComponentPage.

Variable env : Env.

(** [onDragOver(event)] *)
Definition onDragOver (event : DragEvent) : M unit :=
  write (set_isDragging true).

(** [onDragLeave(event)] *)
Definition onDragLeave (event : DragEvent) : M unit :=
  write (set_isDragging false).

(** [onDrop(event)] *)
Definition onDrop (event : DragEvent) : M unit :=
  write (set_isDragging false) ;;
  match dataTransfer_files event with
  | Some (file0 :: _) => detached (handleFile env file0)
  | _ => ret tt
  end.

(** [onFileSelected(event)] *)
Definition onFileSelected (event : InputEvent) : M unit :=
  match target_files event with
  | Some (file0 :: _) => detached (handleFile env file0)
  | _ => ret tt
  end.

End AppComponentPage.

(** * Properties *)

(** ** JavaScript string primitives *)

Example split_ext : Js.split "." "Book.v2.CBZ" = ["Book"; "v2"; "CBZ"].
Proof. reflexivity. Qed.

Example split_nodot : Js.pop (Js.split "." "cbz") = Some "cbz".
Proof. reflexivity. Qed.

Example split_trailing : Js.split "." "a." = ["a"; ""].
Proof. reflexivity. Qed.

Example trim_blank : Js.trim "  	 " = "".
Proof. reflexivity. Qed.

Example trim_inner : Js.trim "  a b  " = "a b".
Proof. reflexivity. Qed.

Example includes_key : Js.includes "ApiError: API key not valid." "API key not valid" = true.
Proof. reflexivity. Qed.

Example endsWith_png : Js.endsWithCI "p/001.PnG" ".png" = true.
Proof. reflexivity. Qed.

Example ofNat_12 : Js.ofNat 12 = "12".
Proof. reflexivity. Qed.

(** ** reset *)

Lemma reset_fulfils w : fst (reset w) = Fulfilled tt.
Proof. reflexivity. Qed.

(** C8. Whatever the state before, after [reset] the Page Store is empty,
    the inputs are cleared (the context URL to the empty string, the mode to
    its default [in-depth]) and the status is [idle]. *)
Theorem reset_yields_idle_empty (w : World) :
  let a := app (exec reset w) in
  pages a = [] /\ wikiUrl a = "" /\ translationMode a = Mode_in_depth /\
  status a = St_idle.
Proof. cbn. repeat split. Qed.

(** ** translateAll: the guards *)

Lemma guardMessage_inj g g' : guardMessage g = guardMessage g' -> g = g'.
Proof. destruct g, g'; (reflexivity || discriminate). Qed.

Lemma translateAll_unmet env w g :
  firstUnmet env (app w) = Some g ->
  let w' := exec (translateAll env) w in
  status (app w') = St_error /\
  errorMessage (app w') = guardMessage g /\
  pages (app w') = pages (app w) /\
  calls w' = calls w.
Proof.
  unfold firstUnmet, guardMet. intros Hg.
  unfold exec, translateAll, bind, read.
  destruct (decide (length (pages (app w)) = 0)) as [H0|H0].
  { rewrite H0 in Hg. injection Hg as <-. done. }
  apply Nat.eqb_neq in H0. rewrite H0 in Hg. cbn [negb] in Hg.
  destruct (Js.truthy (Js.trim (wikiUrl (app w)))); cbn [negb] in *.
  2: { injection Hg as <-. done. }
  destruct (Js.truthy (apiKeySignal (geminiService env))); cbn [negb] in *.
  { discriminate. }
  injection Hg as <-. done.
Qed.

(** C4, as stated, fails: with an empty Page Store and an empty context
    URL, the error is the one of the empty store, not the one of the
    missing URL. *)
Lemma translateAll_empty_store_masks_missing_url :
  Js.trim (wikiUrl (app world0)) = "" /\
  errorMessage (app (exec (translateAll (envOf echoClient)) world0))
    = msg_noPages /\
  errorMessage (app (exec (translateAll (envOf echoClient)) world0))
    <> msg_noUrl.
Proof. repeat split. discriminate. Qed.

(** C4, amended. The guards are tested in the order store, context URL,
    credential. When one is unmet, the status becomes [error] with the
    message of the first unmet guard, distinct from the messages of the
    others, the Page Store is unchanged and the client is not called; in
    particular, with a non-empty store, a blank context URL yields the
    missing-URL error with no client call. *)
Theorem translateAll_guarded (env : Env) (w : World) :
  let w' := exec (translateAll env) w in
  (forall g, firstUnmet env (app w) = Some g ->
     status (app w') = St_error /\
     errorMessage (app w') = guardMessage g /\
     pages (app w') = pages (app w) /\
     calls w' = calls w) /\
  (pages (app w) <> [] -> Js.trim (wikiUrl (app w)) = "" ->
     status (app w') = St_error /\
     errorMessage (app w') = msg_noUrl /\
     pages (app w') = pages (app w) /\
     calls w' = calls w) /\
  (forall g g', guardMessage g = guardMessage g' -> g = g').
Proof.
  intros w'. split; [|split].
  - intros g Hg. by apply translateAll_unmet.
  - intros Hne Hurl.
    apply (translateAll_unmet env w ContextUrl).
    unfold firstUnmet, guardMet. rewrite Hurl.
    destruct (pages (app w)); [done|reflexivity].
  - apply guardMessage_inj.
Qed.

Lemma translateAll_guarded_witness :
  let w' := exec (translateAll (envOf echoClient)) loaded3 in
  status (app w') = St_error /\
  errorMessage (app w') = msg_noUrl /\
  pages (app w') = [page1; page2; page3] /\
  calls w' = [].
Proof.
  apply (proj1 (proj2 (translateAll_guarded (envOf echoClient) loaded3)));
    [discriminate | reflexivity].
Defined.

(** ** handleFile: dispatch on the extension *)

Lemma prelude_run f w : prelude f w = (Fulfilled tt, exec (prelude f) w).
Proof. unfold exec. lazy. reflexivity. Qed.

Lemma prelude_pages f w : pages (app (exec (prelude f) w)) = [].
Proof. reflexivity. Qed.

Lemma prelude_calls f w : calls (exec (prelude f) w) = calls w.
Proof. reflexivity. Qed.

Lemma prelude_liveUrls f w : liveUrls (exec (prelude f) w) = liveUrls w.
Proof. reflexivity. Qed.

Lemma handleFile_cbz env f w :
  fileExtensionOf (name f) = Some "cbz" ->
  handleFile env f w = handleCbz env f (exec (prelude f) w).
Proof.
  intros H. unfold handleFile, bind. rewrite prelude_run, H.
  destruct (decide _) as [_|?]; [reflexivity|done].
Qed.

Lemma handleFile_pdf env f w :
  fileExtensionOf (name f) = Some "pdf" ->
  handleFile env f w = handlePdf env f (exec (prelude f) w).
Proof.
  intros H. unfold handleFile, bind. rewrite prelude_run, H.
  destruct (decide _) as [?|_]; [done|].
  destruct (decide _) as [_|?]; [reflexivity|done].
Qed.

Lemma handleFile_other env f w :
  fileExtensionOf (name f) <> Some "cbz" ->
  fileExtensionOf (name f) <> Some "pdf" ->
  let w' := exec (handleFile env f) w in
  status (app w') = St_error /\
  errorMessage (app w') = msg_invalidFileType /\
  pages (app w') = [].
Proof.
  intros H1 H2. unfold exec, handleFile, bind. rewrite prelude_run.
  destruct (decide _) as [?|_]; [done|].
  destruct (decide _) as [?|_]; [done|]. done.
Qed.

Lemma append_cons c s t : String c s ++ t = String c (s ++ t).
Proof. reflexivity. Qed.

Lemma append_nil t : "" ++ t = t.
Proof. reflexivity. Qed.

Lemma toLowerCase_app s t :
  Js.toLowerCase (s ++ t) = Js.toLowerCase s ++ Js.toLowerCase t.
Proof.
  induction s as [|c s IH]; [reflexivity|].
  rewrite !append_cons. cbn [Js.toLowerCase]. rewrite append_cons.
  by f_equal.
Qed.

(** Splitting at dots a string that ends with a dot and a dot-free tail:
    the tail is the last piece, and not the only one. *)
Lemma split_dot_tail s t :
  Js.split "." t = [t] ->
  exists h pre, Js.split "." (s ++ "." ++ t) = ((h :: pre) ++ [t])%list.
Proof.
  intros Ht. induction s as [|c s (h & pre & IH)].
  - exists "", []. rewrite append_nil, append_cons, append_nil.
    cbn [Js.split]. by rewrite Ht.
  - rewrite append_cons. cbn [Js.split]. rewrite IH.
    destruct (Ascii.eqb c "."); cbn [app]; eauto.
Qed.

Lemma pop_split_dot_tail s t :
  Js.split "." t = [t] -> Js.pop (Js.split "." (s ++ "." ++ t)) = Some t.
Proof.
  intros Ht. destruct (split_dot_tail s t Ht) as (h & pre & ->).
  unfold Js.pop. by rewrite last_snoc.
Qed.

(** A name that ends with a dot and an extension which lower-cases to the
    dot-free [x] has file extension [x]. *)
Lemma fileExtensionOf_suffix stem e x :
  Js.toLowerCase e = x -> Js.split "." x = [x] ->
  fileExtensionOf (stem ++ "." ++ e) = Some x.
Proof.
  intros He Hx. unfold fileExtensionOf.
  rewrite !toLowerCase_app, He.
  change (Js.toLowerCase ".") with ".".
  by apply pop_split_dot_tail.
Qed.

Example handleFile_book_names :
  map (fun p => name (file p))
      (pages (app (exec (handleFile (zipEnv book) (upload "book.cbz")) world0)))
  = ["001.png"; "002.png"; "010.jpg"].
Proof. vm_compute. reflexivity. Qed.

(** C10, as stated, fails twice: a file named [cbz], which does not end in
    [.cbz], is extracted as an archive; and a file of another type empties
    a populated Page Store. *)
Lemma handleFile_dotless_name_and_store :
  (Js.endsWithCI "cbz" ".cbz" = false /\
   let w' := exec (handleFile (zipEnv book) (upload "cbz")) world0 in
   status (app w') = St_file_loaded /\ length (pages (app w')) = 3) /\
  (fileExtensionOf "notes.txt" = Some "txt" /\
   pages (app loaded3) = [page1; page2; page3] /\
   pages (app (exec (handleFile (zipEnv book) (upload "notes.txt")) loaded3))
     = []).
Proof. vm_compute. repeat split. Qed.

(** C10, amended. The dispatch keys on the piece of the lower-cased name
    after its last dot, which is the whole name when it has no dot. After
    the reset that empties the Page Store: a name whose last piece is [cbz]
    goes to archive extraction, so every name ending in [.cbz] in any letter
    case does; likewise [pdf] and PDF rasterization; any other name yields
    the invalid-file-type error with the Page Store left empty. *)
Theorem handleFile_dispatch (env : Env) (f : File) (w : World) :
  pages (app (exec (prelude f) w)) = [] /\
  (fileExtensionOf (name f) = Some "cbz" ->
     handleFile env f w = handleCbz env f (exec (prelude f) w)) /\
  (fileExtensionOf (name f) = Some "pdf" ->
     handleFile env f w = handlePdf env f (exec (prelude f) w)) /\
  (forall stem e, name f = stem ++ "." ++ e -> Js.toLowerCase e = "cbz" ->
     handleFile env f w = handleCbz env f (exec (prelude f) w)) /\
  (forall stem e, name f = stem ++ "." ++ e -> Js.toLowerCase e = "pdf" ->
     handleFile env f w = handlePdf env f (exec (prelude f) w)) /\
  (fileExtensionOf (name f) <> Some "cbz" ->
   fileExtensionOf (name f) <> Some "pdf" ->
     let w' := exec (handleFile env f) w in
     status (app w') = St_error /\
     errorMessage (app w') = msg_invalidFileType /\
     pages (app w') = []).
Proof.
  split; [apply prelude_pages|].
  split; [apply handleFile_cbz|].
  split; [apply handleFile_pdf|].
  split; [|split].
  - intros stem e Hn He. apply handleFile_cbz. rewrite Hn.
    by apply fileExtensionOf_suffix.
  - intros stem e Hn He. apply handleFile_pdf. rewrite Hn.
    by apply fileExtensionOf_suffix.
  - apply handleFile_other.
Qed.

Lemma handleFile_dispatch_witness :
  handleFile (zipEnv book) (upload "Vol.1.CbZ") loaded3
  = handleCbz (zipEnv book) (upload "Vol.1.CbZ")
      (exec (prelude (upload "Vol.1.CbZ")) loaded3).
Proof.
  apply (proj1 (proj2 (proj2 (proj2
           (handleFile_dispatch (zipEnv book) (upload "Vol.1.CbZ") loaded3))))
         "Vol.1" "CbZ"); reflexivity.
Defined.

(** ** The order of [sort()] *)

#[global] Instance str_le_total : Total str_le.
Proof. intros s t. apply String.leb_total. Qed.

Lemma ascii_compare_lt_trans a b c :
  Ascii.compare a b = Lt -> Ascii.compare b c = Lt -> Ascii.compare a c = Lt.
Proof.
  unfold Ascii.compare. rewrite !N.compare_lt_iff. apply N.lt_trans.
Qed.

Lemma string_compare_refl s : String.compare s s = Eq.
Proof.
  induction s as [|a s IH]; [reflexivity|]. cbn [String.compare].
  unfold Ascii.compare. by rewrite N.compare_refl.
Qed.

Lemma string_compare_lt_trans s t u :
  String.compare s t = Lt -> String.compare t u = Lt ->
  String.compare s u = Lt.
Proof.
  revert t u. induction s as [|a s IH]; intros [|b t] [|c u];
    cbn [String.compare]; try congruence.
  destruct (Ascii.compare a b) eqn:Hab; try discriminate;
    destruct (Ascii.compare b c) eqn:Hbc; try discriminate; intros Hst Htu.
  - apply Ascii.compare_eq_iff in Hab as ->. rewrite Hbc. eauto.
  - apply Ascii.compare_eq_iff in Hab as ->. by rewrite Hbc.
  - apply Ascii.compare_eq_iff in Hbc as <-. by rewrite Hab.
  - by rewrite (ascii_compare_lt_trans a b c).
Qed.

Lemma str_le_cases s t : str_le s t <-> s = t \/ String.compare s t = Lt.
Proof.
  unfold str_le, String.leb. split.
  - destruct (String.compare s t) eqn:H; try discriminate; intros _.
    + left. by apply String.compare_eq_iff.
    + by right.
  - intros [->| ->]; [by rewrite string_compare_refl|done].
Qed.

#[global] Instance str_le_trans : Transitive str_le.
Proof.
  intros s t u. rewrite !str_le_cases.
  intros [->|Hst] [->|Htu]; eauto using string_compare_lt_trans.
Qed.

Lemma sort_Permutation l : sort l ≡ₚ l.
Proof. apply merge_sort_Permutation. Qed.

Lemma sort_StronglySorted l : StronglySorted str_le (sort l).
Proof. apply StronglySorted_merge_sort; apply _. Qed.

(** ** handleCbz *)

Lemma isImageEntry_spec files n :
  isImageEntry files n = true <->
  exists o, files !! n = Some o /\ isImage n o.
Proof.
  unfold isImageEntry, isImage. destruct (files !! n) as [o|]; split.
  - intros [H1 H2]%andb_true_iff. exists o.
    by apply negb_true_iff in H1.
  - intros (o' & [= <-] & -> & ->). reflexivity.
  - discriminate.
  - by intros (? & ? & _).
Qed.

Lemma elem_of_imageFilesOf files n :
  n ∈ imageFilesOf files <-> exists o, files !! n = Some o /\ isImage n o.
Proof.
  unfold imageFilesOf. rewrite sort_Permutation, list_elem_of_filter.
  rewrite isImageEntry_spec. unfold Object_keys. split.
  - by intros [? _].
  - intros (o & Ho & Hi). split; [by eauto|].
    apply list_elem_of_fmap. exists (n, o). split; [done|].
    by apply elem_of_map_to_list.
Qed.

Lemma NoDup_imageFilesOf files : NoDup (imageFilesOf files).
Proof.
  unfold imageFilesOf. rewrite sort_Permutation.
  apply NoDup_filter, NoDup_fst_map_to_list.
Qed.

Lemma cbzStep_run files nm acc n w o b :
  files !! nm = Some o -> dir o = false -> async_blob o = Fulfilled b ->
  cbzStep files nm (acc, n) w =
  (Fulfilled
     ((acc ++ [newPage n {| name := nm; type := getImageMimeType nm;
                            bits := b |} (createdUrls w)])%list, S n),
   exec createObjectURL w).
Proof.
  intros Ho Hd Hb. unfold cbzStep, zip_file. rewrite Ho, Hd.
  unfold bind, await. rewrite Hb. reflexivity.
Qed.

(** The loop of [handleCbz] on names that are all readable files of the
    archive: one page per name, in order, numbered from [n] on, each with
    an object URL of its own that is now live; the component is not
    written to. *)
Lemma forOf_cbzStep files l : forall acc n w,
  Forall (fun nm => exists o b,
            files !! nm = Some o /\ dir o = false /\
            async_blob o = Fulfilled b) l ->
  exists ps w',
    forOf l (acc, n) (cbzStep files) w
      = (Fulfilled ((acc ++ ps)%list, n + length l), w') /\
    map pageNum ps = seq n (length l) /\
    map pageName ps = l /\
    Forall untouched ps /\
    app w' = app w /\ history w' = history w /\ calls w' = calls w /\
    console w' = console w /\
    liveUrls w' = list_to_set (map previewUrl ps) ∪ liveUrls w.
Proof.
  induction l as [|nm l IH]; intros acc n w Hl.
  - exists [], w. cbn [forOf ret length map seq].
    rewrite app_nil_r, Nat.add_0_r. repeat split; [constructor|].
    cbn [map list_to_set]. by rewrite (left_id_L ∅ (∪)).
  - apply Forall_cons in Hl as [(o & b & Ho & Hd & Hb) Hl].
    cbn [forOf]. unfold bind at 1.
    rewrite (cbzStep_run _ _ _ _ _ _ _ Ho Hd Hb).
    destruct (IH (acc ++ [newPage n {| name := nm; type := getImageMimeType nm;
                                        bits := b |} (createdUrls w)])%list
                 (S n) (exec createObjectURL w) Hl)
      as (ps & w' & -> & Hnum & Hnm & Hun & Ha & Hh & Hc & Hk & Hu).
    eexists (_ :: ps), w'. split.
    { rewrite <- app_assoc. cbn [app length]. by rewrite Nat.add_succ_r. }
    cbn [map length seq pageNum pageName newPage file name previewUrl].
    rewrite Hnum, Hnm, Ha, Hh, Hc, Hk, Hu.
    repeat split.
    + constructor; [by repeat split|done].
    + cbn [list_to_set exec createObjectURL snd liveUrls].
      by rewrite (assoc_L (∪)), (comm_L (∪) _ {[createdUrls w]}).
Qed.

Lemma handleCbz_corrupt env f w e :
  JSZip_loadAsync env f = Rejected e ->
  handleCbz env f w = cbzCatch e w.
Proof.
  intros Hl. unfold handleCbz, tryCatch, bind at 1, await. by rewrite Hl.
Qed.

Lemma handleCbz_no_images env f w files :
  JSZip_loadAsync env f = Fulfilled files ->
  imageFilesOf files = [] ->
  handleCbz env f w = cbzCatch (newError msg_cbzNoImages) w.
Proof.
  intros Hl He. unfold handleCbz, tryCatch, bind at 1, await.
  rewrite Hl, He. reflexivity.
Qed.

Lemma bind_write {A} f (k : unit -> M A) w :
  bind (write f) k w = k tt (exec (write f) w).
Proof. reflexivity. Qed.

Lemma handleCbz_images env f w files :
  JSZip_loadAsync env f = Fulfilled files ->
  readable files ->
  imageFilesOf files <> [] ->
  exists ps w1,
    handleCbz env f w
      = (write (set_pages ps) ;; write (set_status St_file_loaded)) w1 /\
    app w1 = set_totalPageCount (length ps) (app w) /\
    map pageNum ps = seq 1 (length ps) /\
    map pageName ps = imageFilesOf files /\
    Forall untouched ps /\
    calls w1 = calls w /\
    console w1 = console w /\
    liveUrls w1 = list_to_set (map previewUrl ps) ∪ liveUrls w.
Proof.
  intros Hl Hr Hne.
  assert (Hall : Forall (fun nm => exists o b,
                   files !! nm = Some o /\ dir o = false /\
                   async_blob o = Fulfilled b) (imageFilesOf files)).
  { apply Forall_forall. intros nm (o & Ho & Hi)%elem_of_imageFilesOf.
    destruct (Hr nm o Ho Hi) as [b Hb]. exists o, b. by destruct Hi. }
  destruct (forOf_cbzStep files (imageFilesOf files) [] 1
              (exec (write (set_totalPageCount (length (imageFilesOf files)))) w)
              Hall)
    as (ps & w1 & Hrun & Hnum & Hnm & Hun & Ha & Hh & Hc & Hk & Hu).
  assert (Hlen : length (imageFilesOf files) = length ps).
  { by rewrite <- Hnm, length_map. }
  exists ps, w1.
  split.
  { unfold handleCbz, tryCatch, bind at 1, await. rewrite Hl.
    destruct (decide _) as [H0|_].
    { by destruct (imageFilesOf files). }
    rewrite Hlen.
    rewrite bind_write. rewrite <- Hlen.
    unfold bind at 1. rewrite Hrun. reflexivity. }
  rewrite <- Hlen, Ha, Hc, Hk, Hu. rewrite Hlen. rewrite Hlen in Hnum. done.
Qed.

Lemma length_imageFilesOf files :
  length (imageFilesOf files) = size (imageEntries files).
Proof.
  rewrite <- size_dom. unfold size at 1, set_size. cbn.
  apply Permutation_length, NoDup_Permutation.
  - apply NoDup_imageFilesOf.
  - apply NoDup_elements.
  - intros n. rewrite elem_of_imageFilesOf, elem_of_elements, elem_of_dom.
    unfold imageEntries, is_Some.
    setoid_rewrite map_lookup_filter_Some. naive_solver.
Qed.

Lemma cbzCatch_run e w :
  let w' := exec (cbzCatch e) w in
  status (app w') = St_error /\ errorMessage (app w') = msg_cbzFailed /\
  pages (app w') = pages (app w) /\ calls w' = calls w /\
  liveUrls w' = liveUrls w /\ console w' = (console w ++ [("", e)])%list.
Proof. done. Qed.

(** What [handleFile] leaves for a [.cbz] file that opens as a readable
    archive. *)
Lemma handleFile_cbz_pages env f w files :
  fileExtensionOf (name f) = Some "cbz" ->
  JSZip_loadAsync env f = Fulfilled files ->
  readable files ->
  let w' := exec (handleFile env f) w in
  map pageNum (pages (app w')) = seq 1 (length (imageFilesOf files)) /\
  map pageName (pages (app w')) = imageFilesOf files /\
  Forall untouched (pages (app w')) /\
  (imageFilesOf files <> [] -> status (app w') = St_file_loaded) /\
  calls w' = calls w.
Proof.
  intros Hx Hl Hr. cbv zeta. unfold exec. rewrite (handleFile_cbz _ _ _ Hx).
  destruct (decide (imageFilesOf files = [])) as [He|Hne].
  - rewrite (handleCbz_no_images _ _ _ _ Hl He), He.
    destruct (cbzCatch_run (newError msg_cbzNoImages) (exec (prelude f) w))
      as (_ & _ & Hp & Hc & _).
    change ((cbzCatch (newError msg_cbzNoImages) (exec (prelude f) w)).2)
      with (exec (cbzCatch (newError msg_cbzNoImages)) (exec (prelude f) w)).
    rewrite Hp, Hc, prelude_pages, prelude_calls.
    repeat split; [constructor|congruence].
  - destruct (handleCbz_images env f (exec (prelude f) w) files Hl Hr Hne)
      as (ps & w1 & Hrun & Ha & Hnum & Hnm & Hun & Hc & Hk & Hu).
    rewrite Hrun.
    cbn [bind write fst snd app pages status calls set_status set_pages
         update_pages].
    rewrite Hc, prelude_calls. rewrite <- Hnm at 1. rewrite length_map.
    repeat split; assumption.
Qed.

Lemma readable_list_to_map (l : list (string * ZipObject)) :
  Forall (fun kv => exists b, async_blob kv.2 = Fulfilled b) l ->
  readable (list_to_map l).
Proof.
  intros Hall n o Ho _. apply elem_of_list_to_map_2 in Ho.
  rewrite Forall_forall in Hall. apply (Hall _ Ho).
Qed.

(** C3. For a [.cbz] file that opens as an archive whose image entries can
    all be read, with [k] entries that are not directories and whose name
    ends in [.jpg], [.jpeg], [.png], [.gif] or [.webp] in any letter case:
    the Page Store holds exactly [k] pages, numbered 1..[k], whose file
    names are exactly the names of those entries in ascending order of
    code units. In particular the archive of [002.png], [001.png] and
    [010.jpg] gives [001.png], [002.png], [010.jpg] as pages 1, 2, 3. *)
Theorem handleCbz_pages_sorted_numbered :
  (forall (env : Env) (f : File) (w : World) (files : gmap string ZipObject),
     fileExtensionOf (name f) = Some "cbz" ->
     JSZip_loadAsync env f = Fulfilled files ->
     readable files ->
     let k := size (imageEntries files) in
     let w' := exec (handleFile env f) w in
     let ps := pages (app w') in
     length ps = k /\
     map pageNum ps = seq 1 k /\
     StronglySorted str_le (map pageName ps) /\
     NoDup (map pageName ps) /\
     (forall n, n ∈ map pageName ps <->
                exists o, files !! n = Some o /\ isImage n o) /\
     (0 < k -> status (app w') = St_file_loaded)) /\
  map (fun p => (pageName p, pageNum p))
      (pages (app (exec (handleFile (zipEnv book) (upload "book.cbz")) world0)))
  = [("001.png", 1); ("002.png", 2); ("010.jpg", 3)].
Proof.
  split; [|by vm_compute].
  intros env f w files Hx Hl Hr k w' ps.
  destruct (handleFile_cbz_pages env f w files Hx Hl Hr)
    as (Hnum & Hnm & _ & Hst & _).
  fold w' in Hnum, Hnm, Hst. fold ps in Hnum, Hnm.
  rewrite length_imageFilesOf in Hnum. fold k in Hnum.
  split; [by rewrite <- (length_map pageNum), Hnum, length_seq|].
  split; [done|]. rewrite Hnm.
  split; [apply sort_StronglySorted|].
  split; [apply NoDup_imageFilesOf|].
  split; [apply elem_of_imageFilesOf|].
  intros Hk. apply Hst. intros He.
  pose proof (length_imageFilesOf files) as Hlen.
  rewrite He in Hlen. cbn in Hlen. unfold k in Hk. lia.
Qed.

Lemma handleCbz_pages_sorted_numbered_witness :
  let w' := exec (handleFile (zipEnv mixedArchive) (upload "Vol.1.CBZ")) loaded3 in
  length (pages (app w')) = size (imageEntries mixedArchive) /\
  map pageNum (pages (app w')) = seq 1 (size (imageEntries mixedArchive)) /\
  size (imageEntries mixedArchive) = 2.
Proof.
  destruct (proj1 handleCbz_pages_sorted_numbered
              (zipEnv mixedArchive) (upload "Vol.1.CBZ") loaded3 mixedArchive)
    as (Hlen & Hnum & _).
  - reflexivity.
  - reflexivity.
  - apply readable_list_to_map. repeat constructor; eexists; reflexivity.
  - split; [exact Hlen|]. split; [exact Hnum|]. by vm_compute.
Defined.
(** ** Relations that every step of a handler respects *)

Section Respects.

Context (R : relation World) `{!PreOrder R}.

Lemma respects_ret {A} (v : A) : respects R (ret v).
Proof. intros w. reflexivity. Qed.

Lemma respects_throw {A} e : respects R (@throw A e).
Proof. intros w. reflexivity. Qed.

Lemma respects_await {A} (p : Settled A) : respects R (await p).
Proof. intros w. reflexivity. Qed.

Lemma respects_read {A} (f : AppComponent -> A) : respects R (read f).
Proof. intros w. reflexivity. Qed.

Lemma respects_bind {A B} (c : M A) (k : A -> M B) :
  respects R c -> (forall v, respects R (k v)) -> respects R (bind c k).
Proof.
  intros Hc Hk w. unfold bind. specialize (Hc w).
  destruct (c w) as [[v|e] w1]; cbn [snd] in *; [|done].
  etransitivity; [exact Hc|apply Hk].
Qed.

Lemma respects_tryCatch {A} (body : M A) (h : JsError -> M A) :
  respects R body -> (forall e, respects R (h e)) ->
  respects R (tryCatch body h).
Proof.
  intros Hc Hh w. unfold tryCatch. specialize (Hc w).
  destruct (body w) as [[v|e] w1]; cbn [snd] in *; [done|].
  etransitivity; [exact Hc|apply Hh].
Qed.

Lemma respects_forOf {A S} (l : list A) (body : A -> S -> M S) :
  (forall x acc, respects R (body x acc)) ->
  forall acc, respects R (forOf l acc body).
Proof.
  intros Hb. induction l as [|x l IH]; intros acc; cbn [forOf].
  - apply respects_ret.
  - apply respects_bind; [apply Hb|apply IH].
Qed.

End Respects.

(** The handlers of the component, built from steps that respect [R],
    respect [R]. *)
Section RespectsHandlers.

Context (R : relation World) `{!PreOrder R}.
Hypothesis R_write : forall f, respects R (write f).
Hypothesis R_createObjectURL : respects R createObjectURL.
Hypothesis R_console : forall l e, respects R (console_error l e).

Ltac step :=
  lazymatch goal with
  | |- respects _ (ret _) => apply (@respects_ret R PreOrder0)
  | |- respects _ (throw _) => apply (@respects_throw R PreOrder0)
  | |- respects _ (await _) => apply (@respects_await R PreOrder0)
  | |- respects _ (read _) => apply (@respects_read R PreOrder0)
  | |- respects _ (write _) => apply R_write
  | |- respects _ createObjectURL => apply R_createObjectURL
  | |- respects _ (console_error _ _) => apply R_console
  | |- respects _ (bind _ _) => apply (@respects_bind R PreOrder0); [|intros ?; cbv beta]
  | |- respects _ (tryCatch _ _) => apply (@respects_tryCatch R PreOrder0); [|intros ?; cbv beta]
  | |- respects _ (forOf _ _ _) => apply (@respects_forOf R PreOrder0); intros ? ?; cbv beta
  end.

Lemma respects_reset : respects R reset.
Proof using R_write PreOrder0. unfold reset. repeat step. Qed.

Lemma respects_prelude f : respects R (prelude f).
Proof using R_write PreOrder0.
  unfold prelude. repeat first [apply respects_reset | step].
Qed.

Lemma respects_handleCbz env f : respects R (handleCbz env f).
Proof using All.
  unfold handleCbz, cbzCatch. step; [|repeat step].
  step; [step|]. destruct (decide _); [step|].
  step; [step|]. step; [|repeat step].
  step. unfold cbzStep. destruct acc as [? ?].
  destruct (zip_file _ _); repeat step.
Qed.

Lemma respects_handlePdf env f : respects R (handlePdf env f).
Proof using All.
  unfold handlePdf, pdfCatch. destruct (pdfjsLib env); [|repeat step].
  step; [|repeat step]. do 3 (step; [step|]). step; [|repeat step].
  step. unfold pdfStep. step; [step|].
  destruct (getContext2d _ _); [|step]. step; [step|].
  destruct (toBlob _ _ _ _); repeat step.
Qed.

Lemma respects_handleFile env f : respects R (handleFile env f).
Proof using All.
  unfold handleFile. step; [apply respects_prelude|].
  destruct (decide _); [apply respects_handleCbz|].
  destruct (decide _); [apply respects_handlePdf|repeat step].
Qed.

End RespectsHandlers.
(** ** Object URLs are never revoked *)

#[global] Instance keepsUrls_preorder : PreOrder keepsUrls.
Proof.
  split; [intros w; unfold keepsUrls; done|].
  intros w1 w2 w3. unfold keepsUrls. set_solver.
Qed.

Lemma keepsUrls_write f : respects keepsUrls (write f).
Proof. intros w. unfold keepsUrls. done. Qed.

Lemma keepsUrls_createObjectURL : respects keepsUrls createObjectURL.
Proof. intros w. unfold keepsUrls. cbn. set_solver. Qed.

Lemma keepsUrls_console l e : respects keepsUrls (console_error l e).
Proof. intros w. unfold keepsUrls. done. Qed.

Lemma reset_liveUrls w : liveUrls (exec reset w) = liveUrls w.
Proof. reflexivity. Qed.

(** C9, as stated, fails: the preview URLs of the pages of a session are
    still live after [reset], and still live after another file has been
    selected. *)
Lemma preview_url_live_after_reset :
  let w1 := exec (handleFile (zipEnv book) (upload "book.cbz")) world0 in
  map previewUrl (pages (app w1)) = [0; 1; 2] /\
  pages (app (exec reset w1)) = [] /\
  0 ∈ liveUrls (exec reset w1) /\
  0 ∈ liveUrls (exec (handleFile (zipEnv book) (upload "next.cbz")) w1).
Proof.
  cbv zeta. split; [by vm_compute|]. split; [by vm_compute|].
  split; refine (bool_decide_unpack _ _); by vm_compute.
Qed.

(** C9, amended. On [reset] and on selection of a new file the Page Store
    lets go of the pages of the previous session, but no preview handle is
    released: [reset] leaves the set of live object URLs as it is, and
    [handleFile] only adds to it. *)
Theorem object_urls_outlive_session (env : Env) (f : File) (w : World) :
  pages (app (exec reset w)) = [] /\
  liveUrls (exec reset w) = liveUrls w /\
  pages (app (exec (prelude f) w)) = [] /\
  liveUrls w ⊆ liveUrls (exec (handleFile env f) w).
Proof.
  split; [reflexivity|]. split; [apply reset_liveUrls|].
  split; [apply prelude_pages|].
  apply (respects_handleFile keepsUrls keepsUrls_write
           keepsUrls_createObjectURL keepsUrls_console env f w).
Qed.
(** ** An archive without images *)

(** C5, at an archive without images: the status is [error] and the Page
    Store is empty, but the message is the one of an archive that cannot be
    read, and the component ends in the very state a corrupt archive leaves;
    the error raised for the missing images reaches the console only. *)
Theorem handleFile_empty_archive_reported_as_corrupt :
  let wE := exec (handleFile (zipEnv textOnly) (upload "book.cbz")) world0 in
  let wC := exec (handleFile corruptEnv (upload "book.cbz")) world0 in
  size (imageEntries textOnly) = 0 /\
  status (app wE) = St_error /\
  pages (app wE) = [] /\
  errorMessage (app wE) = msg_cbzFailed /\
  errorMessage (app wE) <> msg_cbzNoImages /\
  app wE = app wC /\
  console wE = [("", newError msg_cbzNoImages)].
Proof.
  cbv zeta.
  split. { by vm_compute. }
  split. { by vm_compute. }
  split. { by vm_compute. }
  split. { by vm_compute. }
  split. { vm_compute. discriminate. }
  split. { by vm_compute. }
  by vm_compute.
Qed.
(** ** handlePdf *)

Lemma pdfStep_run pdf i acc w :
  renders pdf i ->
  pdfStep pdf i acc w =
  match pageBlob pdf i with
  | Some b =>
      (Fulfilled (acc ++ [newPage i (pdfPageFile i b) (createdUrls w)])%list,
       exec createObjectURL w)
  | None => (Fulfilled acc, w)
  end.
Proof.
  intros (pg & Hpg & Hr). unfold pdfStep, pageBlob, bind at 1, await.
  rewrite Hpg. destruct (getContext2d pg pdfScale); [|reflexivity].
  destruct (Hr eq_refl) as [d Hd]. unfold bind at 1. rewrite Hd.
  destruct (toBlob pg pdfScale d "image/png"); reflexivity.
Qed.

Lemma forOf_pdfStep pdf l : forall acc w,
  Forall (renders pdf) l ->
  exists ps w',
    forOf l acc (pdfStep pdf) w = (Fulfilled (acc ++ ps)%list, w') /\
    map pageNum ps = withBlob pdf l /\
    Forall (isPdfPage pdf) ps /\
    app w' = app w /\ calls w' = calls w /\
    liveUrls w' = list_to_set (map previewUrl ps) ∪ liveUrls w.
Proof.
  induction l as [|i l IH]; intros acc w Hl.
  - exists [], w. cbn [forOf ret]. rewrite app_nil_r.
    repeat split; [constructor|].
    cbn [map list_to_set]. by rewrite (left_id_L ∅ (∪)).
  - apply Forall_cons in Hl as [Hi Hl].
    cbn [forOf]. unfold bind at 1. rewrite (pdfStep_run _ _ _ _ Hi).
    unfold withBlob. rewrite filter_cons.
    destruct (pageBlob pdf i) as [b|] eqn:Hb.
    + destruct (IH (acc ++ [newPage i (pdfPageFile i b) (createdUrls w)])%list
                  (exec createObjectURL w) Hl)
        as (ps & w' & -> & Hnum & Hall & Ha & Hc & Hu).
      eexists (_ :: ps), w'. split; [by rewrite <- app_assoc|].
      destruct (decide _) as [_|Hn]; [|by destruct Hn].
      cbn [map pageNum newPage previewUrl]. rewrite Hnum, Ha, Hc, Hu.
      repeat split.
      * constructor; [|done]. exists b. unfold newPage, untouched.
        cbn [pageNum file translation isTranslating error]. by rewrite Hb.
      * cbn [list_to_set exec createObjectURL snd liveUrls].
        by rewrite (assoc_L (∪)), (comm_L (∪) _ {[createdUrls w]}).
    + destruct (IH acc w Hl) as (ps & w' & -> & Hnum & Hall & Ha & Hc & Hu).
      exists ps, w'. destruct (decide _) as [[? [=]]|_]. done.
Qed.

Lemma bind_createObjectURL {A} (k : ObjectUrl -> M A) w :
  bind createObjectURL k w = k (createdUrls w) (exec createObjectURL w).
Proof. reflexivity. Qed.

Lemma handlePdf_run env f w gd pdf :
  pdfjsLib env = Some gd ->
  gd f = Fulfilled pdf ->
  (forall i, 1 <= i <= numPages pdf -> renders pdf i) ->
  exists ps w1,
    handlePdf env f w
      = (write (set_pages ps) ;; write (set_status St_file_loaded)) w1 /\
    map pageNum ps = withBlob pdf (seq 1 (numPages pdf)) /\
    Forall (isPdfPage pdf) ps /\
    calls w1 = calls w /\
    liveUrls w ⊆ liveUrls w1.
Proof.
  intros Hlib Hdoc Hren.
  assert (Hall : Forall (renders pdf) (seq 1 (numPages pdf))).
  { apply Forall_forall. intros i Hi%elem_of_seq. apply Hren. lia. }
  destruct (forOf_pdfStep pdf (seq 1 (numPages pdf)) []
              (exec (write (set_totalPageCount (numPages pdf)))
                    (exec createObjectURL w)) Hall)
    as (ps & w1 & Hrun & Hnum & Hps & Ha & Hc & Hu).
  exists ps, w1. split.
  { unfold handlePdf. rewrite Hlib. unfold tryCatch.
    rewrite bind_createObjectURL. unfold bind at 1, await. rewrite Hdoc.
    rewrite bind_write. unfold bind at 1. rewrite Hrun. reflexivity. }
  split; [done|]. split; [done|]. split; [by rewrite Hc|].
  rewrite Hu. cbn [exec write createObjectURL snd liveUrls].
  etransitivity; apply union_subseteq_r.
Qed.

Lemma withBlob_all pdf l :
  (forall i, i ∈ l -> is_Some (pageBlob pdf i)) -> withBlob pdf l = l.
Proof.
  intros H. unfold withBlob. induction l as [|i l IH]; [done|].
  rewrite filter_cons. destruct (decide _) as [_|Hn].
  - f_equal. apply IH. intros j Hj. apply H. by right.
  - destruct Hn. apply H. by left.
Qed.

(** C6, as stated, fails: a document that opens and declares three pages,
    one of which gives no PNG blob, is loaded with two pages, numbered 1
    and 3. *)
Lemma handlePdf_skips_page_without_blob :
  let w' := exec (handleFile (pdfEnv threePages) (upload "book.pdf")) world0 in
  numPages threePages = 3 /\
  status (app w') = St_file_loaded /\
  map pageNum (pages (app w')) = [1; 3].
Proof.
  cbv zeta. split; [reflexivity|]. split; by vm_compute.
Qed.

(** C6, amended. For a PDF that opens with [N] declared pages, each of
    which can be fetched and rendered: the Page Store holds one page for
    each page index in 1..[N] that has a canvas context and a PNG blob, in
    increasing index order and numbered with its index; its file is the
    blob of the page rendered at scale 1.5 and encoded as [image/png],
    named [page_<index>.png]. Pages without a context or a blob are
    skipped; when there is none, the store holds exactly [N] pages numbered
    1..[N]. *)
Theorem handlePdf_pages_in_order (env : Env) (f : File) (w : World)
    (gd : File -> Settled PDFDocumentProxy) (pdf : PDFDocumentProxy) :
  fileExtensionOf (name f) = Some "pdf" ->
  pdfjsLib env = Some gd ->
  gd f = Fulfilled pdf ->
  (forall i, 1 <= i <= numPages pdf -> renders pdf i) ->
  let w' := exec (handleFile env f) w in
  let ps := pages (app w') in
  status (app w') = St_file_loaded /\
  map pageNum ps = withBlob pdf (seq 1 (numPages pdf)) /\
  Forall (isPdfPage pdf) ps /\
  ((forall i, 1 <= i <= numPages pdf -> is_Some (pageBlob pdf i)) ->
   length ps = numPages pdf /\ map pageNum ps = seq 1 (numPages pdf)).
Proof.
  intros Hx Hlib Hdoc Hren. cbv zeta. unfold exec.
  rewrite (handleFile_pdf _ _ _ Hx).
  destruct (handlePdf_run env f (exec (prelude f) w) gd pdf Hlib Hdoc Hren)
    as (ps & w1 & -> & Hnum & Hps & _).
  cbn [bind write fst snd app pages status set_status set_pages
       update_pages].
  split; [reflexivity|]. split; [exact Hnum|]. split; [exact Hps|].
  intros Hall. rewrite withBlob_all in Hnum.
  - split; [|exact Hnum].
    by rewrite <- (length_map pageNum), Hnum, length_seq.
  - intros i Hi%elem_of_seq. apply Hall. lia.
Qed.

Lemma handlePdf_pages_in_order_witness :
  let w' := exec (handleFile (pdfEnv threeGoodPages) (upload "Book.PDF"))
                 loaded3 in
  status (app w') = St_file_loaded /\
  map pageNum (pages (app w')) = [1; 2; 3] /\
  Forall (isPdfPage threeGoodPages) (pages (app w')).
Proof.
  destruct (handlePdf_pages_in_order (pdfEnv threeGoodPages)
              (upload "Book.PDF") loaded3 (fun _ => Fulfilled threeGoodPages)
              threeGoodPages)
    as (Hst & _ & Hps & Hall).
  - reflexivity.
  - reflexivity.
  - reflexivity.
  - intros i _. exists (pdfPageOk "panels").
    split; [reflexivity|]. intros _. by exists "panels".
  - split; [exact Hst|]. split; [|exact Hps].
    apply Hall. intros i _. by exists (pngOf "panels").
Defined.

(** The files of that document: each holds the PNG encoding of what the
    render task drew for its page. *)
Example handlePdf_files_hold_the_rendering :
  let w' := exec (handleFile (pdfEnv threeGoodPages) (upload "Book.PDF"))
                 loaded3 in
  map (fun p => (name (file p), type (file p), bits (file p)))
      (pages (app w'))
  = [("page_1.png", "image/png", pngOf "panels");
     ("page_2.png", "image/png", pngOf "panels");
     ("page_3.png", "image/png", pngOf "panels")].
Proof. by vm_compute. Qed.

(** ** Ingestion leaves no partial Page Store *)

#[global] Instance keepsApp_preorder : PreOrder keepsApp.
Proof.
  split; [by intros w|]. intros w1 w2 w3 H12 H23. unfold keepsApp in *.
  by rewrite H23.
Qed.

Lemma keepsApp_createObjectURL : respects keepsApp createObjectURL.
Proof. by intros w. Qed.

Lemma keepsApp_cbzStep files nm acc : respects keepsApp (cbzStep files nm acc).
Proof.
  unfold cbzStep. destruct acc as [ps n].
  destruct (zip_file files nm); [|apply respects_ret; apply _].
  apply respects_bind; [apply _|apply respects_await; apply _|]. intros b.
  apply respects_bind; [apply _|apply keepsApp_createObjectURL|]. intros u.
  apply respects_ret; apply _.
Qed.

Lemma keepsApp_pdfStep pdf i acc : respects keepsApp (pdfStep pdf i acc).
Proof.
  unfold pdfStep.
  apply respects_bind; [apply _|apply respects_await; apply _|]. intros pg.
  destruct (getContext2d pg pdfScale); [|apply respects_ret; apply _].
  apply respects_bind; [apply _|apply respects_await; apply _|]. intros d.
  destruct (toBlob pg pdfScale d "image/png"); [|apply respects_ret; apply _].
  apply respects_bind; [apply _|apply keepsApp_createObjectURL|]. intros u.
  apply respects_ret; apply _.
Qed.

Lemma keepsApp_forOf_cbz files l acc :
  respects keepsApp (forOf l acc (cbzStep files)).
Proof. apply respects_forOf; [apply _|]. intros. apply keepsApp_cbzStep. Qed.

Lemma keepsApp_forOf_pdf pdf l acc :
  respects keepsApp (forOf l acc (pdfStep pdf)).
Proof. apply respects_forOf; [apply _|]. intros. apply keepsApp_pdfStep. Qed.

(** The loop of [handleCbz], when it completes on names that are all files
    of the archive, has made one page per name. *)
Lemma forOf_cbzStep_length files l : forall acc n w ps n' w',
  Forall (fun nm => is_Some (zip_file files nm)) l ->
  forOf l (acc, n) (cbzStep files) w = (Fulfilled (ps, n'), w') ->
  length ps = length acc + length l.
Proof.
  induction l as [|nm l IH]; intros acc n w ps n' w' Hl Hrun.
  - cbn in Hrun. injection Hrun as <- _ _. cbn. lia.
  - apply Forall_cons in Hl as [[o Ho] Hl].
    cbn [forOf] in Hrun. unfold bind at 1 in Hrun.
    unfold cbzStep at 1 in Hrun. rewrite Ho in Hrun.
    unfold bind at 1, await in Hrun.
    destruct (async_blob o) as [b|e]; [|discriminate].
    rewrite bind_createObjectURL in Hrun. unfold ret at 1 in Hrun.
    apply IH in Hrun; [|done]. rewrite Hrun, length_app. cbn. lia.
Qed.

Lemma zip_file_imageFilesOf files :
  Forall (fun nm => is_Some (zip_file files nm)) (imageFilesOf files).
Proof.
  apply Forall_forall. intros nm (o & Ho & Hd & _)%elem_of_imageFilesOf.
  unfold zip_file. rewrite Ho, Hd. by eexists.
Qed.

Lemma untouched_startable ps :
  NoDup (map pageNum ps) -> Forall untouched ps -> startable ps.
Proof.
  intros Hnd Hun. split; [done|]. eapply Forall_impl; [exact Hun|].
  by intros p (? & ? & _).
Qed.

(** Whenever the loop of [handleCbz] completes, what it added to
    [extractedPages] are untouched pages numbered from [n] on. *)
Lemma forOf_cbzStep_fulfilled files l : forall acc n w ps n' w',
  forOf l (acc, n) (cbzStep files) w = (Fulfilled (ps, n'), w') ->
  exists new,
    ps = (acc ++ new)%list /\
    map pageNum new = seq n (length new) /\
    Forall untouched new.
Proof.
  induction l as [|nm l IH]; intros acc n w ps n' w' Hrun.
  - cbn in Hrun. injection Hrun as <- _ _. exists [].
    rewrite app_nil_r. by repeat split.
  - cbn [forOf] in Hrun. unfold bind at 1 in Hrun.
    unfold cbzStep at 1 in Hrun.
    destruct (zip_file files nm) as [o|].
    + unfold bind at 1, await in Hrun.
      destruct (async_blob o) as [b|e]; [|discriminate].
      rewrite bind_createObjectURL in Hrun. unfold ret at 1 in Hrun.
      apply IH in Hrun as (new & -> & Hnum & Hun).
      eexists (_ :: new). rewrite <- app_assoc. split; [reflexivity|].
      cbn [map length seq pageNum newPage]. rewrite Hnum.
      split; [reflexivity|]. by constructor.
    + unfold ret at 1 in Hrun. by apply IH in Hrun.
Qed.

(** Whenever the loop of [handlePdf] completes, what it added to
    [extractedPages] are untouched pages whose numbers are among the
    indices it ran over, in their order. *)
Lemma forOf_pdfStep_fulfilled pdf l : forall acc w ps w',
  forOf l acc (pdfStep pdf) w = (Fulfilled ps, w') ->
  exists new,
    ps = (acc ++ new)%list /\
    map pageNum new `sublist_of` l /\
    Forall untouched new.
Proof.
  induction l as [|i l IH]; intros acc w ps w' Hrun.
  - cbn in Hrun. injection Hrun as <- _. exists [].
    rewrite app_nil_r. by repeat split.
  - cbn [forOf] in Hrun. unfold bind at 1 in Hrun.
    unfold pdfStep at 1 in Hrun. unfold bind at 1, await in Hrun.
    destruct (getPage pdf i) as [pg|e]; [|discriminate].
    destruct (getContext2d pg pdfScale).
    + unfold bind at 1 in Hrun.
      destruct (render pg pdfScale) as [d|e]; [|discriminate].
      destruct (toBlob pg pdfScale d "image/png") as [b|].
      * rewrite bind_createObjectURL in Hrun. unfold ret at 1 in Hrun.
        apply IH in Hrun as (new & -> & Hsub & Hun).
        eexists (_ :: new). rewrite <- app_assoc. split; [reflexivity|].
        cbn [map pageNum newPage].
        split; [by apply sublist_skip|]. by constructor.
      * unfold ret at 1 in Hrun.
        apply IH in Hrun as (new & -> & Hsub & Hun).
        exists new. split; [done|]. split; [by apply sublist_cons|done].
    + unfold ret at 1 in Hrun.
      apply IH in Hrun as (new & -> & Hsub & Hun).
      exists new. split; [done|]. split; [by apply sublist_cons|done].
Qed.

Lemma handleCbz_loaded env f w files :
  JSZip_loadAsync env f = Fulfilled files ->
  imageFilesOf files <> [] ->
  handleCbz env f w
  = tryCatch
      (r <- forOf (imageFilesOf files) ([], 1) (cbzStep files) ;;
       write (set_pages r.1) ;; write (set_status St_file_loaded))
      cbzCatch
      (exec (write (set_totalPageCount (length (imageFilesOf files)))) w).
Proof.
  intros Hl Hne. unfold handleCbz, tryCatch, bind at 1, await. rewrite Hl.
  destruct (decide _) as [H0|_]; [by destruct (imageFilesOf files)|].
  by rewrite bind_write.
Qed.

(** [handleCbz] either loads at least one page, all as a run needs them, or
    fails with the message of an unreadable archive and leaves the Page
    Store as it was. *)
Lemma handleCbz_outcome env f w :
  let w' := exec (handleCbz env f) w in
  (status (app w') = St_file_loaded /\ pages (app w') <> [] /\
   startable (pages (app w'))) \/
  (status (app w') = St_error /\ errorMessage (app w') = msg_cbzFailed /\
   pages (app w') = pages (app w)).
Proof.
  cbv zeta. unfold exec.
  destruct (JSZip_loadAsync env f) as [files|e] eqn:Hl.
  2: { rewrite (handleCbz_corrupt _ _ _ _ Hl). right.
       destruct (cbzCatch_run e w) as (Hs & Hm & Hp & _). by repeat split. }
  destruct (decide (imageFilesOf files = [])) as [He|Hne].
  { rewrite (handleCbz_no_images _ _ _ _ Hl He). right.
    destruct (cbzCatch_run (newError msg_cbzNoImages) w) as (Hs & Hm & Hp & _).
    by repeat split. }
  rewrite (handleCbz_loaded _ _ _ _ Hl Hne).
  set (w0 := exec (write (set_totalPageCount (length (imageFilesOf files)))) w).
  pose proof (keepsApp_forOf_cbz files (imageFilesOf files) ([], 1) w0) as Ha.
  assert (Hrun : tryCatch
            (r <- forOf (imageFilesOf files) ([], 1) (cbzStep files) ;;
             write (set_pages r.1) ;; write (set_status St_file_loaded))
            cbzCatch w0
          = match forOf (imageFilesOf files) ([], 1) (cbzStep files) w0 with
            | (Fulfilled r, w1) =>
                (Fulfilled tt,
                 exec (write (set_status St_file_loaded))
                      (exec (write (set_pages r.1)) w1))
            | (Rejected e, w1) => cbzCatch e w1
            end).
  { unfold tryCatch, bind at 1.
    by destruct (forOf (imageFilesOf files) ([], 1) (cbzStep files) w0)
      as [[r|e] w1]. }
  rewrite Hrun. clear Hrun.
  destruct (forOf (imageFilesOf files) ([], 1) (cbzStep files) w0)
    as [[[ps n]|e] w1] eqn:Hrun; cbn [snd] in Ha.
  - left. split; [reflexivity|].
    cbn [fst snd exec write app pages set_status set_pages update_pages].
    split.
    + apply forOf_cbzStep_length in Hrun; [|apply zip_file_imageFilesOf].
      destruct ps; [|done]. destruct (imageFilesOf files); [done|].
      cbn in Hrun. lia.
    + apply forOf_cbzStep_fulfilled in Hrun as (new & -> & Hnum & Hun).
      rewrite app_nil_l. apply untouched_startable; [|exact Hun].
      rewrite Hnum. apply NoDup_seq.
  - right. unfold keepsApp in Ha.
    destruct (cbzCatch_run e w1) as (Hs & Hm & Hp & _). unfold exec in *.
    rewrite Hs, Hm, Hp, Ha. split; [|split]; reflexivity.
Qed.

Lemma pdfCatch_run e w :
  let w' := exec (pdfCatch e) w in
  status (app w') = St_error /\ errorMessage (app w') = msg_pdfFailed /\
  pages (app w') = pages (app w).
Proof. done. Qed.

(** [handlePdf] either loads pages as a run needs them, or fails and leaves
    the Page Store as it was. *)
Lemma handlePdf_outcome env f w :
  let w' := exec (handlePdf env f) w in
  (status (app w') = St_file_loaded /\ startable (pages (app w'))) \/
  (status (app w') = St_error /\ pages (app w') = pages (app w)).
Proof.
  cbv zeta. unfold exec, handlePdf.
  destruct (pdfjsLib env) as [gd|]; [|right; by split].
  set (w0 := exec createObjectURL w).
  assert (Hrun :
    tryCatch
      (_ <- createObjectURL ;; pdf <- await (gd f) ;;
       write (set_totalPageCount (numPages pdf)) ;;
       extractedPages <- forOf (seq 1 (numPages pdf)) [] (pdfStep pdf) ;;
       write (set_pages extractedPages) ;;
       write (set_status St_file_loaded))
      pdfCatch w
    = match gd f with
      | Fulfilled pdf =>
          match forOf (seq 1 (numPages pdf)) [] (pdfStep pdf)
                  (exec (write (set_totalPageCount (numPages pdf))) w0) with
          | (Fulfilled ps, w2) =>
              (Fulfilled tt,
               exec (write (set_status St_file_loaded))
                    (exec (write (set_pages ps)) w2))
          | (Rejected e, w2) => pdfCatch e w2
          end
      | Rejected e => pdfCatch e w0
      end).
  { unfold tryCatch. rewrite bind_createObjectURL.
    unfold bind at 1, await. fold w0.
    destruct (gd f) as [pdf|e]; [|reflexivity].
    rewrite bind_write. unfold bind at 1.
    by destruct (forOf (seq 1 (numPages pdf)) [] (pdfStep pdf) _)
      as [[ps|e] w2]. }
  rewrite Hrun. clear Hrun.
  destruct (gd f) as [pdf|e].
  2: { right. destruct (pdfCatch_run e w0) as (Hs & _ & Hp). by split. }
  pose proof (keepsApp_forOf_pdf pdf (seq 1 (numPages pdf)) []
    (exec (write (set_totalPageCount (numPages pdf))) w0)) as Ha.
  destruct (forOf (seq 1 (numPages pdf)) [] (pdfStep pdf) _)
    as [[ps|e] w2] eqn:Hloop; cbn [snd] in Ha.
  - left. split; [reflexivity|].
    cbn [fst snd exec write app pages set_status set_pages update_pages].
    apply forOf_pdfStep_fulfilled in Hloop as (new & -> & Hsub & Hun).
    rewrite app_nil_l. apply untouched_startable; [|exact Hun].
    eapply sublist_NoDup; [apply NoDup_seq|exact Hsub].
  - right. unfold keepsApp in Ha.
    destruct (pdfCatch_run e w2) as (Hs & _ & Hp). unfold exec in *.
    rewrite Hs, Hp, Ha. by split.
Qed.

(** File ingestion either ends in [file-loaded] with pages as a run needs
    them, or ends in [error] with an empty Page Store; an archive that
    loads has at least one page. *)
Lemma handleFile_outcome env f w :
  let w' := exec (handleFile env f) w in
  (status (app w') = St_file_loaded /\ startable (pages (app w')) /\
   (fileExtensionOf (name f) = Some "cbz" -> pages (app w') <> [])) \/
  (status (app w') = St_error /\ pages (app w') = []).
Proof.
  cbv zeta.
  destruct (decide (fileExtensionOf (name f) = Some "cbz")) as [Hc|Hc].
  { unfold exec. rewrite (handleFile_cbz _ _ _ Hc).
    destruct (handleCbz_outcome env f (exec (prelude f) w))
      as [(Hs & Hp & Hst)|(Hs & _ & Hp)]; [by left|].
    right. split; [exact Hs|]. rewrite prelude_pages in Hp. exact Hp. }
  destruct (decide (fileExtensionOf (name f) = Some "pdf")) as [Hd|Hd].
  { unfold exec. rewrite (handleFile_pdf _ _ _ Hd).
    destruct (handlePdf_outcome env f (exec (prelude f) w))
      as [[Hs Hst]|[Hs Hp]]; [by left|].
    right. split; [exact Hs|]. rewrite prelude_pages in Hp. exact Hp. }
  right. destruct (handleFile_other env f w Hc Hd) as (Hs & _ & Hp).
  by split.
Qed.

(** Whatever file is selected and however reading it goes, the Page Store
    is afterwards one a run can start on. *)
Lemma handleFile_startable env f w :
  startable (pages (app (exec (handleFile env f) w))).
Proof.
  destruct (handleFile_outcome env f w) as [(_ & Hst & _)|[_ Hp]]; [done|].
  rewrite Hp. split; constructor.
Qed.

(** ** translateAll: the loop *)

Lemma mapPageE_withTranslationOf_Some n text ps :
  mapPageE n (withTranslationOf (Some text)) ps
  = Fulfilled (mapPage n (withTranslation (translationLines text)) ps).
Proof.
  unfold mapPage. induction ps as [|p ps IH]; [reflexivity|].
  cbn [mapPageE map]. rewrite IH. by destruct (decide (pageNum p = n)).
Qed.

Lemma mapPageE_withTranslationOf_None n ps :
  n ∈ map pageNum ps ->
  mapPageE n (withTranslationOf None) ps
  = Rejected (typeError msg_splitOfUndefined).
Proof.
  induction ps as [|p ps IH]; intros Hin; [by apply elem_of_nil in Hin|].
  cbn [mapPageE]. destruct (decide (pageNum p = n)) as [He|Hne]; [reflexivity|].
  rewrite IH; [reflexivity|]. cbn [map] in Hin.
  apply elem_of_cons in Hin as [Hin|Hin]; [by destruct Hne|exact Hin].
Qed.

Lemma mapPageE_withTranslationOf_notin n r ps :
  n ∉ map pageNum ps -> mapPageE n (withTranslationOf r) ps = Fulfilled ps.
Proof.
  induction ps as [|p ps IH]; intros Hn; [reflexivity|].
  cbn [map] in Hn. apply not_elem_of_cons in Hn as [Hne Hn].
  cbn [mapPageE]. rewrite decide_False by congruence. by rewrite IH.
Qed.

Lemma map_pageNum_mapPage n f ps :
  (forall p, pageNum (f p) = pageNum p) ->
  map pageNum (mapPage n f ps) = map pageNum ps.
Proof.
  intros Hf. unfold mapPage. rewrite map_map. apply map_ext. intros p.
  by destruct (decide _).
Qed.

Lemma tryUpdate_pages_fulfilled f ps' w :
  f (pages (app w)) = Fulfilled ps' ->
  tryUpdate_pages f w = (Fulfilled tt, exec (write (set_pages ps')) w).
Proof.
  intros Hf. unfold tryUpdate_pages, bind at 1, read.
  unfold bind at 1, await. by rewrite Hf.
Qed.

Lemma tryUpdate_pages_rejected f e w :
  f (pages (app w)) = Rejected e -> tryUpdate_pages f w = (Rejected e, w).
Proof.
  intros Hf. unfold tryUpdate_pages, bind at 1, read.
  unfold bind at 1, await. by rewrite Hf.
Qed.

Section LoopFacts.

Variable env : Env.
Variables (url : string) (mode : TranslationMode).

Lemma call_translateMangaPage_run f w :
  call_translateMangaPage env f url mode w
  = (settled (translateMangaPage (geminiService env) (length (calls w)) f url
                mode),
     exec (call_translateMangaPage env f url mode) w).
Proof. reflexivity. Qed.

(** One iteration, for a page whose number is in the store: the world it
    leaves, according to how the call ended. *)
Lemma translateStep_eq page w :
  pageNum page ∈ map pageNum (pages (app w)) ->
  let n := pageNum page in
  let w2 :=
    exec (call_translateMangaPage env (file page) url mode)
      (exec (write (update_pages (mapPage n markTranslating))) w) in
  translateStep env url mode page tt w
  = (Fulfilled tt,
     match outcome env url mode (length (calls w)) page with
     | Fulfilled text =>
         exec (write (update_translatedPageCount S))
           (exec (write (set_pages
                           (mapPage n (withTranslation (translationLines text))
                              (pages (app w2))))) w2)
     | Rejected e =>
         exec (console_error (label_errorOnPage n) e)
           (exec (write (set_errorMessage (msg_failedOnPage n)))
              (exec (write (update_pages
                              (mapPage n (withError (messageOr e))))) w2))
     end).
Proof.
  intros Hin n w2. unfold translateStep, tryCatch.
  rewrite bind_write. unfold bind at 1.
  rewrite call_translateMangaPage_run. fold n. fold w2.
  assert (Hc : calls (exec (write (update_pages (mapPage n markTranslating))) w)
               = calls w) by reflexivity.
  rewrite Hc. clear Hc. unfold outcome. fold n.
  assert (Hin2 : n ∈ map pageNum (pages (app w2))).
  { assert (Hp2 : pages (app w2) = mapPage n markTranslating (pages (app w)))
      by reflexivity.
    rewrite Hp2, map_pageNum_mapPage; [exact Hin|done]. }
  clearbody w2.
  destruct (settled (translateMangaPage (geminiService env) (length (calls w))
                       (file page) url mode)) as [[text|]|e]; cbn [answerOf].
  - unfold bind at 1.
    rewrite (tryUpdate_pages_fulfilled _ _ _
               (mapPageE_withTranslationOf_Some n text (pages (app w2)))).
    reflexivity.
  - unfold bind at 1.
    rewrite (tryUpdate_pages_rejected _ _ _
               (mapPageE_withTranslationOf_None n (pages (app w2)) Hin2)).
    reflexivity.
  - reflexivity.
Qed.

(** One iteration: the page with the number of [page] is marked and then
    settled; the call is logged; three snapshots go to the history. *)
Lemma translateStep_run page w :
  pageNum page ∈ map pageNum (pages (app w)) ->
  let n := pageNum page in
  let o := outcome env url mode (length (calls w)) page in
  exists w' a1 a2 a3,
    translateStep env url mode page tt w = (Fulfilled tt, w') /\
    calls w' = (calls w ++ [(file page, url, mode)])%list /\
    status (app w') = status (app w) /\
    pages (app w')
      = mapPage n (settle o) (mapPage n markTranslating (pages (app w))) /\
    history w' = (history w ++ [a1; a2; a3])%list /\
    pages a1 = mapPage n markTranslating (pages (app w)) /\
    pages a2 = pages (app w') /\
    pages a3 = pages (app w') /\
    liveUrls w' = liveUrls w.
Proof.
  intros Hin n o. rewrite (translateStep_eq page w Hin). fold n o.
  destruct o as [text|e]; cbn [settle].
  - eexists _, _, _, _. split; [reflexivity|].
    cbn [exec write snd call_translateMangaPage calls app status pages history
         liveUrls set_status set_pages update_pages
         update_translatedPageCount].
    rewrite <- !app_assoc. repeat split.
  - eexists _, _, _, _. split; [reflexivity|].
    cbn [exec write snd call_translateMangaPage console_error calls app status
         pages history liveUrls set_status update_pages set_errorMessage].
    rewrite <- !app_assoc. repeat split.
Qed.

Lemma pageNum_settle o p : pageNum (settle o p) = pageNum p.
Proof. by destruct o. Qed.

Lemma mapPage_mapPage n f g ps :
  (forall p, pageNum (g p) = pageNum p) ->
  mapPage n f (mapPage n g ps)
  = map (fun p => if decide (pageNum p = n) then f (g p) else p) ps.
Proof.
  intros Hg. unfold mapPage. rewrite map_map. apply map_ext. intros p.
  destruct (decide (pageNum p = n)) as [Hn|Hn].
  - rewrite Hg. by destruct (decide _).
  - by destruct (decide _).
Qed.

Lemma pageNum_after l : forall k p, pageNum (after env url mode l k p) = pageNum p.
Proof.
  induction l as [|page l IH]; intros k p; cbn [after]; [done|].
  rewrite IH. destruct (decide _); [|done].
  by rewrite pageNum_settle.
Qed.

Lemma after_other l : forall k p,
  pageNum p ∉ map pageNum l -> after env url mode l k p = p.
Proof.
  induction l as [|page l IH]; intros k p Hn; cbn [after]; [done|].
  cbn [map] in Hn. apply not_elem_of_cons in Hn as [Hne Hn].
  destruct (decide _); [done|]. by apply IH.
Qed.

(** With page numbers that do not repeat, a page of the store is settled
    by the one call made for its number. *)
Lemma after_at l : forall k p j page,
  NoDup (map pageNum l) ->
  l !! j = Some page -> pageNum page = pageNum p ->
  after env url mode l k p = settle (outcome env url mode (k + j) page) (markTranslating p).
Proof.
  induction l as [|pg l IH]; intros k p j page Hnd Hj Hp; [done|].
  cbn [map] in Hnd. apply NoDup_cons in Hnd as [Hnotin Hnd].
  cbn [after]. destruct j as [|j]; cbn in Hj.
  - injection Hj as ->. rewrite Nat.add_0_r.
    destruct (decide _) as [_|Hne]; [|by destruct Hne].
    apply after_other. rewrite pageNum_settle. cbn [pageNum markTranslating].
    by rewrite <- Hp.
  - destruct (decide _) as [He|_].
    + destruct Hnotin. rewrite <- He, <- Hp.
      apply list_elem_of_fmap. exists page. split; [done|].
      by apply list_elem_of_lookup_2 in Hj.
    + rewrite Nat.add_succ_r. by apply (IH (S k)).
Qed.

End LoopFacts.

(** ** The per-page invariants *)

Lemma exactlyOne_iff p :
  exactlyOne p <-> ~ (is_Some (translation p) /\ is_Some (error p)).
Proof.
  unfold exactlyOne.
  destruct (translation p) as [ls|], (error p) as [m|]; split;
    try (intros _; first [by left; eauto | by right; left; eauto | by right; right]).
  - intros [[_ [=]]|[[[=] _]|[[=] _]]].
  - intros H. destruct H. by eauto.
  - intros _ [_ [? [=]]].
  - intros _ [[? [=]] _].
  - intros _ [[? [=]] _].
Qed.

Lemma translatingCount_none ps :
  Forall (fun p => isTranslating p = false) ps -> translatingCount ps = 0.
Proof.
  unfold translatingCount. induction 1 as [|p ps Hp _ IH]; [done|].
  rewrite filter_cons. destruct (decide _) as [Ht|_]; [congruence|done].
Qed.

Lemma mapPage_notin n f ps :
  n ∉ map pageNum ps -> mapPage n f ps = ps.
Proof.
  unfold mapPage. induction ps as [|p ps IH]; [done|].
  cbn [map]. intros [Hne Hn]%not_elem_of_cons.
  destruct (decide _) as [He|_]; [by destruct Hne|]. by rewrite IH.
Qed.

Lemma translatingCount_mark n ps :
  NoDup (map pageNum ps) ->
  Forall (fun p => isTranslating p = false) ps ->
  translatingCount (mapPage n markTranslating ps) <= 1.
Proof.
  induction ps as [|p ps IH]; [by cbn; lia|].
  cbn [map]. intros [Hnotin Hnd]%NoDup_cons [Hp Hps]%Forall_cons.
  unfold translatingCount, mapPage. cbn [map]. rewrite filter_cons.
  destruct (decide (pageNum p = n)) as [He|Hne].
  - subst n. fold (mapPage (pageNum p) markTranslating ps).
    rewrite (mapPage_notin _ _ _ Hnotin).
    pose proof (translatingCount_none _ Hps) as Hz.
    unfold translatingCount in Hz.
    destruct (decide _); cbn [length]; rewrite Hz; lia.
  - destruct (decide _) as [Ht|_]; [congruence|]. by apply IH.
Qed.

Lemma ready_mark env url mode k page l ps :
  ready env url mode k (page :: l) ps ->
  consistent (mapPage (pageNum page) markTranslating ps).
Proof.
  intros (Hnd & _ & Hidle & Hex & _). split.
  - by apply translatingCount_mark.
  - unfold mapPage. apply Forall_fmap. eapply Forall_impl; [exact Hex|].
    intros p Hp. cbn. destruct (decide _); [|done].
    unfold exactlyOne. cbn. destruct (translation p); eauto.
Qed.

Lemma ready_settle env url mode k page l ps :
  ready env url mode k (page :: l) ps ->
  let o := outcome env url mode k page in
  let ps' := map (fun p => if decide (pageNum p = pageNum page)
                           then settle o (markTranslating p) else p) ps in
  consistent ps' /\ ready env url mode (S k) l ps'.
Proof.
  intros (Hnd & Hndl & Hidle & Hex & Hnone) o ps'.
  cbn [map] in Hndl. apply NoDup_cons in Hndl as [Hnotin Hndl].
  assert (Hnum : map pageNum ps' = map pageNum ps).
  { unfold ps'. rewrite map_map. apply map_ext. intros p.
    destruct (decide _); [|done]. by rewrite pageNum_settle. }
  assert (Hidle' : Forall (fun p => isTranslating p = false) ps').
  { unfold ps'. apply Forall_fmap. eapply Forall_impl; [exact Hidle|].
    intros p Hp. cbn. destruct (decide _); [|done]. by destruct o. }
  assert (Hex' : Forall exactlyOne ps').
  { unfold ps'. apply Forall_fmap. apply Forall_forall. intros p Hin. cbn.
    rewrite Forall_forall in Hex.
    destruct (decide _) as [He|_]; [|by apply Hex].
    unfold exactlyOne. destruct o as [t|e] eqn:Ho; cbn.
    - left. eauto.
    - right. left. split; [|eauto].
      apply (Hnone 0 page p); [done| |done|done].
      rewrite Nat.add_0_r. fold o. rewrite Ho. by eexists. }
  split; [split; [by rewrite translatingCount_none; [lia|]|done]|].
  split; [by rewrite Hnum|]. split; [done|]. split; [done|]. split; [done|].
  intros j pg q Hj Hrej Hq Hqn. unfold ps' in Hq.
  apply list_elem_of_fmap in Hq as (p & -> & Hp).
  destruct (decide _) as [He|_].
  - destruct Hnotin. rewrite pageNum_settle in Hqn. cbn in Hqn.
    rewrite <- He, Hqn. apply list_elem_of_fmap. exists pg.
    split; [done|]. by apply list_elem_of_lookup_2 in Hj.
  - apply (Hnone (S j) pg p); [done| |done|done].
    by rewrite Nat.add_succ_r.
Qed.

Section Run.

Variable env : Env.

Lemma forOf_translateStep url mode l : forall w,
  Forall (fun page => pageNum page ∈ map pageNum (pages (app w))) l ->
  exists w' hs,
    forOf l tt (translateStep env url mode) w = (Fulfilled tt, w') /\
    calls w' = (calls w ++ map (fun p => (file p, url, mode)) l)%list /\
    status (app w') = status (app w) /\
    pages (app w')
      = map (after env url mode l (length (calls w))) (pages (app w)) /\
    history w' = (history w ++ hs)%list /\
    (ready env url mode (length (calls w)) l (pages (app w)) ->
       Forall (fun a => consistent (pages a)) hs /\
       ready env url mode (length (calls w')) [] (pages (app w'))).
Proof.
  induction l as [|page l IH]; intros w Hl.
  - exists w, []. cbn [forOf ret map after]. rewrite !app_nil_r, map_id.
    do 5 (split; [reflexivity|]). intros H. split; [apply Forall_nil_2|exact H].
  - apply Forall_cons in Hl as [Hin Hl].
    destruct (translateStep_run env url mode page w Hin)
      as (w1 & a1 & a2 & a3 & Hrun & Hc & Hst & Hp & Hh & Hp1 & Hp2 & Hp3 & _).
    assert (Hl1 : Forall (fun page => pageNum page ∈ map pageNum (pages (app w1)))
                    l).
    { rewrite Hp, !map_pageNum_mapPage; [exact Hl|done|].
      intros p. apply pageNum_settle. }
    destruct (IH w1 Hl1) as (w' & hs & Hrun' & Hc' & Hst' & Hp' & Hh' & Hcons).
    exists w', ([a1; a2; a3] ++ hs)%list.
    cbn [forOf]. unfold bind at 1. rewrite Hrun.
    split; [exact Hrun'|].
    rewrite mapPage_mapPage in Hp by done.
    split; [by rewrite Hc', Hc, <- app_assoc|].
    split; [by rewrite Hst'|].
    split.
    { rewrite Hp', Hp, Hc, length_app, map_map. cbn [length].
      rewrite Nat.add_1_r. reflexivity. }
    split; [by rewrite Hh', Hh, <- app_assoc|].
    intros Hready.
    destruct (ready_settle env url mode (length (calls w)) page l
                (pages (app w)) Hready)
      as [Hcs Hready'].
    cbv zeta in Hcs, Hready'. rewrite <- Hp in Hcs, Hready'.
    assert (Hk : length (calls w1) = S (length (calls w))).
    { rewrite Hc, length_app. cbn [length]. by rewrite Nat.add_1_r. }
    rewrite <- Hk in Hready'.
    destruct (Hcons Hready') as [Hhs Hfin]. split; [|exact Hfin].
    repeat apply Forall_cons_2.
    + rewrite Hp1.
      by apply (ready_mark env url mode (length (calls w)) page l).
    + by rewrite Hp2.
    + by rewrite Hp3.
    + exact Hhs.
Qed.

Lemma ready_consistent url mode k l ps :
  ready env url mode k l ps -> consistent ps.
Proof.
  intros (_ & _ & Hidle & Hex & _). split; [|done].
  rewrite translatingCount_none by done. lia.
Qed.

Lemma translateAll_met w :
  firstUnmet env (app w) = None ->
  translateAll env w
  = (forOf (pages (app w)) tt
       (translateStep env (Js.trim (wikiUrl (app w)))
          (translationMode (app w))) ;;
     write (set_status St_success)) (exec begin w).
Proof.
  intros Hg. unfold firstUnmet, guardMet in Hg.
  destruct (length (pages (app w)) =? 0)%nat eqn:H0; [done|].
  cbn [negb] in Hg.
  destruct (Js.truthy (Js.trim (wikiUrl (app w)))) eqn:Hu; [|done].
  destruct (Js.truthy (apiKeySignal (geminiService env))) eqn:Hk; [|done].
  apply Nat.eqb_neq in H0.
  unfold translateAll. unfold bind at 1 2 3, read. cbn [fst snd].
  destruct (decide _) as [?|_]; [done|].
  rewrite Hu, Hk. cbn [negb].
  reflexivity.
Qed.

Lemma begin_history w :
  history (exec begin w)
  = (history w ++
     [set_status St_translating (app w);
      set_translatedPageCount 0 (set_status St_translating (app w));
      set_errorMessage ""
        (set_translatedPageCount 0 (set_status St_translating (app w)))])%list.
Proof. cbn. by rewrite <- !app_assoc. Qed.

(** A run whose guards hold: every page is attempted in turn, whatever
    becomes of the calls, and the status ends as [success]. *)
Lemma translateAll_run w :
  let url := Js.trim (wikiUrl (app w)) in
  let mode := translationMode (app w) in
  let ps := pages (app w) in
  firstUnmet env (app w) = None ->
  exists w' hs,
    translateAll env w = (Fulfilled tt, w') /\
    status (app w') = St_success /\
    pages (app w') = map (after env url mode ps (length (calls w))) ps /\
    calls w' = (calls w ++ map (fun p => (file p, url, mode)) ps)%list /\
    history w' = (history w ++ hs)%list /\
    (ready env url mode (length (calls w)) ps ps ->
       Forall (fun a => consistent (pages a)) hs).
Proof.
  intros url mode ps Hg. rewrite (translateAll_met w Hg).
  destruct (forOf_translateStep url mode ps (exec begin w))
    as (w1 & hs & Hrun & Hc & Hst & Hp & Hh & Hcons).
  { apply Forall_forall. intros page Hin. apply list_elem_of_fmap.
    by exists page. }
  change (pages (app (exec begin w))) with ps in Hp, Hcons.
  change (calls (exec begin w)) with (calls w) in Hp, Hc.
  rewrite begin_history in Hh.
  exists (exec (write (set_status St_success)) w1),
    ([set_status St_translating (app w);
      set_translatedPageCount 0 (set_status St_translating (app w));
      set_errorMessage ""
        (set_translatedPageCount 0 (set_status St_translating (app w)))]
     ++ hs ++ [set_status St_success (app w1)])%list.
  fold url mode ps.
  unfold bind at 1. rewrite Hrun.
  split; [reflexivity|].
  cbn [exec write snd app status pages calls history set_status].
  split; [reflexivity|]. split; [exact Hp|]. split; [exact Hc|].
  split; [by rewrite Hh, <- !app_assoc|].
  intros Hready.
  pose proof (ready_consistent _ _ _ _ _ Hready) as Hps.
  destruct (Hcons Hready) as [Hhs Hfin].
  apply Forall_app. split; [by repeat apply Forall_cons_2|].
  apply Forall_app. split; [exact Hhs|].
  apply Forall_cons_2; [|constructor].
  cbn [pages set_status].
  by apply (ready_consistent url mode (length (calls w1)) []).
Qed.

End Run.

(** ** translateAll: a run with one failing page *)

Lemma settle_rejected o p :
  rejects o -> translation p = None ->
  is_Some (error (settle o (markTranslating p))) /\
  translation (settle o (markTranslating p)) = None.
Proof. intros [e ->] Hp. cbn. split; [by eauto|done]. Qed.

Lemma settle_fulfilled o p :
  fulfils o ->
  is_Some (translation (settle o (markTranslating p))) /\
  error (settle o (markTranslating p)) = None.
Proof. intros [t ->]. cbn. split; [by eauto|done]. Qed.

(** What [translateAll] does with an iteration that fails. A run over pages
    numbered 1..[n], none translated yet, whose guards hold, in which the
    call made for page [i] takes the iteration to its [catch] block and
    every other call ends with text: the run completes with status
    [success], all [n] calls are made, the pages keep their numbers, page
    [i] has an error and no lines, every other page has lines and no
    error. *)
Theorem translateAll_one_failure (env : Env) (w : World) (i : nat) :
  let ps := pages (app w) in
  let n := length ps in
  let url := Js.trim (wikiUrl (app w)) in
  let mode := translationMode (app w) in
  map pageNum ps = seq 1 n ->
  Forall (fun p => translation p = None) ps ->
  url <> "" ->
  apiKeySignal (geminiService env) <> "" ->
  1 <= i <= n ->
  (forall j p, ps !! j = Some p ->
     let o := outcome env url mode (length (calls w) + j) p in
     (pageNum p = i -> rejects o) /\ (pageNum p <> i -> fulfils o)) ->
  let w' := exec (translateAll env) w in
  (translateAll env w).1 = Fulfilled tt /\
  status (app w') = St_success /\
  length (calls w') = length (calls w) + n /\
  map pageNum (pages (app w')) = seq 1 n /\
  (forall p, p ∈ pages (app w') ->
     (pageNum p = i -> is_Some (error p) /\ translation p = None) /\
     (pageNum p <> i -> is_Some (translation p) /\ error p = None)).
Proof.
  intros ps n url mode Hnum Hnone Hurl Hkey Hi Hcalls w'.
  assert (Hg : firstUnmet env (app w) = None).
  { unfold firstUnmet, guardMet. fold ps n url.
    destruct n as [|n'] eqn:Hn; [lia|]. cbn [Nat.eqb negb].
    destruct url; [done|]. cbn [Js.truthy negb].
    by destruct (apiKeySignal (geminiService env)). }
  destruct (translateAll_run env w Hg)
    as (w1 & hs & Hrun & Hst & Hp & Hc & _).
  fold ps url mode in Hp, Hc.
  unfold w', exec. rewrite Hrun. cbn [fst snd].
  assert (Hnd : NoDup (map pageNum ps)).
  { rewrite Hnum. apply NoDup_seq. }
  split; [reflexivity|]. split; [exact Hst|].
  split; [by rewrite Hc, length_app, length_map|].
  split.
  { rewrite Hp, map_map, <- Hnum. apply map_ext. intros p.
    apply pageNum_after. }
  intros q Hq. rewrite Hp in Hq.
  apply list_elem_of_fmap in Hq as (p & -> & Hin).
  apply list_elem_of_lookup in Hin as [j Hj].
  rewrite (after_at env url mode ps (length (calls w)) p j p Hnd Hj eq_refl).
  rewrite pageNum_settle. cbn [pageNum markTranslating].
  destruct (Hcalls j p Hj) as [Hrej Hful]. split.
  - intros Hpi. apply settle_rejected; [by apply Hrej|].
    rewrite Forall_forall in Hnone. apply Hnone.
    by apply list_elem_of_lookup_2 in Hj.
  - intros Hpi. apply settle_fulfilled. by apply Hful.
Qed.

Lemma translateAll_one_failure_witness :
  let w' := exec (translateAll (envOf (failingAt 1))) session3 in
  status (app w') = St_success /\
  length (calls w') = 3 /\
  map pageNum (pages (app w')) = [1; 2; 3].
Proof.
  destruct (translateAll_one_failure (envOf (failingAt 1)) session3 2)
    as (_ & Hst & Hc & Hnum & _).
  - reflexivity.
  - repeat constructor.
  - by vm_compute.
  - discriminate.
  - cbn. lia.
  - intros j p Hj.
    destruct j as [|[|[|j]]]; cbn in Hj; try discriminate;
      injection Hj as <-; cbn; split; intros H; try done;
      eexists; reflexivity.
  - split; [exact Hst|]. split; [exact Hc|exact Hnum].
Defined.

Example translateAll_one_failure_pages :
  map (fun p => (pageNum p, translation p, error p))
      (pages (app (exec (translateAll (envOf (failingAt 1))) session3)))
  = [(1, Some ["English: Hi"], None);
     (2, None, Some "quota exceeded");
     (3, Some ["English: Hi"], None)].
Proof. by vm_compute. Qed.

(** ** translateAll: the invariants at every point of a run *)





(** The same with the service as [GeminiService] builds it, when the
    response to the call for page 2 of the second run has no text. *)
Example translateAll_rerun_response_without_text :
  let env := envOf (GeminiService.client
                      (GeminiService.new (Some "key") (sdkSilentAt 4))) in
  let w2 := exec (translateAll env) (exec (translateAll env) session3) in
  map (fun p => (pageNum p, translation p, error p)) (pages (app w2))
  = [(1, Some ["English: Hi"], None);
     (2, Some ["English: Hi"],
         Some "Cannot read properties of undefined (reading 'split')");
     (3, Some ["English: Hi"], None)].
Proof. by vm_compute. Qed.

Example translateAll_history_counts :
  map (fun a => translatingCount (pages a))
      (history (exec (translateAll (envOf (failingAt 1))) session3))
  = [0; 0; 0; 1; 0; 0; 1; 0; 0; 1; 0; 0; 0].
Proof. by vm_compute. Qed.

(** ** GeminiService.translateMangaPage *)

Lemma new_initialized apiKey sdk :
  GeminiService.genAI (GeminiService.new apiKey sdk) = None <->
  GeminiService.apiKeySignal (GeminiService.new apiKey sdk) = "".
Proof.
  unfold GeminiService.new. destruct apiKey as [[|c k]|]; cbn; split; done.
Qed.

(** The two failure texts differ, whatever the underlying message. *)
Lemma msg_invalidKey_distinct e :
  GeminiService.msg_invalidKey <> GeminiService.msg_failed e.
Proof. unfold GeminiService.msg_failed. discriminate. Qed.

(** Without an API key in the environment the call throws. *)
Example translateMangaPage_throws_uninitialized :
  settled
    (GeminiService.translateMangaPage (GeminiService.new None sdkOk) 0
       (file page1) "https://en.wikipedia.org/wiki/One_Piece" Mode_in_depth)
  = Rejected (newError GeminiService.msg_notInitialized).
Proof. reflexivity. Qed.

(** With a client, the answer of the backing service is passed on as it
    is, text or no text, and nothing is printed. *)
Lemma translateMangaPage_sdk_fulfilled this k imageFile wikiUrl mode ai text :
  GeminiService.genAI this = Some ai ->
  generateContent ai k (GeminiService.request imageFile wikiUrl mode)
  = Fulfilled text ->
  GeminiService.translateMangaPage this k imageFile wikiUrl mode
  = {| logged := []; settled := Fulfilled text |}.
Proof.
  intros Hai Hsdk. unfold GeminiService.translateMangaPage.
  by rewrite Hai, Hsdk.
Qed.

(** With a client, an error of the backing service is printed to the
    console and the promise is fulfilled with the failure text. *)
Lemma translateMangaPage_sdk_rejected this k imageFile wikiUrl mode ai e :
  GeminiService.genAI this = Some ai ->
  generateContent ai k (GeminiService.request imageFile wikiUrl mode)
  = Rejected e ->
  GeminiService.translateMangaPage this k imageFile wikiUrl mode
  = {| logged := [("Error translating manga page:", e)];
       settled := Fulfilled (Some (failureText e)) |}.
Proof.
  intros Hai Hsdk. unfold GeminiService.translateMangaPage, failureText.
  rewrite Hai, Hsdk. by destruct (Js.includes _ _).
Qed.

(** C2, at two calls whose request the backing service rejects, one with a
    server error and one with the error of a key it does not accept.  The
    promise of [translateMangaPage] is fulfilled, not rejected, and what it
    is fulfilled with is a string: the caller gets the same value as from a
    call that the backing service answered with that very text, and reads
    lines out of it.  There is no failure value apart from the text. *)
Theorem translateMangaPage_failure_is_ordinary_text :
  let call sdk :=
    GeminiService.translateMangaPage (GeminiService.new (Some "key") sdk) 0
      (file page1) "https://en.wikipedia.org/wiki/One_Piece" Mode_in_depth in
  let generic :=
    "Translation failed. Please check the console for details. Error: 503 Service Unavailable" in
  settled (call (sdkFailingAt 0)) = Fulfilled (Some generic) /\
  settled (call (sdkFailingAt 0))
  = settled (call (sdkAnswering (Some generic))) /\
  translationLinesOf (Some generic) = Fulfilled [generic] /\
  settled (call sdkInvalidKey) = Fulfilled (Some GeminiService.msg_invalidKey) /\
  settled (call sdkInvalidKey)
  = settled (call (sdkAnswering (Some GeminiService.msg_invalidKey))) /\
  translationLinesOf (Some GeminiService.msg_invalidKey)
  = Fulfilled [GeminiService.msg_invalidKey].
Proof.
  cbv zeta.
  split; [reflexivity|]. split; [reflexivity|]. split; [by vm_compute|].
  split; [reflexivity|]. split; [reflexivity|]. by vm_compute.
Qed.

(** ** translateAll with GeminiService *)

(** A run passes its guards only on a service that has a client. *)
Lemma guarded_initialized env a apiKey sdk :
  geminiService env = GeminiService.client (GeminiService.new apiKey sdk) ->
  firstUnmet env a = None ->
  exists ai, GeminiService.genAI (GeminiService.new apiKey sdk) = Some ai.
Proof.
  intros Hsvc Hg.
  destruct (GeminiService.genAI (GeminiService.new apiKey sdk)) eqn:Hn;
    [by eauto|].
  apply new_initialized in Hn.
  unfold firstUnmet, guardMet in Hg.
  destruct (negb _); [done|]. destruct (negb _); [done|].
  rewrite Hsvc in Hg. cbn [GeminiService.client apiKeySignal] in Hg.
  rewrite Hn in Hg. done.
Qed.

(** A second run over the pages of a finished run. *)
Example translateAll_twice :
  let env := envOf (GeminiService.client
                      (GeminiService.new (Some "key") (sdkFailingAt 4))) in
  let w2 := exec (translateAll env) (exec (translateAll env) session3) in
  map (fun a => translatingCount (pages a)) (history w2)
  = [0; 0; 0; 1; 0; 0; 1; 0; 0; 1; 0; 0; 0;
     0; 0; 0; 1; 0; 0; 1; 0; 0; 1; 0; 0; 0] /\
  map (fun p => (pageNum p, error p)) (pages (app w2))
  = [(1, None); (2, None); (3, None)].
Proof. cbv zeta. split; by vm_compute. Qed.

(** C1, at a run of three pages in which the backing service fails on the
    call for page 2: the service returns the failure as text, so the run
    records that text as the lines of page 2, sets no error on it and
    counts it as translated. *)
Theorem translateAll_service_failure_becomes_lines :
  let svc := GeminiService.new (Some "key") (sdkFailingAt 1) in
  let w' := exec (translateAll (envOf (GeminiService.client svc))) session3 in
  status (app w') = St_success /\
  map (fun p => (pageNum p, translation p, error p)) (pages (app w'))
  = [(1, Some ["English: Hi"], None);
     (2, Some ["Translation failed. Please check the console for details. Error: 503 Service Unavailable"],
         None);
     (3, Some ["English: Hi"], None)] /\
  translatedPageCount (app w') = 3 /\
  errorMessage (app w') = "".
Proof.
  cbv zeta. split; [by vm_compute|]. split; [by vm_compute|].
  split; by vm_compute.
Qed.

(** ** Strings: [trim] and [split] *)

Lemma trimStart_blank s : Js.trimStart s = "" <-> isBlank s = true.
Proof.
  induction s as [|c s IH]; [done|]. cbn [Js.trimStart isBlank].
  destruct (Js.isWhiteSpace c); cbn [andb]; [exact IH|]. split; discriminate.
Qed.

Lemma isBlank_rev_app s1 s2 :
  isBlank (String.rev_app s1 s2) = isBlank s1 && isBlank s2.
Proof.
  revert s2. induction s1 as [|c s1 IH]; intros s2; [done|].
  cbn [String.rev_app isBlank]. rewrite IH. cbn [isBlank].
  by destruct (Js.isWhiteSpace c), (isBlank s1), (isBlank s2).
Qed.

Lemma isBlank_rev s : isBlank (String.rev s) = isBlank s.
Proof. unfold String.rev. rewrite isBlank_rev_app. cbn. by rewrite andb_true_r. Qed.

Lemma rev_app_empty s1 s2 : String.rev_app s1 s2 = "" -> s1 = "" /\ s2 = "".
Proof.
  revert s2. induction s1 as [|c s1 IH]; intros s2; [done|].
  cbn [String.rev_app]. intros H. by destruct (IH _ H) as [_ [=]].
Qed.

(** A string that [trimStart] leaves is empty or starts with a code unit
    that is not white space. *)
Lemma trimStart_head s :
  match Js.trimStart s with
  | EmptyString => True
  | String c _ => Js.isWhiteSpace c = false
  end.
Proof.
  induction s as [|c s IH]; [done|]. cbn [Js.trimStart].
  by destruct (Js.isWhiteSpace c) eqn:Hc.
Qed.

Lemma trim_empty_iff_blank s : Js.trim s = "" <-> isBlank s = true.
Proof.
  unfold Js.trim, Js.trimEnd. split.
  - intros H. apply rev_app_empty in H as [H _].
    apply trimStart_blank in H. rewrite isBlank_rev in H.
    pose proof (trimStart_head s) as Hh.
    destruct (Js.trimStart s) as [|c t] eqn:Ht; [by apply trimStart_blank|].
    cbn [isBlank] in H. by rewrite Hh in H.
  - intros H. apply trimStart_blank in H. by rewrite H.
Qed.
Lemma split_cons_form sep s : exists h t, Js.split sep s = h :: t.
Proof.
  induction s as [|a s (h & t & IH)]; [by eexists _, _|].
  cbn [Js.split]. rewrite IH. destruct (Ascii.eqb a sep); by eexists _, _.
Qed.

Lemma join_cons_cons sep s h t :
  join sep (s :: h :: t) = s ++ String sep (join sep (h :: t)).
Proof. reflexivity. Qed.

(** [split] loses nothing: joining the pieces with the separator gives the
    string back. *)
Lemma join_split sep s : join sep (Js.split sep s) = s.
Proof.
  induction s as [|a s IH]; [done|]. cbn [Js.split].
  destruct (split_cons_form sep s) as (h & t & Hs). rewrite Hs in *.
  destruct (Ascii.eqb a sep) eqn:Ha.
  - apply Ascii.eqb_eq in Ha as ->. by rewrite join_cons_cons, IH.
  - destruct t as [|h' t].
    + cbn [join] in *. by rewrite IH.
    + rewrite join_cons_cons in *. by rewrite append_cons, IH.
Qed.

(** No piece contains the separator. *)
Lemma split_no_sep sep s :
  Forall (fun piece => hasChar sep piece = false) (Js.split sep s).
Proof.
  induction s as [|a s IH]; [by repeat constructor|]. cbn [Js.split].
  destruct (split_cons_form sep s) as (h & t & Hs). rewrite Hs in *.
  apply Forall_cons in IH as [Hh Ht].
  destruct (Ascii.eqb a sep) eqn:Ha.
  - by repeat constructor.
  - constructor; [|done]. cbn [hasChar]. by rewrite Ha, Hh.
Qed.

(** X1: [translationLines]. The lines kept of a response are exactly the
    pieces between its line breaks that are not blank (a blank piece is
    empty or made of white space only), each as often and in the order it
    occurs; no piece contains a line break, and the pieces joined with line
    breaks are the response. *)
Theorem translationLines_nonblank_pieces (resultText : string) :
  translationLines resultText
  = filter (fun piece => isBlank piece = false)
           (Js.split newline resultText) /\
  Forall (fun piece => hasChar newline piece = false)
         (Js.split newline resultText) /\
  join newline (Js.split newline resultText) = resultText.
Proof.
  unfold translationLines. split; [|split].
  - apply list_filter_iff. intros piece. split.
    + intros Ht. destruct (isBlank piece) eqn:H; [|done].
      by apply trim_empty_iff_blank in H.
    + intros Hb H%trim_empty_iff_blank. congruence.
  - apply split_no_sep.
  - apply join_split.
Qed.

Example translationLines_example :
  translationLines
    (String "E" (String newline (String " " (String newline (String newline "V")))))
  = ["E"; "V"].
Proof. reflexivity. Qed.
(** ** The extension of an image name *)

Lemma elem_of_allChars c : c ∈ allChars.
Proof.
  unfold allChars. apply list_elem_of_fmap. exists (nat_of_ascii c).
  split; [by rewrite ascii_nat_embedding|].
  apply elem_of_seq. pose proof (nat_ascii_bounded c). lia.
Qed.

(** A property of code units that holds of each of the 256. *)
Lemma forall_chars (P : ascii -> bool) :
  forallb P allChars = true -> forall c, P c = true.
Proof.
  intros H c. rewrite forallb_forall in H. apply H.
  apply list_elem_of_In, elem_of_allChars.
Qed.

Lemma canonicalize_dot a :
  Ascii.eqb (Js.canonicalize a) (Js.canonicalize ".") = true -> a = "."%char.
Proof.
  intros H. apply Ascii.eqb_eq.
  revert H. generalize a.
  assert (Hall : forall c,
    implb (Ascii.eqb (Js.canonicalize c) (Js.canonicalize "."))
          (Ascii.eqb c ".") = true).
  { apply forall_chars. by vm_compute. }
  intros c Hc. specialize (Hall c). by rewrite Hc in Hall.
Qed.

Lemma canonicalize_lower a b :
  isLowerLetter b = true ->
  Ascii.eqb (Js.canonicalize a) (Js.canonicalize b) = true ->
  Js.lowerChar a = b.
Proof.
  intros Hb Hab. apply Ascii.eqb_eq.
  assert (Hall : forall d,
    forallb (fun c =>
      implb (isLowerLetter d &&
             Ascii.eqb (Js.canonicalize c) (Js.canonicalize d))
            (Ascii.eqb (Js.lowerChar c) d)) allChars = true).
  { apply (forall_chars (fun d => forallb (fun c =>
      implb (isLowerLetter d &&
             Ascii.eqb (Js.canonicalize c) (Js.canonicalize d))
            (Ascii.eqb (Js.lowerChar c) d)) allChars)).
    by vm_compute. }
  pose proof (forall_chars _ (Hall b) a) as H. cbv beta in H.
  by rewrite Hb, Hab in H.
Qed.

Lemma lowerChar_dot c : Js.lowerChar c = "."%char <-> c = "."%char.
Proof.
  assert (Hall : forall c,
    Bool.eqb (Ascii.eqb (Js.lowerChar c) ".") (Ascii.eqb c ".") = true).
  { apply forall_chars. by vm_compute. }
  specialize (Hall c). apply Bool.eqb_prop in Hall.
  rewrite <- !Ascii.eqb_eq. by rewrite Hall.
Qed.

Lemma hasChar_dot_toLowerCase s :
  hasChar "." (Js.toLowerCase s) = hasChar "." s.
Proof.
  induction s as [|c s IH]; [done|]. cbn [Js.toLowerCase hasChar].
  rewrite IH. f_equal.
  destruct (Ascii.eqb c ".") eqn:Hc.
  - apply Ascii.eqb_eq in Hc as ->. reflexivity.
  - apply Ascii.eqb_neq. apply Ascii.eqb_neq in Hc.
    by rewrite lowerChar_dot.
Qed.

Lemma split_dot_free s : hasChar "." s = false -> Js.split "." s = [s].
Proof.
  induction s as [|c s IH]; [done|]. cbn [hasChar Js.split].
  intros [Hc Hs]%orb_false_iff. rewrite Hc, (IH Hs). reflexivity.
Qed.

(** Equal up to letter case to a word of lower-case letters: lower-casing
    gives the word. *)
Lemma eqbCI_lower e : forall lit,
  isLowerWord lit = true -> Js.eqbCI e lit = true -> Js.toLowerCase e = lit.
Proof.
  induction e as [|a e IH]; intros [|b lit] Hl He; try done.
  cbn [isLowerWord Js.eqbCI Js.toLowerCase] in *.
  apply andb_true_iff in Hl as [Hb Hl]. apply andb_true_iff in He as [Hab He].
  by rewrite (canonicalize_lower a b Hb Hab), (IH lit Hl He).
Qed.

Lemma substring_split m : forall s,
  m <= String.length s ->
  String.substring 0 m s ++ String.substring m (String.length s - m) s = s.
Proof.
  induction m as [|m IH]; intros s Hm.
  - rewrite Nat.sub_0_r. destruct s as [|c s]; [done|].
    cbn [String.substring String.length]. rewrite append_nil. f_equal.
    clear. induction s as [|a s IH]; [done|].
    cbn [String.substring String.length]. by rewrite IH.
  - destruct s as [|c s]; [cbn in Hm; lia|].
    cbn [String.substring String.length] in *. rewrite append_cons.
    rewrite Nat.sub_succ. f_equal. apply IH. lia.
Qed.

(** A name that ends with a dot and a word of lower-case letters, letter
    case ignored, has that word as its lower-cased extension. *)
Lemma endsWithCI_extension n x :
  isLowerWord x = true ->
  Js.endsWithCI n (String "." x) = true ->
  Js.toLowerCase <$> Js.pop (Js.split "." n) = Some x.
Proof.
  intros Hx [Hlen He]%andb_true_iff. apply Nat.leb_le in Hlen.
  set (k := String.length (String "." x)) in *.
  set (m := String.length n - k) in *.
  pose proof (substring_split m n ltac:(lia)) as Hn.
  replace (String.length n - m) with k in Hn by lia.
  destruct (String.substring m k n) as [|c e]; [done|].
  cbn [Js.eqbCI] in He. apply andb_true_iff in He as [Hc He].
  apply canonicalize_dot in Hc as ->.
  pose proof (eqbCI_lower e x Hx He) as Hlow.
  assert (Hfree : hasChar "." e = false).
  { rewrite <- hasChar_dot_toLowerCase, Hlow. clear -Hx.
    induction x as [|b x IH]; [done|]. cbn [isLowerWord hasChar] in *.
    apply andb_true_iff in Hx as [Hb Hx]. rewrite (IH Hx), orb_false_r.
    apply Ascii.eqb_neq. intros ->. discriminate. }
  rewrite <- Hn.
  change (String "." e) with ("." ++ e).
  rewrite (pop_split_dot_tail _ e (split_dot_free e Hfree)).
  cbn [fmap option_fmap option_map]. by rewrite Hlow.
Qed.
Lemma getImageMimeType_by_extension (n : string) :
  (Js.endsWithCI n ".jpg" = true -> getImageMimeType n = "image/jpeg") /\
  (Js.endsWithCI n ".jpeg" = true -> getImageMimeType n = "image/jpeg") /\
  (Js.endsWithCI n ".png" = true -> getImageMimeType n = "image/png") /\
  (Js.endsWithCI n ".gif" = true -> getImageMimeType n = "image/gif") /\
  (Js.endsWithCI n ".webp" = true -> getImageMimeType n = "image/webp").
Proof.
  split; [|split; [|split; [|split]]]; intros H; unfold getImageMimeType.
  - by rewrite (endsWithCI_extension n "jpg" eq_refl H).
  - by rewrite (endsWithCI_extension n "jpeg" eq_refl H).
  - by rewrite (endsWithCI_extension n "png" eq_refl H).
  - by rewrite (endsWithCI_extension n "gif" eq_refl H).
  - by rewrite (endsWithCI_extension n "webp" eq_refl H).
Qed.

Lemma getImageMimeType_imageTypes (n : string) :
  imageNameRegex n = true -> getImageMimeType n ∈ imageTypes.
Proof.
  intros Hre.
  destruct (getImageMimeType_by_extension n) as (H1 & H2 & H3 & H4 & H5).
  unfold imageNameRegex in Hre. unfold imageTypes.
  repeat (apply orb_true_iff in Hre as [Hre|Hre]).
  - rewrite (H1 Hre). set_solver.
  - rewrite (H2 Hre). set_solver.
  - rewrite (H3 Hre). set_solver.
  - rewrite (H4 Hre). set_solver.
  - rewrite (H5 Hre). set_solver.
Qed.

(** X2: [getImageMimeType] on the names [handleCbz] keeps. A name that
    passes the filter of [handleCbz] gets the MIME type of its extension,
    never the fallback [application/octet-stream]. *)
Theorem getImageMimeType_of_image_name (n : string) :
  imageNameRegex n = true ->
  getImageMimeType n ∈ imageTypes /\
  getImageMimeType n <> "application/octet-stream" /\
  (Js.endsWithCI n ".jpg" = true -> getImageMimeType n = "image/jpeg") /\
  (Js.endsWithCI n ".jpeg" = true -> getImageMimeType n = "image/jpeg") /\
  (Js.endsWithCI n ".png" = true -> getImageMimeType n = "image/png") /\
  (Js.endsWithCI n ".gif" = true -> getImageMimeType n = "image/gif") /\
  (Js.endsWithCI n ".webp" = true -> getImageMimeType n = "image/webp").
Proof.
  intros Hre. pose proof (getImageMimeType_imageTypes n Hre) as Hin.
  split; [exact Hin|]. split; [|apply getImageMimeType_by_extension].
  intros Heq. rewrite Heq in Hin. unfold imageTypes in Hin.
  repeat (apply elem_of_cons in Hin as [Hin|Hin]; [discriminate Hin|]).
  by apply elem_of_nil in Hin.
Qed.

Lemma getImageMimeType_of_image_name_witness :
  getImageMimeType "ch1/Cover.JPeG" = "image/jpeg".
Proof.
  destruct (getImageMimeType_of_image_name "ch1/Cover.JPeG" eq_refl)
    as (_ & _ & _ & H & _).
  exact (H eq_refl).
Defined.
(** ** Ingestion, case by case *)

(** [handleCbz] as the cases its [try] block goes through. *)
Lemma handleCbz_eq env f w :
  handleCbz env f w =
  match JSZip_loadAsync env f with
  | Rejected e => cbzCatch e w
  | Fulfilled files =>
      if decide (imageFilesOf files = [])
      then cbzCatch (newError msg_cbzNoImages) w
      else
        match forOf (imageFilesOf files) ([], 1) (cbzStep files)
                (cbzLoopStart files w) with
        | (Fulfilled r, w1) => (Fulfilled tt, loadedWith r.1 w1)
        | (Rejected e, w1) => cbzCatch e w1
        end
  end.
Proof.
  destruct (JSZip_loadAsync env f) as [files|e] eqn:Hl.
  2: { exact (handleCbz_corrupt _ _ _ _ Hl). }
  destruct (decide (imageFilesOf files = [])) as [He|Hne].
  { exact (handleCbz_no_images _ _ _ _ Hl He). }
  rewrite (handleCbz_loaded _ _ _ _ Hl Hne). fold (cbzLoopStart files w).
  unfold tryCatch, bind at 1.
  by destruct (forOf (imageFilesOf files) ([], 1) (cbzStep files) _)
    as [[r|e] w1].
Qed.

(** [handlePdf] as the cases it goes through. *)
Lemma handlePdf_eq env f w :
  handlePdf env f w =
  match pdfjsLib env with
  | None =>
      (Fulfilled tt,
       exec (write (set_errorMessage msg_pdfUnavailable))
         (exec (write (set_status St_error)) w))
  | Some getDocument =>
      match getDocument f with
      | Rejected e => pdfCatch e (exec createObjectURL w)
      | Fulfilled pdf =>
          match forOf (seq 1 (numPages pdf)) [] (pdfStep pdf)
                  (pdfLoopStart pdf w) with
          | (Fulfilled ps, w1) => (Fulfilled tt, loadedWith ps w1)
          | (Rejected e, w1) => pdfCatch e w1
          end
      end
  end.
Proof.
  unfold handlePdf. destruct (pdfjsLib env) as [gd|].
  2: { by rewrite bind_write. }
  unfold tryCatch. rewrite bind_createObjectURL.
  unfold bind at 1, await.
  destruct (gd f) as [pdf|e]; [|reflexivity].
  rewrite bind_write. fold (pdfLoopStart pdf w). unfold bind at 1.
  by destruct (forOf (seq 1 (numPages pdf)) [] (pdfStep pdf) _)
    as [[ps|e] w1].
Qed.

Lemma zip_file_Some files nm o :
  zip_file files nm = Some o <-> files !! nm = Some o /\ dir o = false.
Proof.
  unfold zip_file. destruct (files !! nm) as [o'|]; [|by split; [|intros []]].
  destruct (dir o') eqn:Hd.
  - split; [done|]. intros [[= ->] ?]. congruence.
  - split; [by intros [= ->]|]. by intros [[= ->] _].
Qed.

(** Whenever the loop of [handleCbz] completes, every name that is a file of
    the archive has given one page, made of the entry's data, with a preview
    URL not handed out before. *)
Lemma forOf_cbzStep_pages files l : forall acc n w ps n' w',
  Forall (fun nm => is_Some (zip_file files nm)) l ->
  forOf l (acc, n) (cbzStep files) w = (Fulfilled (ps, n'), w') ->
  exists new,
    ps = (acc ++ new)%list /\
    map pageName new = l /\
    Forall (fromEntry files) new /\
    map previewUrl new = seq (createdUrls w) (length new) /\
    createdUrls w' = createdUrls w + length new /\
    liveUrls w' = list_to_set (map previewUrl new) ∪ liveUrls w /\
    console w' = console w /\ calls w' = calls w /\ history w' = history w.
Proof.
  induction l as [|nm l IH]; intros acc n w ps n' w' Hl Hrun.
  - cbn in Hrun. injection Hrun as <- _ <-. exists [].
    rewrite app_nil_r. cbn. rewrite Nat.add_0_r.
    split; [done|]. split; [done|]. split; [done|]. split; [done|].
    split; [done|]. split; [set_solver|]. done.
  - apply Forall_cons in Hl as [[o Ho] Hl].
    cbn [forOf] in Hrun. unfold bind at 1 in Hrun.
    unfold cbzStep at 1 in Hrun. rewrite Ho in Hrun.
    unfold bind at 1, await in Hrun.
    destruct (async_blob o) as [b|e] eqn:Hb; [|discriminate].
    rewrite bind_createObjectURL in Hrun. unfold ret at 1 in Hrun.
    apply IH in Hrun as (new & -> & Hnames & Hfrom & Hurls & Hc & Hlive & Hcon
                          & Hcalls & Hhist); [|done].
    apply zip_file_Some in Ho as [Ho Hd].
    eexists (_ :: new). rewrite <- app_assoc. split; [reflexivity|].
    cbn [map length seq pageName previewUrl newPage file name].
    split; [by rewrite <- Hnames|].
    split.
    { constructor; [|done]. exists o. cbn. by rewrite Hb. }
    split; [by rewrite Hurls|].
    split; [rewrite Hc; cbn; lia|].
    split; [rewrite Hlive; cbn; set_solver|]. done.
Qed.

(** The loop of [handleCbz] is rejected exactly when an entry cannot be
    read, with the error of the first such entry. *)
Lemma forOf_cbzStep_rejected files l : forall acc w e w',
  forOf l acc (cbzStep files) w = (Rejected e, w') ->
  exists nm o, nm ∈ l /\ zip_file files nm = Some o /\
    async_blob o = Rejected e.
Proof.
  induction l as [|nm l IH]; intros [acc n] w e w' Hrun; [discriminate|].
  cbn [forOf] in Hrun. unfold bind at 1 in Hrun.
  unfold cbzStep at 1 in Hrun.
  destruct (zip_file files nm) as [o|] eqn:Ho.
  - unfold bind at 1, await in Hrun.
    destruct (async_blob o) as [b|e'] eqn:Hb.
    + rewrite bind_createObjectURL in Hrun. unfold ret at 1 in Hrun.
      apply IH in Hrun as (nm' & o' & Hin & Ho' & Hb').
      exists nm', o'. split; [by right|done].
    + injection Hrun as <- _. exists nm, o. split; [by left|done].
  - unfold ret at 1 in Hrun. apply IH in Hrun as (nm' & o' & Hin & Ho' & Hb').
    exists nm', o'. split; [by right|done].
Qed.

Lemma forOf_cbzStep_unreadable files l : forall acc w,
  Exists (fun nm => exists o e, zip_file files nm = Some o /\
                      async_blob o = Rejected e) l ->
  exists e w', forOf l acc (cbzStep files) w = (Rejected e, w').
Proof.
  induction l as [|nm l IH]; intros [acc n] w Hex; [by inversion Hex|].
  cbn [forOf]. unfold bind at 1. unfold cbzStep at 1.
  destruct (zip_file files nm) as [o|] eqn:Ho.
  - unfold bind at 1, await.
    destruct (async_blob o) as [b|e'] eqn:Hb; [|by eexists _, _].
    rewrite bind_createObjectURL. unfold ret at 1.
    apply IH. apply Exists_cons in Hex as [(o' & e & Ho' & Hb')|Hex]; [|done].
    congruence.
  - unfold ret at 1. apply IH.
    apply Exists_cons in Hex as [(o' & e & Ho' & Hb')|Hex]; [|done].
    congruence.
Qed.

(** Whenever the loop of [handlePdf] completes, every index has rendered, and
    the indices that gave a blob have given one page each, with a preview
    URL not handed out before. *)
Lemma forOf_pdfStep_pages pdf l : forall acc w ps w',
  forOf l acc (pdfStep pdf) w = (Fulfilled ps, w') ->
  exists new,
    ps = (acc ++ new)%list /\
    Forall (renders pdf) l /\
    map pageNum new = withBlob pdf l /\
    Forall (isPdfPage pdf) new /\
    map previewUrl new = seq (createdUrls w) (length new) /\
    createdUrls w' = createdUrls w + length new /\
    liveUrls w' = list_to_set (map previewUrl new) ∪ liveUrls w /\
    console w' = console w /\ calls w' = calls w /\ history w' = history w.
Proof.
  induction l as [|i l IH]; intros acc w ps w' Hrun.
  - cbn in Hrun. injection Hrun as <- <-. exists [].
    rewrite app_nil_r. cbn. rewrite Nat.add_0_r.
    split; [done|]. split; [done|]. split; [done|]. split; [done|].
    split; [done|]. split; [done|]. split; [set_solver|]. done.
  - cbn [forOf] in Hrun. unfold bind at 1 in Hrun.
    unfold pdfStep at 1 in Hrun. unfold bind at 1, await in Hrun.
    unfold withBlob. rewrite filter_cons. fold (withBlob pdf l).
    destruct (getPage pdf i) as [pg|e] eqn:Hpg; [|discriminate].
    destruct (getContext2d pg pdfScale) eqn:Hctx.
    + unfold bind at 1 in Hrun.
      destruct (render pg pdfScale) as [d|e] eqn:Hr; [|discriminate].
      assert (Hren : renders pdf i).
      { exists pg. split; [done|]. intros _. by exists d. }
      destruct (toBlob pg pdfScale d "image/png") as [b|] eqn:Hb.
      * rewrite bind_createObjectURL in Hrun. unfold ret at 1 in Hrun.
        apply IH in Hrun as (new & -> & Hall & Hnum & Hpdf & Hurls & Hc & Hlive
                              & Hrest).
        assert (Hpb : pageBlob pdf i = Some b).
        { unfold pageBlob. by rewrite Hpg, Hctx, Hr. }
        eexists (_ :: new). rewrite <- app_assoc. split; [reflexivity|].
        split; [by constructor|].
        rewrite decide_True by (by rewrite Hpb).
        cbn [map length seq pageNum previewUrl newPage].
        split; [by rewrite Hnum|].
        split.
        { constructor; [|done]. exists b. cbn [pageNum newPage file].
          by repeat split. }
        split; [by rewrite Hurls|].
        split; [rewrite Hc; cbn; lia|].
        split; [rewrite Hlive; cbn; set_solver|]. done.
      * unfold ret at 1 in Hrun.
        apply IH in Hrun as (new & -> & Hall & Hnum & Hrest).
        assert (Hpb : pageBlob pdf i = None).
        { unfold pageBlob. by rewrite Hpg, Hctx, Hr. }
        exists new. split; [done|]. split; [by constructor|].
        rewrite decide_False by (rewrite Hpb; by intros [? [=]]). done.
    + unfold ret at 1 in Hrun.
      apply IH in Hrun as (new & -> & Hall & Hnum & Hrest).
      assert (Hpb : pageBlob pdf i = None).
      { unfold pageBlob. by rewrite Hpg, Hctx. }
      exists new. split; [done|]. split.
      { constructor; [|done]. exists pg. split; [done|]. congruence. }
      rewrite decide_False by (rewrite Hpb; by intros [? [=]]). done.
Qed.

(** The loop of [handlePdf] is rejected with the error of the first page
    that fails. *)
Lemma forOf_pdfStep_rejected pdf l : forall acc w e w',
  forOf l acc (pdfStep pdf) w = (Rejected e, w') ->
  exists i, i ∈ l /\ failsToRender pdf i e.
Proof.
  induction l as [|i l IH]; intros acc w e w' Hrun; [discriminate|].
  cbn [forOf] in Hrun. unfold bind at 1 in Hrun.
  unfold pdfStep at 1 in Hrun. unfold bind at 1, await in Hrun.
  destruct (getPage pdf i) as [pg|e0] eqn:Hpg.
  2: { injection Hrun as <- _. exists i. split; [by left|]. by left. }
  destruct (getContext2d pg pdfScale) eqn:Hctx.
  - unfold bind at 1 in Hrun.
    destruct (render pg pdfScale) as [d|e0] eqn:Hr.
    2: { injection Hrun as <- _. exists i. split; [by left|]. right.
         by exists pg. }
    destruct (toBlob pg pdfScale d "image/png") as [b|].
    + rewrite bind_createObjectURL in Hrun. unfold ret at 1 in Hrun.
      apply IH in Hrun as (j & Hin & Hf). exists j. split; [by right|done].
    + unfold ret at 1 in Hrun.
      apply IH in Hrun as (j & Hin & Hf). exists j. split; [by right|done].
  - unfold ret at 1 in Hrun.
    apply IH in Hrun as (j & Hin & Hf). exists j. split; [by right|done].
Qed.

Lemma failsToRender_not_renders pdf i e :
  failsToRender pdf i e -> ~ renders pdf i.
Proof.
  intros [Hg|(pg & Hg & Hc & Hr)] (pg' & Hg' & Hr'); [congruence|].
  rewrite Hg in Hg'. injection Hg' as <-. destruct (Hr' Hc) as [d Hd].
  congruence.
Qed.

Lemma prelude_createdUrls f w :
  createdUrls (exec (prelude f) w) = createdUrls w.
Proof. reflexivity. Qed.

Lemma prelude_console f w : console (exec (prelude f) w) = console w.
Proof. reflexivity. Qed.

Lemma loadedWith_app ps w :
  app (loadedWith ps w) = set_status St_file_loaded (set_pages ps (app w)).
Proof. reflexivity. Qed.

Lemma cbzCatch_app e w :
  app (exec (cbzCatch e) w)
  = set_errorMessage msg_cbzFailed (set_status St_error (app w)).
Proof. reflexivity. Qed.

Lemma pdfCatch_app e w :
  app (exec (pdfCatch e) w)
  = set_errorMessage msg_pdfFailed (set_status St_error (app w)).
Proof. reflexivity. Qed.

Lemma cbzLoopStart_app files w :
  app (cbzLoopStart files w)
  = set_totalPageCount (length (imageFilesOf files)) (app w).
Proof. reflexivity. Qed.

Lemma pdfLoopStart_app pdf w :
  app (pdfLoopStart pdf w) = set_totalPageCount (numPages pdf) (app w).
Proof. reflexivity. Qed.

(** ** An archive loads whole or not at all *)



#[global] Instance keeps_preorder {A} (part : World -> A) :
  PreOrder (keeps part).
Proof.
  split; [by intros w|]. intros w1 w2 w3 H12 H23. unfold keeps in *.
  by rewrite H23.
Qed.

(** The two extraction loops respect every relation that making an object
    URL respects. *)
Section RespectsLoops.

Context (R : relation World) `{!PreOrder R}.
Hypothesis R_createObjectURL : respects R createObjectURL.

Lemma respects_cbzStep files nm acc : respects R (cbzStep files nm acc).
Proof.
  unfold cbzStep. destruct acc as [ps n].
  destruct (zip_file files nm); [|apply respects_ret; apply _].
  apply respects_bind; [apply _|apply respects_await; apply _|]. intros b.
  apply respects_bind; [apply _|apply R_createObjectURL|]. intros u.
  apply respects_ret; apply _.
Qed.

Lemma respects_pdfStep pdf i acc : respects R (pdfStep pdf i acc).
Proof.
  unfold pdfStep.
  apply respects_bind; [apply _|apply respects_await; apply _|]. intros pg.
  destruct (getContext2d pg pdfScale); [|apply respects_ret; apply _].
  apply respects_bind; [apply _|apply respects_await; apply _|]. intros d.
  destruct (toBlob pg pdfScale d "image/png"); [|apply respects_ret; apply _].
  apply respects_bind; [apply _|apply R_createObjectURL|]. intros u.
  apply respects_ret; apply _.
Qed.

Lemma respects_forOf_cbz files l acc :
  respects R (forOf l acc (cbzStep files)).
Proof. apply respects_forOf; [apply _|]. intros. apply respects_cbzStep. Qed.

Lemma respects_forOf_pdf pdf l acc :
  respects R (forOf l acc (pdfStep pdf)).
Proof. apply respects_forOf; [apply _|]. intros. apply respects_pdfStep. Qed.

End RespectsLoops.

Lemma keeps_console_forOf_cbz files l acc :
  respects (keeps console) (forOf l acc (cbzStep files)).
Proof. apply respects_forOf_cbz; [apply _|]. by intros w. Qed.

Lemma keeps_console_forOf_pdf pdf l acc :
  respects (keeps console) (forOf l acc (pdfStep pdf)).
Proof. apply respects_forOf_pdf; [apply _|]. by intros w. Qed.

Lemma keeps_calls_forOf_cbz files l acc :
  respects (keeps calls) (forOf l acc (cbzStep files)).
Proof. apply respects_forOf_cbz; [apply _|]. by intros w. Qed.

Lemma keeps_calls_forOf_pdf pdf l acc :
  respects (keeps calls) (forOf l acc (pdfStep pdf)).
Proof. apply respects_forOf_pdf; [apply _|]. by intros w. Qed.

(** X4: [handleCbz], reached through [handleFile], on an archive one of whose
    image entries cannot be read.  The state is [error] with the message of
    an unreadable archive and an empty Page Store; the error logged to the
    console is the one of an unreadable image entry; the page total keeps
    the number of image entries, set before the extraction started. *)
Theorem handleCbz_unreadable_entry (env : Env) (f : File) (w : World)
    (files : gmap string ZipObject) :
  fileExtensionOf (name f) = Some "cbz" ->
  JSZip_loadAsync env f = Fulfilled files ->
  (exists nm o e, files !! nm = Some o /\ isImage nm o /\
     async_blob o = Rejected e) ->
  let w' := exec (handleFile env f) w in
  status (app w') = St_error /\
  pages (app w') = [] /\
  errorMessage (app w') = msg_cbzFailed /\
  totalPageCount (app w') = size (imageEntries files) /\
  0 < totalPageCount (app w') /\
  exists nm o e,
    files !! nm = Some o /\ isImage nm o /\ async_blob o = Rejected e /\
    console w' = (console w ++ [("", e)])%list.
Proof.
  intros Hext Hl (nm & o & e & Ho & Him & Hb). cbv zeta. unfold exec.
  rewrite (handleFile_cbz _ _ _ Hext), handleCbz_eq, Hl.
  assert (Hp0 : pages (app (exec (prelude f) w)) = []) by apply prelude_pages.
  rewrite <- (prelude_console f w).
  generalize dependent (exec (prelude f) w). intros w0 Hp0.
  assert (Hin : nm ∈ imageFilesOf files).
  { apply elem_of_imageFilesOf. by exists o. }
  destruct (decide (imageFilesOf files = [])) as [He|Hne].
  { rewrite He in Hin. by apply elem_of_nil in Hin. }
  destruct (forOf_cbzStep_unreadable files (imageFilesOf files) ([], 1)
              (cbzLoopStart files w0)) as (e' & w1 & Hrun).
  { apply Exists_exists. exists nm. split; [exact Hin|].
    exists o, e. split; [|exact Hb]. apply zip_file_Some.
    split; [exact Ho|apply Him]. }
  pose proof (keepsApp_forOf_cbz files (imageFilesOf files) ([], 1)
                (cbzLoopStart files w0)) as Ha.
  pose proof (keeps_console_forOf_cbz files (imageFilesOf files)
                ([], 1) (cbzLoopStart files w0)) as Hc.
  rewrite Hrun in Ha, Hc |- *. cbn [snd] in Ha, Hc.
  unfold keepsApp in Ha. unfold keeps in Hc.
  change (cbzCatch e' w1).2 with (exec (cbzCatch e') w1).
  rewrite cbzCatch_app, Ha, cbzLoopStart_app.
  cbn [status pages errorMessage totalPageCount set_errorMessage set_status
       set_totalPageCount].
  split; [reflexivity|]. split; [exact Hp0|]. split; [reflexivity|].
  split; [apply length_imageFilesOf|].
  split; [destruct (imageFilesOf files); [by destruct Hne|cbn; lia]|].
  apply forOf_cbzStep_rejected in Hrun as (nm' & o' & Hin' & Ho' & Hb').
  apply zip_file_Some in Ho' as [Ho' Hd'].
  apply elem_of_imageFilesOf in Hin' as (o'' & Ho'' & Him').
  assert (o'' = o') as -> by congruence.
  exists nm', o', e'. split; [exact Ho'|]. split; [exact Him'|].
  split; [exact Hb'|].
  destruct (cbzCatch_run e' w1) as (_ & _ & _ & _ & _ & Hcon).
  rewrite Hcon, Hc. reflexivity.
Qed.

Lemma handleCbz_unreadable_entry_witness :
  let w' := exec (handleFile (zipEnv damagedArchive) (upload "vol.cbz"))
                 world0 in
  pages (app w') = [] /\ totalPageCount (app w') = 3.
Proof.
  destruct (handleCbz_unreadable_entry (zipEnv damagedArchive)
              (upload "vol.cbz") world0 damagedArchive eq_refl eq_refl)
    as (_ & Hp & _ & Ht & _).
  - exists "2.png", {| dir := false;
                      async_blob := Rejected (newError "CRC32 mismatch") |},
           (newError "CRC32 mismatch").
    split; [reflexivity|]. split; [by vm_compute|reflexivity].
  - split; [exact Hp|]. rewrite Ht. by vm_compute.
Defined.

Example handleCbz_unreadable_entry_urls :
  let w' := exec (handleFile (zipEnv damagedArchive) (upload "vol.cbz"))
                 world0 in
  elements (liveUrls w') = [0] /\ console w' = [("", newError "CRC32 mismatch")].
Proof. by vm_compute. Qed.

(** ** Ingestion, summed up *)

Lemma prelude_app f w :
  app (exec (prelude f) w)
  = {| status := St_loading_file; uploadedFile := Some f;
       fileName := name f; pages := []; totalPageCount := 0;
       translatedPageCount := 0; wikiUrl := "";
       translationMode := Mode_in_depth;
       isApiKeyModalVisible := isApiKeyModalVisible (app w);
       apiKeyInput := apiKeyInput (app w); errorMessage := "";
       isDragging := isDragging (app w) |}.
Proof. reflexivity. Qed.

Lemma cbzCatch_fulfils e w :
  cbzCatch e w = (Fulfilled tt, exec (cbzCatch e) w).
Proof. reflexivity. Qed.

Lemma pdfCatch_fulfils e w :
  pdfCatch e w = (Fulfilled tt, exec (pdfCatch e) w).
Proof. reflexivity. Qed.

Lemma elem_of_ingestionMessages m :
  m = msg_invalidFileType \/ m = msg_cbzFailed \/ m = msg_pdfUnavailable \/
  m = msg_pdfFailed -> m ∈ ingestionMessages.
Proof.
  unfold ingestionMessages. intros [-> | [-> | [-> | ->]]].
  - apply list_elem_of_here.
  - do 1 apply list_elem_of_further. apply list_elem_of_here.
  - do 2 apply list_elem_of_further. apply list_elem_of_here.
  - do 3 apply list_elem_of_further. apply list_elem_of_here.
Qed.

#[global] Instance urlsGrow_preorder : PreOrder urlsGrow.
Proof.
  split; [intros w; unfold urlsGrow; lia|].
  intros w1 w2 w3. unfold urlsGrow. lia.
Qed.

Lemma urlsGrow_forOf_cbz files l acc :
  respects urlsGrow (forOf l acc (cbzStep files)).
Proof.
  apply respects_forOf_cbz; [apply _|]. intros w. unfold urlsGrow. cbn. lia.
Qed.

Lemma urlsGrow_forOf_pdf pdf l acc :
  respects urlsGrow (forOf l acc (pdfStep pdf)).
Proof.
  apply respects_forOf_pdf; [apply _|]. intros w. unfold urlsGrow. cbn. lia.
Qed.

Lemma handleCbz_summary env f w0 :
  (handleCbz env f w0).1 = Fulfilled tt /\
  calls (exec (handleCbz env f) w0) = calls w0 /\
  (loadedFrom w0 (exec (handleCbz env f) w0) \/
   failedFrom w0 (exec (handleCbz env f) w0)).
Proof.
  unfold exec. rewrite handleCbz_eq.
  assert (Hfail : forall e,
    (cbzCatch e w0).1 = Fulfilled tt /\
    calls (cbzCatch e w0).2 = calls w0 /\
    (loadedFrom w0 (cbzCatch e w0).2 \/ failedFrom w0 (cbzCatch e w0).2)).
  { intros e. rewrite cbzCatch_fulfils. cbn [fst snd].
    split; [reflexivity|]. split; [reflexivity|]. right.
    exists msg_cbzFailed, (app w0). rewrite cbzCatch_app.
    split; [reflexivity|]. split; [by left|].
    split; [apply elem_of_ingestionMessages; tauto|reflexivity]. }
  destruct (JSZip_loadAsync env f) as [files|e]; [|apply Hfail].
  destruct (decide (imageFilesOf files = [])) as [He|Hne]; [apply Hfail|].
  clear Hfail.
  pose proof (keepsApp_forOf_cbz files (imageFilesOf files) ([], 1)
                (cbzLoopStart files w0)) as Ha.
  pose proof (keeps_calls_forOf_cbz files (imageFilesOf files) ([], 1)
                (cbzLoopStart files w0)) as Hc.
  pose proof (urlsGrow_forOf_cbz files (imageFilesOf files) ([], 1)
                (cbzLoopStart files w0)) as Hu.
  destruct (forOf (imageFilesOf files) ([], 1) (cbzStep files)
              (cbzLoopStart files w0)) as [[[ps n]|e] w1] eqn:Hrun;
    cbn [snd fst] in *; unfold keepsApp in Ha; unfold keeps in Hc;
    unfold urlsGrow in Hu.
  - split; [reflexivity|]. split; [exact Hc|]. left.
    assert (Hlen := Hrun).
    apply forOf_cbzStep_length in Hlen; [|apply zip_file_imageFilesOf].
    apply forOf_cbzStep_pages in Hrun
      as (new & -> & Hnames & Hfrom & Hurls & Hcr & Hlive & Hcon & _);
      [|apply zip_file_imageFilesOf].
    rewrite app_nil_l in *.
    exists new, (length (imageFilesOf files)), (createdUrls w0).
    rewrite loadedWith_app, Ha, cbzLoopStart_app.
    split; [reflexivity|]. split; [cbn in Hlen; lia|]. split; [lia|].
    split; [exact Hurls|]. split; [exact Hcr|].
    split; [|exact Hcon].
    intros u Hin. change (liveUrls (loadedWith new w1)) with (liveUrls w1).
    rewrite Hlive. apply elem_of_union_l. by apply elem_of_list_to_set.
  - rewrite cbzCatch_fulfils. cbn [fst snd].
    split; [reflexivity|]. split; [exact Hc|]. right.
    exists msg_cbzFailed, (set_totalPageCount (length (imageFilesOf files))
                             (app w0)).
    rewrite cbzCatch_app, Ha, cbzLoopStart_app.
    split; [reflexivity|]. split; [right; by eexists|].
    split; [apply elem_of_ingestionMessages; tauto|exact Hu].
Qed.

Lemma handlePdf_summary env f w0 :
  (handlePdf env f w0).1 = Fulfilled tt /\
  calls (exec (handlePdf env f) w0) = calls w0 /\
  (loadedFrom w0 (exec (handlePdf env f) w0) \/
   failedFrom w0 (exec (handlePdf env f) w0)).
Proof.
  unfold exec. rewrite handlePdf_eq.
  destruct (pdfjsLib env) as [gd|].
  2: { cbn [fst snd]. split; [reflexivity|]. split; [reflexivity|]. right.
       exists msg_pdfUnavailable, (app w0).
       split; [reflexivity|]. split; [by left|].
       split; [apply elem_of_ingestionMessages; tauto|reflexivity]. }
  destruct (gd f) as [pdf|e].
  2: { rewrite pdfCatch_fulfils. cbn [fst snd].
       split; [reflexivity|]. split; [reflexivity|]. right.
       exists msg_pdfFailed, (app w0). rewrite pdfCatch_app.
       split; [reflexivity|]. split; [by left|].
       split; [apply elem_of_ingestionMessages; tauto|].
       change (createdUrls (exec (pdfCatch e) (exec createObjectURL w0)))
         with (S (createdUrls w0)). lia. }
  pose proof (keepsApp_forOf_pdf pdf (seq 1 (numPages pdf)) []
                (pdfLoopStart pdf w0)) as Ha.
  pose proof (keeps_calls_forOf_pdf pdf (seq 1 (numPages pdf)) []
                (pdfLoopStart pdf w0)) as Hc.
  pose proof (urlsGrow_forOf_pdf pdf (seq 1 (numPages pdf)) []
                (pdfLoopStart pdf w0)) as Hu.
  destruct (forOf (seq 1 (numPages pdf)) [] (pdfStep pdf)
              (pdfLoopStart pdf w0)) as [[ps|e] w1] eqn:Hrun;
    cbn [snd fst] in *; unfold keepsApp in Ha; unfold keeps in Hc;
    unfold urlsGrow in Hu;
    change (createdUrls (pdfLoopStart pdf w0)) with (S (createdUrls w0)) in Hu.
  - split; [reflexivity|]. split; [exact Hc|]. left.
    apply forOf_pdfStep_pages in Hrun
      as (new & -> & _ & Hnum & _ & Hurls & Hcr & Hlive & Hcon & _).
    rewrite app_nil_l in *.
    change (createdUrls (pdfLoopStart pdf w0)) with (S (createdUrls w0))
      in Hurls, Hcr.
    exists new, (numPages pdf), (S (createdUrls w0)).
    rewrite loadedWith_app, Ha, pdfLoopStart_app.
    split; [reflexivity|].
    split.
    { rewrite <- (length_map pageNum), Hnum. unfold withBlob.
      etrans; [apply length_filter|]. by rewrite length_seq. }
    split; [lia|]. split; [exact Hurls|]. split; [exact Hcr|].
    split; [|exact Hcon].
    intros u Hin. change (liveUrls (loadedWith new w1)) with (liveUrls w1).
    rewrite Hlive. apply elem_of_union_l. by apply elem_of_list_to_set.
  - rewrite pdfCatch_fulfils. cbn [fst snd].
    split; [reflexivity|]. split; [exact Hc|]. right.
    exists msg_pdfFailed, (set_totalPageCount (numPages pdf) (app w0)).
    rewrite pdfCatch_app, Ha, pdfLoopStart_app.
    split; [reflexivity|]. split; [right; by eexists|].
    split; [apply elem_of_ingestionMessages; tauto|].
    change (createdUrls (exec (pdfCatch e) w1)) with (createdUrls w1). lia.
Qed.

Lemma exec_congr {A B} (c1 : M A) (c2 : M B) w1 w2 :
  (c1 w1).2 = (c2 w2).2 -> exec c1 w1 = exec c2 w2.
Proof. unfold exec. by intros ->. Qed.

Lemma handleFile_other_eq env f w :
  fileExtensionOf (name f) <> Some "cbz" ->
  fileExtensionOf (name f) <> Some "pdf" ->
  handleFile env f w
  = (Fulfilled tt,
     exec (write (set_errorMessage msg_invalidFileType))
       (exec (write (set_status St_error)) (exec (prelude f) w))).
Proof.
  intros Hc Hd. unfold handleFile. unfold bind at 1. rewrite prelude_run.
  rewrite decide_False by exact Hc. rewrite decide_False by exact Hd.
  by rewrite bind_write.
Qed.

Lemma handleFile_summary env f w :
  (handleFile env f w).1 = Fulfilled tt /\
  calls (exec (handleFile env f) w) = calls w /\
  (loadedFrom (exec (prelude f) w) (exec (handleFile env f) w) \/
   failedFrom (exec (prelude f) w) (exec (handleFile env f) w)).
Proof.
  pose proof (prelude_calls f w) as Hpc.
  destruct (decide (fileExtensionOf (name f) = Some "cbz")) as [Hc|Hc].
  { pose proof (handleFile_cbz env f w Hc) as Heq.
    rewrite (exec_congr _ _ _ _ (f_equal snd Heq)), Heq. clear Heq.
    generalize dependent (exec (prelude f) w). intros w0 Hpc.
    destruct (handleCbz_summary env f w0) as (H1 & H2 & H3).
    split; [exact H1|]. split; [|exact H3].
    rewrite H2. exact Hpc. }
  destruct (decide (fileExtensionOf (name f) = Some "pdf")) as [Hd|Hd].
  { pose proof (handleFile_pdf env f w Hd) as Heq.
    rewrite (exec_congr _ _ _ _ (f_equal snd Heq)), Heq. clear Heq.
    generalize dependent (exec (prelude f) w). intros w0 Hpc.
    destruct (handlePdf_summary env f w0) as (H1 & H2 & H3).
    split; [exact H1|]. split; [|exact H3].
    rewrite H2. exact Hpc. }
  pose proof (handleFile_other_eq env f w Hc Hd) as Heq.
  assert (Hex : exec (handleFile env f) w
    = exec (write (set_errorMessage msg_invalidFileType))
        (exec (write (set_status St_error)) (exec (prelude f) w))).
  { unfold exec at 1. by rewrite Heq. }
  rewrite Hex, Heq. clear Hex Heq.
  generalize dependent (exec (prelude f) w). intros w0 Hpc.
  cbn [fst].
  split; [reflexivity|]. split; [exact Hpc|]. right.
  exists msg_invalidFileType, (app w0).
  split; [reflexivity|]. split; [by left|].
  split; [apply elem_of_ingestionMessages; tauto|reflexivity].
Qed.

(** ** What ingestion leaves behind *)

(** X5: [handleFile], whatever the file and however reading it goes.  The
    selected file and its name are recorded; the context URL, the mode and
    the translated count are back at their initial values; the key dialog,
    the key input and the drag flag are as they were; the service is not
    called.  The state afterwards is [file-loaded] with no error message and
    no more pages than the page total, or [error] with one of the four
    messages of ingestion and an empty Page Store. *)
Theorem handleFile_signals (env : Env) (f : File) (w : World) :
  let a := app w in
  let w' := exec (handleFile env f) w in
  let a' := app w' in
  uploadedFile a' = Some f /\ fileName a' = name f /\
  wikiUrl a' = "" /\ translationMode a' = Mode_in_depth /\
  translatedPageCount a' = 0 /\
  isApiKeyModalVisible a' = isApiKeyModalVisible a /\
  apiKeyInput a' = apiKeyInput a /\ isDragging a' = isDragging a /\
  calls w' = calls w /\
  ((status a' = St_file_loaded /\ errorMessage a' = "" /\
    length (pages a') <= totalPageCount a') \/
   (status a' = St_error /\ errorMessage a' ∈ ingestionMessages /\
    pages a' = [])).
Proof.
  cbv zeta.
  destruct (handleFile_summary env f w) as (_ & Hcalls & Hsum).
  pose proof (prelude_app f w) as H0.
  generalize dependent (exec (handleFile env f) w). intros w' Hcalls Hsum.
  generalize dependent (exec (prelude f) w). intros w0 H0 Hsum.
  unfold loadedFrom, failedFrom in Hsum.
  destruct Hsum as [(ps & n & c & Happ & Hlen & _)|(m & B & Happ & HB & Hm & _)].
  - rewrite Happ, H0.
    cbn [status uploadedFile fileName pages totalPageCount translatedPageCount
         wikiUrl translationMode isApiKeyModalVisible apiKeyInput errorMessage
         isDragging set_status set_pages update_pages set_totalPageCount].
    do 8 (split; [reflexivity|]). split; [exact Hcalls|]. left.
    split; [reflexivity|]. split; [reflexivity|exact Hlen].
  - rewrite Happ. destruct HB as [->|[n ->]]; rewrite H0;
      cbn [status uploadedFile fileName pages totalPageCount
           translatedPageCount wikiUrl translationMode isApiKeyModalVisible
           apiKeyInput errorMessage isDragging set_status set_errorMessage
           set_totalPageCount];
      (do 8 (split; [reflexivity|])); (split; [exact Hcalls|]); right;
      (split; [reflexivity|]); (split; [exact Hm|reflexivity]).
Qed.

(** X6: the preview URLs [handleCbz] and [handlePdf] give to the pages,
    whatever the file and the world before.  No two pages share a preview
    URL; every preview URL is live afterwards, and was made during this
    ingestion: it is not below the serial number the browser had reached
    before. *)
Theorem handleFile_preview_urls (env : Env) (f : File) (w : World) :
  let w' := exec (handleFile env f) w in
  let urls := map previewUrl (pages (app w')) in
  NoDup urls /\
  forall u, u ∈ urls ->
    u ∈ liveUrls w' /\ createdUrls w <= u < createdUrls w'.
Proof.
  cbv zeta.
  destruct (handleFile_summary env f w) as (_ & _ & Hsum).
  pose proof (prelude_createdUrls f w) as H0.
  pose proof (prelude_pages f w) as Hp0.
  generalize dependent (exec (handleFile env f) w). intros w' Hsum.
  generalize dependent (exec (prelude f) w). intros w0 H0 Hp0 Hsum.
  unfold loadedFrom, failedFrom in Hsum.
  destruct Hsum as [(ps & n & c & Happ & _ & Hc & Hurls & Hcr & Hlive & _)
                   |(m & B & Happ & HB & _)].
  - rewrite Happ.
    cbn [pages set_status set_pages update_pages]. rewrite Hurls.
    split; [apply NoDup_seq|]. intros u Hu. split.
    + apply Hlive. by rewrite Hurls.
    + apply elem_of_seq in Hu. lia.
  - rewrite Happ.
    assert (Hp : pages (set_errorMessage m (set_status St_error B)) = []).
    { destruct HB as [->|[n ->]]; exact Hp0. }
    rewrite Hp. cbn [map]. split; [constructor|].
    intros u Hu. by apply elem_of_nil in Hu.
Qed.

Lemma handleFile_preview_urls_witness :
  let w' := exec (handleFile (zipEnv book) (upload "book.cbz")) world0 in
  1 ∈ liveUrls w' /\ 0 <= 1 < createdUrls w'.
Proof.
  apply (proj2 (handleFile_preview_urls (zipEnv book) (upload "book.cbz")
                  world0) 1).
  apply (bool_decide_unpack _). by vm_compute.
Defined.

(** ** A document loads whole or not at all *)

(** X7: [handlePdf], reached through [handleFile], with pdf.js present.  The
    document is loaded exactly when it opens and every page from 1 to
    [numPages] can be fetched and, if it has a canvas context, rendered.
    Then the pages are those that gave a PNG blob, in increasing order, each
    named [page_<i>.png] with type [image/png], and the page total is
    [numPages].  Otherwise the state is [error], the Page Store is empty and
    the message is the one of an unreadable document. *)
Theorem handlePdf_all_or_nothing (env : Env) (f : File) (w : World)
    (gd : File -> Settled PDFDocumentProxy) :
  fileExtensionOf (name f) = Some "pdf" ->
  pdfjsLib env = Some gd ->
  let w' := exec (handleFile env f) w in
  let ps := pages (app w') in
  (status (app w') = St_file_loaded <->
   exists pdf, gd f = Fulfilled pdf /\
     Forall (renders pdf) (seq 1 (numPages pdf))) /\
  (forall pdf, gd f = Fulfilled pdf -> status (app w') = St_file_loaded ->
     map pageNum ps = withBlob pdf (seq 1 (numPages pdf)) /\
     Forall (isPdfPage pdf) ps /\
     totalPageCount (app w') = numPages pdf) /\
  (status (app w') <> St_file_loaded ->
   status (app w') = St_error /\ ps = [] /\
   errorMessage (app w') = msg_pdfFailed).
Proof.
  intros Hext Hlib. cbv zeta.
  pose proof (handleFile_pdf env f w Hext) as Heq.
  rewrite (exec_congr _ _ _ _ (f_equal snd Heq)). clear Heq.
  pose proof (prelude_pages f w) as Hp0.
  generalize dependent (exec (prelude f) w). intros w0 Hp0.
  unfold exec. rewrite handlePdf_eq, Hlib.
  destruct (gd f) as [pdf|e].
  2: { change (pdfCatch e (exec createObjectURL w0)).2
         with (exec (pdfCatch e) (exec createObjectURL w0)).
       rewrite pdfCatch_app.
       change (app (exec createObjectURL w0)) with (app w0).
       cbn [status pages errorMessage set_errorMessage set_status].
       split; [split; [intros [=]|intros (pdf & [=] & _)]|].
       split; [intros pdf [=]|]. intros _. split; [reflexivity|].
       split; [exact Hp0|reflexivity]. }
  pose proof (keepsApp_forOf_pdf pdf (seq 1 (numPages pdf)) []
                (pdfLoopStart pdf w0)) as Ha.
  destruct (forOf (seq 1 (numPages pdf)) [] (pdfStep pdf)
              (pdfLoopStart pdf w0)) as [[ps|e] w1] eqn:Hrun;
    cbn [snd fst] in *; unfold keepsApp in Ha.
  - rewrite loadedWith_app, Ha, pdfLoopStart_app.
    cbn [status pages totalPageCount set_status set_pages update_pages
         set_totalPageCount].
    apply forOf_pdfStep_pages in Hrun
      as (new & -> & Hall & Hnum & Hpdf & _).
    rewrite app_nil_l.
    split; [split; [intros _; by exists pdf|reflexivity]|].
    split; [|intros H; destruct (H eq_refl)].
    intros pdf' [= <-] _. split; [exact Hnum|]. split; [exact Hpdf|reflexivity].
  - change (pdfCatch e w1).2 with (exec (pdfCatch e) w1).
    rewrite pdfCatch_app, Ha, pdfLoopStart_app.
    cbn [status pages errorMessage set_errorMessage set_status
         set_totalPageCount].
    split; [|split; [intros pdf' _ [=]|intros _; split;
                       [reflexivity|split; [exact Hp0|reflexivity]]]].
    split; [intros [=]|]. intros (pdf' & [= <-] & Hall). exfalso.
    apply forOf_pdfStep_rejected in Hrun as (i & Hin & Hf).
    rewrite Forall_forall in Hall.
    exact (failsToRender_not_renders _ _ _ Hf (Hall i Hin)).
Qed.

Lemma handlePdf_all_or_nothing_witness :
  let w' := exec (handleFile (pdfEnv threePages) (upload "Book.PDF"))
                 loaded3 in
  map pageNum (pages (app w')) = [1; 3] /\
  Forall (isPdfPage threePages) (pages (app w')) /\
  totalPageCount (app w') = 3.
Proof.
  destruct (handlePdf_all_or_nothing (pdfEnv threePages) (upload "Book.PDF")
              loaded3 (fun _ => Fulfilled threePages) eq_refl eq_refl)
    as (_ & H & _).
  assert (Hs : status (app (exec (handleFile (pdfEnv threePages)
                                    (upload "Book.PDF")) loaded3))
               = St_file_loaded) by (vm_compute; reflexivity).
  destruct (H threePages eq_refl Hs) as (Hn & Hp & Ht).
  split; [exact Hn|]. split; [exact Hp|exact Ht].
Defined.

(** X8: [handlePdf], reached through [handleFile], when pdf.js is not
    loaded.  The state is [error] with the message of the missing library;
    the Page Store is empty; the file is not read: no object URL is made
    and nothing is logged to the console. *)
Theorem handlePdf_unavailable (env : Env) (f : File) (w : World) :
  fileExtensionOf (name f) = Some "pdf" ->
  pdfjsLib env = None ->
  let w' := exec (handleFile env f) w in
  status (app w') = St_error /\
  errorMessage (app w') = msg_pdfUnavailable /\
  pages (app w') = [] /\
  createdUrls w' = createdUrls w /\
  liveUrls w' = liveUrls w /\
  console w' = console w.
Proof.
  intros Hext Hlib. cbv zeta.
  pose proof (handleFile_pdf env f w Hext) as Heq.
  rewrite (exec_congr _ _ _ _ (f_equal snd Heq)). clear Heq.
  pose proof (prelude_pages f w) as Hp0.
  pose proof (prelude_createdUrls f w) as Hc0.
  pose proof (prelude_liveUrls f w) as Hl0.
  pose proof (prelude_console f w) as Hk0.
  generalize dependent (exec (prelude f) w). intros w0 Hp0 Hc0 Hl0 Hk0.
  unfold exec. rewrite handlePdf_eq, Hlib. cbn [snd].
  split; [reflexivity|]. split; [reflexivity|]. split; [exact Hp0|].
  split; [exact Hc0|]. split; [exact Hl0|exact Hk0].
Qed.

Lemma handlePdf_unavailable_witness :
  let w' := exec (handleFile (zipEnv book) (upload "Book.PDF")) loaded3 in
  errorMessage (app w') = msg_pdfUnavailable /\ pages (app w') = [].
Proof.
  destruct (handlePdf_unavailable (zipEnv book) (upload "Book.PDF") loaded3
              eq_refl eq_refl) as (_ & Hm & Hp & _).
  split; [exact Hm|exact Hp].
Defined.

Lemma keepsUrls_forOf_pdf pdf l acc :
  respects keepsUrls (forOf l acc (pdfStep pdf)).
Proof. apply respects_forOf_pdf; [apply _|apply keepsUrls_createObjectURL]. Qed.

(** X9: [handlePdf], reached through [handleFile], with pdf.js present.  The
    object URL made to hand the file to pdf.js is live afterwards, whether
    the document loaded or not, and it is no page's preview URL. *)
Theorem handlePdf_document_url (env : Env) (f : File) (w : World)
    (gd : File -> Settled PDFDocumentProxy) :
  fileExtensionOf (name f) = Some "pdf" ->
  pdfjsLib env = Some gd ->
  let w' := exec (handleFile env f) w in
  let u := createdUrls w in
  u ∈ liveUrls w' /\
  u < createdUrls w' /\
  u ∉ map previewUrl (pages (app w')).
Proof.
  intros Hext Hlib. cbv zeta.
  pose proof (handleFile_pdf env f w Hext) as Heq.
  rewrite (exec_congr _ _ _ _ (f_equal snd Heq)). clear Heq.
  pose proof (prelude_pages f w) as Hp0.
  rewrite <- (prelude_createdUrls f w).
  generalize dependent (exec (prelude f) w). intros w0 Hp0.
  unfold exec. rewrite handlePdf_eq, Hlib.
  destruct (gd f) as [pdf|e].
  2: { change (pdfCatch e (exec createObjectURL w0)).2
         with (exec (pdfCatch e) (exec createObjectURL w0)).
       rewrite pdfCatch_app.
       change (app (exec createObjectURL w0)) with (app w0).
       change (liveUrls (exec (pdfCatch e) (exec createObjectURL w0)))
         with ({[createdUrls w0]} ∪ liveUrls w0).
       change (createdUrls (exec (pdfCatch e) (exec createObjectURL w0)))
         with (S (createdUrls w0)).
       cbn [pages set_errorMessage set_status]. rewrite Hp0.
       split; [set_solver|]. split; [lia|]. apply not_elem_of_nil. }
  pose proof (keepsApp_forOf_pdf pdf (seq 1 (numPages pdf)) []
                (pdfLoopStart pdf w0)) as Ha.
  pose proof (keepsUrls_forOf_pdf pdf (seq 1 (numPages pdf)) []
                (pdfLoopStart pdf w0)) as Hl.
  pose proof (urlsGrow_forOf_pdf pdf (seq 1 (numPages pdf)) []
                (pdfLoopStart pdf w0)) as Hu.
  unfold keepsApp in Ha. unfold keepsUrls in Hl. unfold urlsGrow in Hu.
  change (liveUrls (pdfLoopStart pdf w0))
    with ({[createdUrls w0]} ∪ liveUrls w0) in Hl.
  change (createdUrls (pdfLoopStart pdf w0)) with (S (createdUrls w0)) in Hu.
  destruct (forOf (seq 1 (numPages pdf)) [] (pdfStep pdf)
              (pdfLoopStart pdf w0)) as [[ps|e] w1] eqn:Hrun;
    cbn [snd fst] in *.
  - rewrite loadedWith_app.
    change (liveUrls (loadedWith ps w1)) with (liveUrls w1).
    change (createdUrls (loadedWith ps w1)) with (createdUrls w1).
    cbn [pages set_status set_pages update_pages].
    split; [set_solver|]. split; [lia|].
    apply forOf_pdfStep_pages in Hrun as (new & -> & _ & _ & _ & Hurls & _).
    rewrite app_nil_l, Hurls.
    change (createdUrls (pdfLoopStart pdf w0)) with (S (createdUrls w0)).
    intros Hin%elem_of_seq. lia.
  - change (pdfCatch e w1).2 with (exec (pdfCatch e) w1).
    rewrite pdfCatch_app, Ha, pdfLoopStart_app.
    change (liveUrls (exec (pdfCatch e) w1)) with (liveUrls w1).
    change (createdUrls (exec (pdfCatch e) w1)) with (createdUrls w1).
    cbn [pages set_errorMessage set_status set_totalPageCount]. rewrite Hp0.
    split; [set_solver|]. split; [lia|]. apply not_elem_of_nil.
Qed.

Lemma handlePdf_document_url_witness :
  let w' := exec (handleFile (pdfEnv threePages) (upload "Book.PDF")) world0 in
  0 ∈ liveUrls w' /\ 0 ∉ map previewUrl (pages (app w')).
Proof.
  destruct (handlePdf_document_url (pdfEnv threePages) (upload "Book.PDF")
              world0 (fun _ => Fulfilled threePages) eq_refl eq_refl)
    as (Hl & _ & Hn).
  split; [exact Hl|exact Hn].
Defined.

(** ** translateAll: the component through a run *)

Lemma exec_run {A} (c : M A) w v w' : c w = (v, w') -> exec c w = w'.
Proof. unfold exec. by intros ->. Qed.

Section RunFacts.

Variable env : Env.
Variables (url : string) (mode : TranslationMode).

Lemma pages_stepApp o n a :
  pages (stepApp o n a)
  = mapPage n (settle o) (mapPage n markTranslating (pages a)).
Proof. unfold stepApp. by destruct o. Qed.

(** One iteration, as it leaves the component, the console and the
    browser's object URLs. *)
Lemma translateStep_app page w :
  pageNum page ∈ map pageNum (pages (app w)) ->
  let o := outcome env url mode (length (calls w)) page in
  exists w',
    translateStep env url mode page tt w = (Fulfilled tt, w') /\
    calls w' = (calls w ++ [(file page, url, mode)])%list /\
    app w' = stepApp o (pageNum page) (app w) /\
    console w'
    = (console w ++
       logged (translateMangaPage (geminiService env) (length (calls w))
                 (file page) url mode) ++
       match o with
       | Fulfilled _ => []
       | Rejected e => [failureEntry (pageNum page, e)]
       end)%list /\
    liveUrls w' = liveUrls w /\ createdUrls w' = createdUrls w.
Proof.
  intros Hin o. rewrite (translateStep_eq env url mode page w Hin). fold o.
  unfold stepApp. destruct o as [resultText|e].
  - eexists. split; [reflexivity|].
    cbn [exec write snd call_translateMangaPage calls app console liveUrls
         createdUrls].
    rewrite app_nil_r. split; [reflexivity|]. split; [reflexivity|].
    split; [reflexivity|]. split; reflexivity.
  - eexists. split; [reflexivity|].
    cbn [exec write snd call_translateMangaPage console_error calls app console
         liveUrls createdUrls].
    rewrite <- app_assoc.
    split; [reflexivity|]. split; [reflexivity|].
    split; [reflexivity|]. split; reflexivity.
Qed.

Lemma forOf_translateStep_app l : forall w,
  Forall (fun page => pageNum page ∈ map pageNum (pages (app w))) l ->
  exists w',
    forOf l tt (translateStep env url mode) w = (Fulfilled tt, w') /\
    calls w' = (calls w ++ map (fun p => (file p, url, mode)) l)%list /\
    app w' = runApp env url mode l (length (calls w)) (app w) /\
    console w'
    = (console w ++ runConsole env url mode l (length (calls w)))%list /\
    liveUrls w' = liveUrls w /\ createdUrls w' = createdUrls w.
Proof.
  induction l as [|page l IH]; intros w Hl.
  - exists w. cbn [forOf ret map runApp runConsole]. rewrite !app_nil_r.
    split; [reflexivity|]. split; [reflexivity|]. split; [reflexivity|].
    split; [reflexivity|]. split; reflexivity.
  - apply Forall_cons in Hl as [Hin Hl].
    destruct (translateStep_app page w Hin)
      as (w1 & Hrun & Hc & Ha & Hk & Hl1 & Hu).
    assert (Hl' : Forall (fun page => pageNum page ∈ map pageNum (pages (app w1)))
                    l).
    { rewrite Ha, pages_stepApp, !map_pageNum_mapPage; [exact Hl|done|].
      intros p. apply pageNum_settle. }
    destruct (IH w1 Hl') as (w' & Hrun' & Hc' & Ha' & Hk' & Hl2 & Hu').
    assert (Hlen : length (calls w1) = S (length (calls w))).
    { rewrite Hc, length_app. cbn [length]. by rewrite Nat.add_1_r. }
    rewrite Hlen in Ha', Hk'.
    exists w'. cbn [forOf]. unfold bind at 1. rewrite Hrun.
    split; [exact Hrun'|].
    split; [by rewrite Hc', Hc, <- app_assoc|].
    split; [by rewrite Ha', Ha|].
    split.
    { rewrite Hk', Hk. cbn [runConsole]. by rewrite <- !app_assoc. }
    split; [by rewrite Hl2|by rewrite Hu'].
Qed.

(** The loop changes, of the component, the Page Store, the translated
    count and the error message only. *)
Lemma runApp_frame l : forall k a,
  let a' := runApp env url mode l k a in
  status a' = status a /\ uploadedFile a' = uploadedFile a /\
  fileName a' = fileName a /\ totalPageCount a' = totalPageCount a /\
  wikiUrl a' = wikiUrl a /\ translationMode a' = translationMode a /\
  isApiKeyModalVisible a' = isApiKeyModalVisible a /\
  apiKeyInput a' = apiKeyInput a /\ isDragging a' = isDragging a.
Proof.
  induction l as [|page l IH]; intros k a; [by repeat split|].
  cbn [runApp]. cbv zeta.
  destruct (IH (S k) (stepApp (outcome env url mode k page) (pageNum page) a))
    as (H1 & H2 & H3 & H4 & H5 & H6 & H7 & H8 & H9).
  rewrite H1, H2, H3, H4, H5, H6, H7, H8, H9.
  unfold stepApp. by destruct (outcome env url mode k page).
Qed.

Lemma runApp_pages l : forall k a,
  pages (runApp env url mode l k a) = map (after env url mode l k) (pages a).
Proof.
  induction l as [|page l IH]; intros k a.
  - cbn [runApp after]. by rewrite map_id.
  - cbn [runApp after]. rewrite IH.
    assert (Hp : pages (stepApp (outcome env url mode k page) (pageNum page) a)
      = mapPage (pageNum page) (settle (outcome env url mode k page))
          (mapPage (pageNum page) markTranslating (pages a))).
    { apply pages_stepApp. }
    rewrite Hp, mapPage_mapPage by done. by rewrite map_map.
Qed.

Lemma length_failures l : forall k, length (failures env url mode l k) <= length l.
Proof.
  induction l as [|page l IH]; intros k; [done|]. cbn [failures length].
  specialize (IH (S k)).
  destruct (outcome env url mode k page); cbn [length]; lia.
Qed.

(** The translated count goes up by one for every iteration that does not
    fail. *)
Lemma runApp_translatedPageCount l : forall k a,
  translatedPageCount (runApp env url mode l k a)
    + length (failures env url mode l k)
  = translatedPageCount a + length l.
Proof.
  induction l as [|page l IH]; intros k a; [cbn; lia|].
  cbn [runApp failures length]. specialize (IH (S k)).
  unfold stepApp.
  destruct (outcome env url mode k page) as [text|e]; rewrite ?length_cons;
    rewrite <- Nat.add_succ_r || idtac.
  - rewrite IH. cbn [translatedPageCount update_translatedPageCount
                     update_pages]. lia.
  - cbn [length]. rewrite Nat.add_succ_r, IH.
    cbn [translatedPageCount set_errorMessage update_pages]. lia.
Qed.

(** The error message after the loop is the banner of the last failed
    iteration, if any. *)
Lemma runApp_errorMessage l : forall k a,
  errorMessage (runApp env url mode l k a)
  = bannerOf (failures env url mode l k) (errorMessage a).
Proof.
  induction l as [|page l IH]; intros k a; [done|].
  cbn [runApp failures]. rewrite IH. unfold stepApp, bannerOf.
  destruct (outcome env url mode k page) as [text|e]; [done|].
  cbn [errorMessage set_errorMessage].
  destruct (failures env url mode l (S k)) as [|f fs]; [done|].
  rewrite last_cons_cons.
  destruct (proj2 (last_is_Some (f :: fs))) as [y Hy]; [done|].
  by rewrite Hy.
Qed.

End RunFacts.

Lemma translateAll_unmet_app env w g :
  firstUnmet env (app w) = Some g ->
  exists w',
    translateAll env w = (Fulfilled tt, w') /\
    app w' = refused g (app w) /\
    calls w' = calls w /\ console w' = console w /\
    liveUrls w' = liveUrls w /\ createdUrls w' = createdUrls w.
Proof.
  unfold firstUnmet, guardMet. intros Hg.
  unfold translateAll, bind, read.
  destruct (decide (length (pages (app w)) = 0)) as [H0|H0].
  { rewrite H0 in Hg. injection Hg as <-. eexists. split; [reflexivity|].
    split; [reflexivity|]. split; [reflexivity|]. split; [reflexivity|].
    split; reflexivity. }
  apply Nat.eqb_neq in H0. rewrite H0 in Hg. cbn [negb] in Hg.
  destruct (Js.truthy (Js.trim (wikiUrl (app w)))); cbn [negb] in *.
  2: { injection Hg as <-. eexists. split; [reflexivity|].
       split; [reflexivity|]. split; [reflexivity|]. split; [reflexivity|].
       split; reflexivity. }
  destruct (Js.truthy (apiKeySignal (geminiService env))); cbn [negb] in *.
  { discriminate. }
  injection Hg as <-. eexists. split; [reflexivity|].
  split; [reflexivity|]. split; [reflexivity|]. split; [reflexivity|].
  split; reflexivity.
Qed.

Lemma translateAll_app env w :
  let url := Js.trim (wikiUrl (app w)) in
  let mode := translationMode (app w) in
  let ps := pages (app w) in
  let k := length (calls w) in
  firstUnmet env (app w) = None ->
  exists w',
    translateAll env w = (Fulfilled tt, w') /\
    app w' = set_status St_success (runApp env url mode ps k (begun (app w))) /\
    calls w' = (calls w ++ map (fun p => (file p, url, mode)) ps)%list /\
    console w' = (console w ++ runConsole env url mode ps k)%list /\
    liveUrls w' = liveUrls w /\ createdUrls w' = createdUrls w.
Proof.
  intros url mode ps k Hg. rewrite (translateAll_met env w Hg).
  destruct (forOf_translateStep_app env url mode ps (exec begin w))
    as (w1 & Hrun & Hc & Ha & Hk & Hl & Hu).
  { apply Forall_forall. intros page Hin. apply list_elem_of_fmap.
    by exists page. }
  change (app (exec begin w)) with (begun (app w)) in Ha.
  change (calls (exec begin w)) with (calls w) in Hc, Ha, Hk.
  change (console (exec begin w)) with (console w) in Hk.
  change (liveUrls (exec begin w)) with (liveUrls w) in Hl.
  change (createdUrls (exec begin w)) with (createdUrls w) in Hu.
  exists (exec (write (set_status St_success)) w1).
  fold url mode ps. unfold bind at 1. rewrite Hrun.
  split; [reflexivity|].
  change (app (exec (write (set_status St_success)) w1))
    with (set_status St_success (app w1)).
  rewrite Ha. split; [reflexivity|].
  split; [exact Hc|]. split; [exact Hk|]. split; [exact Hl|exact Hu].
Qed.

Lemma msg_failedOnPage_nonempty n : msg_failedOnPage n <> "".
Proof. unfold msg_failedOnPage. by rewrite append_cons. Qed.

Lemma bannerOf_empty fs : bannerOf fs "" = "" <-> fs = [].
Proof.
  unfold bannerOf. destruct fs as [|f fs]; [done|].
  destruct (proj2 (last_is_Some (f :: fs))) as [y Hy]; [done|].
  rewrite Hy. split; [|done]. intros H. by apply msg_failedOnPage_nonempty in H.
Qed.

(** ** translateAll: the tally of a run *)

(** X10: [translateAll] when its three guards hold, whatever the service
    does.  An iteration fails when the awaited call is rejected, or is
    answered without text so that [resultText.split] throws.  The state
    ends as [success] even if iterations failed.  The translated count and
    the number of failed iterations add up to the number of pages.  The
    error message is empty exactly when every page was counted; otherwise
    it names the page of the last failed iteration.  The console gets, page
    after page, what the service printed during the call and then, if the
    iteration failed, one entry labelled with the page number. *)
Theorem translateAll_tally (env : Env) (w : World) :
  let url := Js.trim (wikiUrl (app w)) in
  let mode := translationMode (app w) in
  let ps := pages (app w) in
  let fs := failures env url mode ps (length (calls w)) in
  firstUnmet env (app w) = None ->
  let w' := exec (translateAll env) w in
  status (app w') = St_success /\
  translatedPageCount (app w') + length fs = length ps /\
  errorMessage (app w') = bannerOf fs "" /\
  (errorMessage (app w') = "" <-> translatedPageCount (app w') = length ps) /\
  console w'
  = (console w ++ runConsole env url mode ps (length (calls w)))%list.
Proof.
  intros url mode ps fs Hg. cbv zeta.
  destruct (translateAll_app env w Hg) as (w' & Hrun & Ha & _ & Hk & _).
  fold url mode ps fs in Ha, Hk.
  unfold exec. rewrite Hrun. cbn [snd]. rewrite Ha.
  cbn [status translatedPageCount errorMessage set_status].
  pose proof (runApp_translatedPageCount env url mode ps (length (calls w))
                (begun (app w))) as Hn.
  pose proof (runApp_errorMessage env url mode ps (length (calls w))
                (begun (app w))) as He.
  fold fs in Hn, He.
  change (translatedPageCount (begun (app w))) with 0 in Hn.
  change (errorMessage (begun (app w))) with "" in He.
  split; [reflexivity|]. split; [exact Hn|]. split; [exact He|].
  split; [|exact Hk].
  rewrite He, bannerOf_empty. split.
  - intros Hfs. rewrite Hfs in Hn. cbn [length] in Hn. lia.
  - intros Hc. destruct fs; [done|]. cbn [length] in Hn. lia.
Qed.

Lemma translateAll_tally_witness :
  let w' := exec (translateAll (envOf (failingAt 1))) session3 in
  status (app w') = St_success /\
  translatedPageCount (app w') = 2 /\
  errorMessage (app w') = "Failed on page 2. See details above." /\
  console w' = [("Error on page 2:", newError "quota exceeded")].
Proof.
  destruct (translateAll_tally (envOf (failingAt 1)) session3 eq_refl)
    as (Hs & Hn & He & _ & Hk).
  split; [exact Hs|]. split; [|split; [exact He|exact Hk]].
  assert (Hf : length (failures (envOf (failingAt 1))
                         (Js.trim (wikiUrl (app session3)))
                         (translationMode (app session3))
                         (pages (app session3)) (length (calls session3)))
               = 1) by (vm_compute; reflexivity).
  rewrite Hf in Hn. cbn [length] in Hn.
  change (length (pages (app session3))) with 3 in Hn. lia.
Defined.

Lemma after_imap env url mode ps k :
  NoDup (map pageNum ps) ->
  map (after env url mode ps k) ps
  = imap (fun j p => settle (outcome env url mode (k + j) p)
                       (markTranslating p)) ps.
Proof.
  intros Hnd. apply list_eq. intros j.
  rewrite list_lookup_fmap, list_lookup_imap.
  destruct (ps !! j) as [p|] eqn:Hj; [|done]. cbn [fmap option_fmap option_map].
  f_equal. by apply (after_at env url mode ps k p j p).
Qed.

Lemma error_settle o p :
  error (settle o (markTranslating p)) = None <-> fulfils o.
Proof.
  destruct o as [text|e]; cbn.
  - split; [by eexists|done].
  - split; [done|]. by intros [? [=]].
Qed.

Lemma filter_imap_failures env url mode l : forall k,
  length (filter (fun p => error p = None)
            (imap (fun j p => settle (outcome env url mode (k + j) p)
                                (markTranslating p)) l))
    + length (failures env url mode l k)
  = length l.
Proof.
  induction l as [|page l IH]; intros k; [done|].
  rewrite imap_cons, filter_cons, Nat.add_0_r. cbn [failures length].
  specialize (IH (S k)).
  rewrite (imap_ext _ (fun j p => settle (outcome env url mode (S k + j) p)
                                    (markTranslating p))).
  2: { intros j p _. cbn. by rewrite Nat.add_succ_r. }
  destruct (outcome env url mode k page) as [text|e] eqn:Ho.
  - rewrite decide_True by done. cbn [length]. lia.
  - rewrite decide_False by done. cbn [length]. lia.
Qed.

(** X11: [translateAll] when its guards hold, on a Page Store whose page
    numbers do not repeat.  The translated count is the number of pages that
    end without an error. *)
Theorem translateAll_count_is_pages_without_error (env : Env) (w : World) :
  firstUnmet env (app w) = None ->
  NoDup (map pageNum (pages (app w))) ->
  let w' := exec (translateAll env) w in
  translatedPageCount (app w')
  = length (filter (fun p => error p = None) (pages (app w'))) /\
  translatedPageCount (app w') <= length (pages (app w')).
Proof.
  intros Hg Hnd. cbv zeta.
  destruct (translateAll_app env w Hg) as (w' & Hrun & Ha & _).
  unfold exec. rewrite Hrun. cbn [snd]. rewrite Ha.
  cbn [translatedPageCount pages set_status].
  rewrite runApp_pages.
  change (pages (begun (app w))) with (pages (app w)).
  pose proof (runApp_translatedPageCount env (Js.trim (wikiUrl (app w)))
                (translationMode (app w)) (pages (app w)) (length (calls w))
                (begun (app w))) as Hn.
  change (translatedPageCount (begun (app w))) with 0 in Hn.
  rewrite after_imap by exact Hnd.
  pose proof (filter_imap_failures env (Js.trim (wikiUrl (app w)))
                (translationMode (app w)) (pages (app w)) (length (calls w)))
    as Hf.
  rewrite length_imap. lia.
Qed.

Lemma translateAll_count_is_pages_without_error_witness :
  let w' := exec (translateAll (envOf (failingAt 1))) session3 in
  translatedPageCount (app w')
  = length (filter (fun p => error p = None) (pages (app w'))).
Proof.
  refine (proj1 (translateAll_count_is_pages_without_error
                   (envOf (failingAt 1)) session3 eq_refl _)).
  apply (bool_decide_unpack _). by vm_compute.
Defined.

Lemma identity_after env url mode l : forall k p,
  identity (after env url mode l k p) = identity p.
Proof.
  induction l as [|page l IH]; intros k p; [done|].
  cbn [after]. rewrite IH. destruct (decide _); [|done].
  by destruct (outcome env url mode k page).
Qed.

(** ** translateAll: what a run leaves alone *)

(** X12: [translateAll], whatever the state it is called in and whatever the
    service answers.  No page is added, dropped or moved, and every page
    keeps its number, its file and its preview URL.  The selected file, its
    name, the page total, the context URL as typed, the mode, the key input
    and the drag flag are as they were.  No object URL is made or
    revoked. *)
Theorem translateAll_frame (env : Env) (w : World) :
  let a := app w in
  let w' := exec (translateAll env) w in
  let a' := app w' in
  map identity (pages a') = map identity (pages a) /\
  uploadedFile a' = uploadedFile a /\ fileName a' = fileName a /\
  totalPageCount a' = totalPageCount a /\ wikiUrl a' = wikiUrl a /\
  translationMode a' = translationMode a /\
  apiKeyInput a' = apiKeyInput a /\ isDragging a' = isDragging a /\
  liveUrls w' = liveUrls w /\ createdUrls w' = createdUrls w.
Proof.
  cbv zeta. destruct (firstUnmet env (app w)) as [g|] eqn:Hg.
  - destruct (translateAll_unmet_app env w g Hg)
      as (w' & Hrun & Ha & _ & _ & Hl & Hu).
    unfold exec. rewrite Hrun. cbn [snd]. rewrite Ha.
    split; [by destruct g|]. split; [by destruct g|].
    split; [by destruct g|]. split; [by destruct g|].
    split; [by destruct g|]. split; [by destruct g|].
    split; [by destruct g|]. split; [by destruct g|].
    split; [exact Hl|exact Hu].
  - destruct (translateAll_app env w Hg) as (w' & Hrun & Ha & _ & _ & Hl & Hu).
    unfold exec. rewrite Hrun. cbn [snd]. rewrite Ha.
    cbn [pages uploadedFile fileName totalPageCount wikiUrl translationMode
         apiKeyInput isDragging set_status].
    destruct (runApp_frame env (Js.trim (wikiUrl (app w)))
                (translationMode (app w)) (pages (app w)) (length (calls w))
                (begun (app w)))
      as (_ & H2 & H3 & H4 & H5 & H6 & _ & H8 & H9).
    rewrite runApp_pages, H2, H3, H4, H5, H6, H8, H9.
    split.
    { rewrite map_map. apply map_ext. intros p. apply identity_after. }
    do 7 (split; [reflexivity|]). split; [exact Hl|exact Hu].
Qed.

Lemma attempted_settle o p : attempted (settle o (markTranslating p)).
Proof.
  destruct o as [text|e]; (split; [reflexivity|]); [left|right]; by eexists.
Qed.

Lemma attempted_after env url mode l : forall k p,
  attempted p \/ pageNum p ∈ map pageNum l ->
  attempted (after env url mode l k p).
Proof.
  induction l as [|page l IH]; intros k p Hp.
  - destruct Hp as [Hp|Hp]; [exact Hp|]. by apply elem_of_nil in Hp.
  - cbn [after]. apply IH. destruct (decide (pageNum p = pageNum page)) as [He|Hne].
    + left. apply attempted_settle.
    + destruct Hp as [Hp|Hp]; [by left|]. right.
      cbn [map] in Hp. apply elem_of_cons in Hp as [Hp|Hp]; [done|exact Hp].
Qed.

(** X13: [translateAll] when its guards hold, whatever the service answers
    and whatever state the pages were in.  The service is called once per
    page, in the order of the Page Store, with the page's file, the context
    URL trimmed and the mode, as they were when the run started.
    Afterwards no page is translating, and every page has lines or an
    error. *)
Theorem translateAll_every_page_attempted (env : Env) (w : World) :
  firstUnmet env (app w) = None ->
  let w' := exec (translateAll env) w in
  calls w'
  = (calls w ++
     map (fun p => (file p, Js.trim (wikiUrl (app w)), translationMode (app w)))
       (pages (app w)))%list /\
  Forall attempted (pages (app w')).
Proof.
  intros Hg. cbv zeta.
  destruct (translateAll_app env w Hg) as (w' & Hrun & Ha & Hc & _).
  unfold exec. rewrite Hrun. cbn [snd]. split; [exact Hc|].
  rewrite Ha. cbn [pages set_status]. rewrite runApp_pages.
  change (pages (begun (app w))) with (pages (app w)).
  apply Forall_forall. intros q Hq.
  apply list_elem_of_fmap in Hq as (p & -> & Hin).
  apply attempted_after. right. apply list_elem_of_fmap. by exists p.
Qed.

Lemma translateAll_every_page_attempted_witness :
  let w' := exec (translateAll (envOf (failingAt 1))) session3 in
  length (calls w') = 3 /\ Forall attempted (pages (app w')).
Proof.
  destruct (translateAll_every_page_attempted (envOf (failingAt 1)) session3
              eq_refl) as [Hc Ha].
  split; [by rewrite Hc|exact Ha].
Defined.

(** ** The handlers never reject *)

(** X14: [handleFile] and [translateAll].  [onDrop] and [onFileSelected]
    call [handleFile] without [await] or [catch].  Whatever JSZip, pdf.js
    and the service do, the promise each of the two returns is fulfilled:
    every failure is turned into component state. *)
Theorem handlers_never_reject (env : Env) (f : File) (w : World) :
  (handleFile env f w).1 = Fulfilled tt /\
  (translateAll env w).1 = Fulfilled tt.
Proof.
  split; [apply handleFile_summary|].
  destruct (firstUnmet env (app w)) as [g|] eqn:Hg.
  - destruct (translateAll_unmet_app env w g Hg) as (w' & Hrun & _).
    by rewrite Hrun.
  - destruct (translateAll_app env w Hg) as (w' & Hrun & _).
    by rewrite Hrun.
Qed.

(** ** Ingestion followed by a run *)

Lemma handleFile_wikiUrl env f w :
  wikiUrl (app (exec (handleFile env f) w)) = "".
Proof.
  destruct (handleFile_summary env f w) as (_ & _ & Hsum).
  pose proof (prelude_app f w) as H0.
  generalize dependent (exec (handleFile env f) w). intros w' Hsum.
  generalize dependent (exec (prelude f) w). intros w0 H0 Hsum.
  unfold loadedFrom, failedFrom in Hsum.
  destruct Hsum as [(ps & n & c & -> & _)|(m & B & -> & HB & _)].
  - by rewrite H0.
  - destruct HB as [->|[n ->]]; by rewrite H0.
Qed.

Lemma handleFile_calls env f w :
  calls (exec (handleFile env f) w) = calls w.
Proof. apply handleFile_summary. Qed.

(** X15: [translateAll] right after [handleFile].  Ingestion puts the context
    URL back to empty, so a run started before a URL is entered again is
    refused, whatever file was read: the state is [error], the message is
    the one of the empty store if no page was loaded and the one of the
    missing URL otherwise, the pages are as ingestion left them and the
    service is not called. *)
Theorem translateAll_after_handleFile (env : Env) (f : File) (w : World) :
  let w1 := exec (handleFile env f) w in
  let w2 := exec (translateAll env) w1 in
  status (app w2) = St_error /\
  errorMessage (app w2)
  = (if decide (pages (app w1) = []) then msg_noPages else msg_noUrl) /\
  pages (app w2) = pages (app w1) /\
  calls w2 = calls w.
Proof.
  cbv zeta.
  pose proof (handleFile_wikiUrl env f w) as Hu.
  pose proof (handleFile_calls env f w) as Hc.
  generalize dependent (exec (handleFile env f) w). intros w1 Hu Hc.
  assert (Hg : firstUnmet env (app w1)
               = Some (if decide (pages (app w1) = []) then NonEmptyStore
                       else ContextUrl)).
  { unfold firstUnmet, guardMet. rewrite Hu.
    destruct (pages (app w1)) as [|p ps]; [done|].
    by rewrite decide_False. }
  destruct (translateAll_unmet_app env w1 _ Hg) as (w2 & Hrun & Ha & Hc2 & _).
  unfold exec. rewrite Hrun. cbn [snd]. rewrite Ha, Hc2, Hc.
  by destruct (decide (pages (app w1) = [])).
Qed.

Lemma failures_none env url mode l : forall k,
  (forall j page, fulfils (outcome env url mode j page)) ->
  failures env url mode l k = [].
Proof.
  induction l as [|page l IH]; intros k Hf; [done|]. cbn [failures].
  destruct (Hf k page) as [text ->]. by apply IH.
Qed.

Lemma new_client apiKey sdk ai :
  GeminiService.genAI (GeminiService.new apiKey sdk) = Some ai ->
  exists key, ai = sdk key.
Proof.
  unfold GeminiService.new. destruct apiKey as [[|c k]|]; cbn; intros [=].
  by eexists.
Qed.

(** When every call of a run ends with text, every page ends with lines
    and without an error. *)
Lemma translateAll_all_fulfilled env w :
  firstUnmet env (app w) = None ->
  NoDup (map pageNum (pages (app w))) ->
  (forall j page,
     fulfils (outcome env (Js.trim (wikiUrl (app w)))
                (translationMode (app w)) j page)) ->
  forall p, p ∈ pages (app (exec (translateAll env) w)) ->
    is_Some (translation p) /\ error p = None.
Proof.
  intros Hg Hnd Hful q Hq.
  destruct (translateAll_run env w Hg) as (w1 & hs & Hrun & _ & Hp & _).
  rewrite (exec_run _ _ _ _ Hrun), Hp in Hq.
  apply list_elem_of_fmap in Hq as (p & -> & Hin).
  apply list_elem_of_lookup in Hin as [j Hj].
  rewrite (after_at env _ _ _ (length (calls w)) p j p Hnd Hj eq_refl).
  apply settle_fulfilled. apply Hful.
Qed.

(** X16: a whole session with the service as [GeminiService] builds it from a
    key, when the backing service answers every request with text.  After
    [handleFile] has loaded at least one page and a context URL that is not
    blank has been entered, [translateAll] ends in [success] with no error
    message; every page has lines and no error and is not translating; the
    translated count is the number of pages; every page keeps its number,
    file and preview URL; the service was called once per page. *)
Theorem session_translates_every_page (env : Env) (f : File) (w : World)
    (u : string) (apiKey : option string) (sdk : string -> GoogleGenAI) :
  geminiService env = GeminiService.client (GeminiService.new apiKey sdk) ->
  apiKeySignal (geminiService env) <> "" ->
  (forall key k req,
     exists text, generateContent (sdk key) k req = Fulfilled (Some text)) ->
  Js.trim u <> "" ->
  let w1 := exec (handleFile env f) w in
  pages (app w1) <> [] ->
  let w2 := exec (write (set_wikiUrl u)) w1 in
  let w3 := exec (translateAll env) w2 in
  status (app w3) = St_success /\
  errorMessage (app w3) = "" /\
  translatedPageCount (app w3) = length (pages (app w3)) /\
  map identity (pages (app w3)) = map identity (pages (app w1)) /\
  Forall (fun p => is_Some (translation p) /\ error p = None /\
                   isTranslating p = false) (pages (app w3)) /\
  length (calls w3) = length (calls w) + length (pages (app w1)).
Proof.
  intros Hsvc Hkey Hsdk Hurl. cbv zeta.
  pose proof (handleFile_startable env f w) as [Hnd _].
  pose proof (handleFile_calls env f w) as Hc.
  generalize dependent (exec (handleFile env f) w). intros w1 Hnd Hc Hne.
  set (w2 := exec (write (set_wikiUrl u)) w1).
  assert (Hp2 : pages (app w2) = pages (app w1)) by reflexivity.
  assert (Hu2 : wikiUrl (app w2) = u) by reflexivity.
  assert (Hc2 : calls w2 = calls w1) by reflexivity.
  assert (Hg : firstUnmet env (app w2) = None).
  { unfold firstUnmet, guardMet. rewrite Hp2, Hu2.
    destruct (pages (app w1)); [done|]. cbn [length Nat.eqb negb].
    destruct (Js.trim u); [done|]. cbn [Js.truthy negb].
    by destruct (apiKeySignal (geminiService env)). }
  clearbody w2.
  destruct (guarded_initialized env (app w2) apiKey sdk Hsvc Hg) as [ai Hai].
  assert (Hful : forall j page,
    fulfils (outcome env (Js.trim (wikiUrl (app w2)))
               (translationMode (app w2)) j page)).
  { intros j page. unfold outcome. rewrite Hsvc.
    cbn [GeminiService.client translateMangaPage].
    destruct (new_client apiKey sdk ai Hai) as [key ->].
    destruct (Hsdk key j
                (GeminiService.request (file page)
                   (Js.trim (wikiUrl (app w2))) (translationMode (app w2))))
      as [text Ht].
    rewrite (translateMangaPage_sdk_fulfilled _ _ _ _ _ _ _ Hai Ht).
    by exists text. }
  rewrite <- Hp2 in Hnd.
  pose proof (translateAll_all_fulfilled env w2 Hg Hnd Hful) as Hok.
  destruct (translateAll_app env w2 Hg) as (w3 & Hrun & Ha & Hc3 & _).
  unfold exec in Hok |- *. rewrite Hrun in Hok |- *. cbn [snd] in Hok |- *.
  pose proof (runApp_translatedPageCount env (Js.trim (wikiUrl (app w2)))
                (translationMode (app w2)) (pages (app w2))
                (length (calls w2)) (begun (app w2))) as Hn.
  pose proof (runApp_errorMessage env (Js.trim (wikiUrl (app w2)))
                (translationMode (app w2)) (pages (app w2))
                (length (calls w2)) (begun (app w2))) as He.
  rewrite failures_none in Hn, He by exact Hful.
  change (translatedPageCount (begun (app w2))) with 0 in Hn.
  change (bannerOf [] (errorMessage (begun (app w2)))) with "" in He.
  cbn [length] in Hn.
  assert (Hpg : pages (app w3)
    = map (after env (Js.trim (wikiUrl (app w2))) (translationMode (app w2))
             (pages (app w2)) (length (calls w2))) (pages (app w2))).
  { rewrite Ha. cbn [pages set_status]. by rewrite runApp_pages. }
  split; [by rewrite Ha|].
  split; [by rewrite Ha|].
  split.
  { rewrite Hpg, length_map, Ha. cbn [translatedPageCount set_status]. lia. }
  split.
  { rewrite Hpg, <- Hp2, map_map. apply map_ext. intros p.
    apply identity_after. }
  split.
  { apply Forall_forall. intros p Hp. destruct (Hok p Hp) as [Ht Herr].
    split; [exact Ht|]. split; [exact Herr|].
    rewrite Hpg in Hp. apply list_elem_of_fmap in Hp as (q & -> & Hq).
    apply attempted_after. right. apply list_elem_of_fmap. by exists q. }
  rewrite Hc3, length_app, length_map, Hc2, Hc, Hp2. reflexivity.
Qed.

Lemma session_translates_every_page_witness :
  let env := {| JSZip_loadAsync := fun _ => Fulfilled book;
                pdfjsLib := None;
                geminiService :=
                  GeminiService.client
                    (GeminiService.new (Some "key") sdkOk) |} in
  let w1 := exec (handleFile env (upload "book.cbz")) world0 in
  let w3 := exec (translateAll env)
              (exec (write (set_wikiUrl " https://onepiece.fandom.com ")) w1) in
  status (app w3) = St_success /\
  translatedPageCount (app w3) = 3.
Proof.
  destruct (session_translates_every_page
              {| JSZip_loadAsync := fun _ => Fulfilled book;
                 pdfjsLib := None;
                 geminiService :=
                   GeminiService.client
                     (GeminiService.new (Some "key") sdkOk) |}
              (upload "book.cbz") world0 " https://onepiece.fandom.com "
              (Some "key") sdkOk eq_refl)
    as (Hs & _ & Hn & _).
  - by vm_compute.
  - intros key k req. by exists "English: Hi".
  - by vm_compute.
  - by vm_compute.
  - split; [exact Hs|]. rewrite Hn. by vm_compute.
Defined.

(** ** translateAll: a blank context URL *)

Lemma truthy_trim_blank s : Js.truthy (Js.trim s) = negb (isBlank s).
Proof.
  destruct (isBlank s) eqn:Hb.
  - apply trim_empty_iff_blank in Hb. by rewrite Hb.
  - destruct (Js.trim s) eqn:Ht; [|done].
    apply trim_empty_iff_blank in Ht. congruence.
Qed.

Lemma bannerOf_not_guard fs g : bannerOf fs "" <> guardMessage g.
Proof.
  unfold bannerOf. destruct (last fs) as [f|].
  - unfold msg_failedOnPage. rewrite append_cons. by destruct g.
  - by destruct g.
Qed.

(** X17: [translateAll] and the context URL.  The message of the missing URL
    is the outcome exactly when the Page Store is not empty and the URL,
    once trimmed, is the empty string; the state is then [error] and the
    service is not called. *)
Theorem translateAll_url_error_iff_blank (env : Env) (w : World) :
  let w' := exec (translateAll env) w in
  (errorMessage (app w') = msg_noUrl <->
   pages (app w) <> [] /\ Js.trim (wikiUrl (app w)) = "") /\
  (errorMessage (app w') = msg_noUrl ->
   status (app w') = St_error /\ calls w' = calls w).
Proof.
  cbv zeta. destruct (firstUnmet env (app w)) as [g|] eqn:Hg.
  - destruct (translateAll_unmet_app env w g Hg) as (w' & Hrun & Ha & Hc & _).
    unfold exec. rewrite Hrun. cbn [snd]. rewrite Ha, Hc.
    assert (Hm : errorMessage (refused g (app w)) = guardMessage g)
      by (by destruct g).
    assert (Hs : status (refused g (app w)) = St_error) by (by destruct g).
    rewrite Hm, Hs. split; [|done].
    unfold firstUnmet, guardMet in Hg.
    destruct (pages (app w)) as [|p ps] eqn:Hp; cbn [length Nat.eqb negb] in Hg.
    { injection Hg as <-. split; [done|]. by intros [? _]. }
    destruct (Js.trim (wikiUrl (app w))) as [|c t] eqn:Ht;
      cbn [Js.truthy negb] in Hg.
    { injection Hg as <-. done. }
    destruct (Js.truthy (apiKeySignal (geminiService env))); [done|].
    injection Hg as <-. split; [done|]. by intros [_ ?].
  - destruct (translateAll_app env w Hg) as (w' & Hrun & Ha & _).
    unfold exec. rewrite Hrun. cbn [snd]. rewrite Ha.
    cbn [errorMessage status set_status]. rewrite runApp_errorMessage.
    change (errorMessage (begun (app w))) with "".
    split; [|by intros H%(bannerOf_not_guard _ ContextUrl)].
    split; [by intros H%(bannerOf_not_guard _ ContextUrl)|].
    intros [Hne Hb]. exfalso.
    unfold firstUnmet, guardMet in Hg. rewrite Hb in Hg.
    destruct (pages (app w)); [done|]. done.
Qed.

Lemma translateAll_url_error_iff_blank_witness :
  let w := exec (write (set_wikiUrl "   ")) loaded3 in
  errorMessage (app (exec (translateAll (envOf echoClient)) w)) = msg_noUrl.
Proof.
  apply (proj2 (proj1 (translateAll_url_error_iff_blank (envOf echoClient)
                         (exec (write (set_wikiUrl "   ")) loaded3)))).
  split; [by vm_compute|reflexivity].
Defined.

Example translateAll_blank_url :
  let w := exec (write (set_wikiUrl "  	 ")) loaded3 in
  errorMessage (app (exec (translateAll (envOf echoClient)) w)) = msg_noUrl.
Proof. by vm_compute. Qed.

(** ** GeminiService: the key and the request *)

(** X18: the constructor of [GeminiService].  The key signal is either empty
    or the mask [******], never the key; it is the mask exactly when a
    client was made, which is exactly when the environment gave a key that
    is not empty; and the client is made from that key. *)
Theorem new_masks_key (apiKey : option string) (sdk : string -> GoogleGenAI) :
  let svc := GeminiService.new apiKey sdk in
  (GeminiService.apiKeySignal svc = "" \/
   GeminiService.apiKeySignal svc = "******") /\
  (GeminiService.apiKeySignal svc = "******" <->
   is_Some (GeminiService.genAI svc)) /\
  (is_Some (GeminiService.genAI svc) <->
   exists k, apiKey = Some k /\ k <> "") /\
  (forall k, apiKey = Some k -> k <> "" ->
     GeminiService.genAI svc = Some (sdk k)).
Proof.
  cbv zeta. unfold GeminiService.new.
  destruct apiKey as [[|c k]|]; cbn.
  - split; [by left|]. split; [split; [done|by intros [? [=]]]|].
    split; [split; [by intros [? [=]]|by intros (k & [= <-] & ?)]|].
    by intros k [= <-].
  - split; [by right|]. split; [split; [by eexists|done]|].
    split; [split; [by eexists|by eexists]|]. by intros k' [= <-].
  - split; [by left|]. split; [split; [done|by intros [? [=]]]|].
    split; [split; [by intros [? [=]]|by intros (k & [=] & ?)]|].
    by intros k [=].
Qed.

Lemma new_masks_key_witness :
  GeminiService.genAI (GeminiService.new (Some "key") sdkOk)
  = Some (sdkOk "key").
Proof.
  apply (proj2 (proj2 (proj2 (new_masks_key (Some "key") sdkOk))) "key");
    [reflexivity|by vm_compute].
Defined.

Lemma modeInstruction_inj m m' :
  GeminiService.modeInstruction m = GeminiService.modeInstruction m' -> m = m'.
Proof. destruct m, m'; intros H; (reflexivity || discriminate H). Qed.

(** X19: the request [translateMangaPage] sends.  Two requests are the same
    exactly when the files have the same data and MIME type, the context
    URLs are the same and the modes are the same: each of the four modes
    has an instruction of its own, and the name of the file is not sent. *)
Theorem request_eq_iff (f f' : File) (u u' : string) (m m' : TranslationMode) :
  GeminiService.request f u m = GeminiService.request f' u' m' <->
  bits f = bits f' /\ type f = type f' /\ u = u' /\ m = m'.
Proof.
  unfold GeminiService.request, GeminiService.fileToGenerativePart. split.
  - intros [= Hu Hm Hb Ht]. apply modeInstruction_inj in Hm. done.
  - intros (-> & -> & -> & ->). reflexivity.
Qed.

Lemma request_eq_iff_witness :
  GeminiService.request (file page1) "https://onepiece.fandom.com" Mode_bold
  = GeminiService.request
      {| name := "renamed.png"; type := "image/png"; bits := "a" |}
      "https://onepiece.fandom.com" Mode_bold.
Proof.
  apply (proj2 (request_eq_iff _ _ _ _ _ _)).
  split; [reflexivity|]. split; [reflexivity|]. split; reflexivity.
Defined.

(** ** The key dialog *)


Lemma saveApiKey_app w :
  saveApiKey w
  = (Fulfilled tt,
     exec (write (if isBlank (apiKeyInput (app w))
                  then set_errorMessage msg_enterKey
                  else set_isApiKeyModalVisible false)) w).
Proof.
  unfold saveApiKey, bind, read. rewrite truthy_trim_blank.
  by destruct (isBlank (apiKeyInput (app w))).
Qed.

(** X20: [saveApiKey].  A key that is empty or white space only is refused
    with a message and the dialog stays as it is; any other input hides the
    dialog.  In both cases the input is used for nothing else: the guards
    of a run are as before, and with a service that has no key a run that
    follows is refused with the message of the missing key, shows the
    dialog again and does not call the service. *)
Theorem saveApiKey_is_cosmetic (env : Env) (w : World) :
  let w1 := exec saveApiKey w in
  (isBlank (apiKeyInput (app w)) = true ->
   app w1 = set_errorMessage msg_enterKey (app w)) /\
  (isBlank (apiKeyInput (app w)) = false ->
   app w1 = set_isApiKeyModalVisible false (app w)) /\
  firstUnmet env (app w1) = firstUnmet env (app w) /\
  calls w1 = calls w /\
  (apiKeySignal (geminiService env) = "" ->
   pages (app w) <> [] -> isBlank (wikiUrl (app w)) = false ->
   let w2 := exec (translateAll env) w1 in
   status (app w2) = St_error /\ errorMessage (app w2) = msg_noKey /\
   isApiKeyModalVisible (app w2) = true /\ calls w2 = calls w).
Proof.
  cbv zeta. rewrite (exec_run _ _ _ _ (saveApiKey_app w)).
  set (upd := if isBlank (apiKeyInput (app w))
              then set_errorMessage msg_enterKey
              else set_isApiKeyModalVisible false).
  assert (Hg : firstUnmet env (app (exec (write upd) w))
               = firstUnmet env (app w)).
  { unfold upd. by destruct (isBlank (apiKeyInput (app w))). }
  split; [unfold upd; by intros ->|]. split; [unfold upd; by intros ->|].
  split; [exact Hg|]. split; [reflexivity|].
  intros Hk Hp Hu.
  assert (Hc : firstUnmet env (app w) = Some Credential).
  { unfold firstUnmet, guardMet. rewrite truthy_trim_blank, Hu, Hk.
    by destruct (pages (app w)). }
  rewrite <- Hg in Hc.
  destruct (translateAll_unmet_app env _ _ Hc) as (w2 & Hrun & Ha & Hc2 & _).
  rewrite (exec_run _ _ _ _ Hrun), Ha, Hc2.
  split; [reflexivity|]. split; [reflexivity|]. split; reflexivity.
Qed.

Lemma saveApiKey_is_cosmetic_witness :
  let w := exec (write (set_apiKeyInput "AIza-my-key")) session3 in
  let env := envOf (GeminiService.client (GeminiService.new None sdkOk)) in
  let w2 := exec (translateAll env) (exec saveApiKey w) in
  isApiKeyModalVisible (app (exec saveApiKey w)) = false /\
  errorMessage (app w2) = msg_noKey /\
  isApiKeyModalVisible (app w2) = true /\ calls w2 = [].
Proof.
  destruct (saveApiKey_is_cosmetic
              (envOf (GeminiService.client (GeminiService.new None sdkOk)))
              (exec (write (set_apiKeyInput "AIza-my-key")) session3))
    as (_ & Hv & _ & _ & H).
  split; [by rewrite Hv|].
  destruct H as (_ & Hm & Hd & Hc); [reflexivity|by vm_compute|reflexivity|].
  split; [exact Hm|]. split; [exact Hd|exact Hc].
Defined.

(** ** Dropping and selecting files *)

Lemma handleFile_kept env f w :
  uploadedFile (app (exec (handleFile env f) w)) = Some f /\
  isDragging (app (exec (handleFile env f) w)) = isDragging (app w).
Proof.
  destruct (handleFile_summary env f w) as (_ & _ & Hsum).
  pose proof (prelude_app f w) as H0.
  generalize dependent (exec (handleFile env f) w). intros w' Hsum.
  generalize dependent (exec (prelude f) w). intros w0 H0 Hsum.
  unfold loadedFrom, failedFrom in Hsum.
  destruct Hsum as [(ps & n & c & -> & _)|(m & B & -> & HB & _)].
  - by rewrite H0.
  - destruct HB as [->|[n ->]]; by rewrite H0.
Qed.

Lemma onDrop_eq env ev w :
  onDrop env ev w
  = (Fulfilled tt,
     match dataTransfer_files ev with
     | Some (f :: _) =>
         exec (handleFile env f) (exec (write (set_isDragging false)) w)
     | _ => exec (write (set_isDragging false)) w
     end).
Proof.
  unfold onDrop. rewrite bind_write.
  by destruct (dataTransfer_files ev) as [[|f rest]|].
Qed.

Lemma onFileSelected_eq env ev w :
  onFileSelected env ev w
  = (Fulfilled tt,
     match target_files ev with
     | Some (f :: _) => exec (handleFile env f) w
     | _ => w
     end).
Proof.
  unfold onFileSelected. by destruct (target_files ev) as [[|f rest]|].
Qed.

(** X21: [onDrop] and [onFileSelected].  Both are fulfilled whatever becomes
    of the file.  With several files only the first is ingested: it is the
    one recorded as uploaded, and the files after it change nothing.  With
    no file list or an empty one nothing is ingested: [onFileSelected]
    leaves the world as it was and [onDrop] only clears the drag flag.
    After [onDrop] the drag flag is clear in every case. *)
Theorem drop_and_select_ingest_first_file (env : Env) (w : World) :
  (forall ev,
     (onDrop env ev w).1 = Fulfilled tt /\
     isDragging (app (exec (onDrop env ev) w)) = false) /\
  (forall ev, (onFileSelected env ev w).1 = Fulfilled tt) /\
  (forall f rest,
     let drop fs := exec (onDrop env {| dataTransfer_files := Some fs |}) w in
     let pick fs := exec (onFileSelected env {| target_files := Some fs |}) w in
     uploadedFile (app (drop (f :: rest))) = Some f /\
     drop (f :: rest) = drop [f] /\
     uploadedFile (app (pick (f :: rest))) = Some f /\
     pick (f :: rest) = exec (handleFile env f) w) /\
  (forall ev, dataTransfer_files ev = None \/ dataTransfer_files ev = Some [] ->
     exec (onDrop env ev) w = exec (write (set_isDragging false)) w) /\
  (forall ev, target_files ev = None \/ target_files ev = Some [] ->
     exec (onFileSelected env ev) w = w).
Proof.
  split.
  { intros ev. rewrite (exec_run _ _ _ _ (onDrop_eq env ev w)), onDrop_eq.
    split; [reflexivity|].
    destruct (dataTransfer_files ev) as [[|f rest]|]; [reflexivity| |reflexivity].
    destruct (handleFile_kept env f (exec (write (set_isDragging false)) w))
      as [_ Hd]. by rewrite Hd. }
  split.
  { intros ev. by rewrite onFileSelected_eq. }
  split.
  { intros f rest. cbv beta zeta.
    rewrite !(exec_run _ _ _ _ (onDrop_eq env _ w)).
    rewrite !(exec_run _ _ _ _ (onFileSelected_eq env _ w)).
    cbn [dataTransfer_files target_files].
    split; [apply handleFile_kept|]. split; [reflexivity|].
    split; [apply handleFile_kept|reflexivity]. }
  split.
  { intros ev Hev. rewrite (exec_run _ _ _ _ (onDrop_eq env ev w)).
    by destruct Hev as [-> | ->]. }
  intros ev Hev. rewrite (exec_run _ _ _ _ (onFileSelected_eq env ev w)).
  by destruct Hev as [-> | ->].
Qed.

Lemma drop_and_select_ingest_first_file_witness :
  exec (onDrop (zipEnv book) {| dataTransfer_files := None |}) loaded3
  = exec (write (set_isDragging false)) loaded3.
Proof.
  apply (proj1 (proj2 (proj2 (proj2
           (drop_and_select_ingest_first_file (zipEnv book) loaded3))))
         {| dataTransfer_files := None |}).
  left. reflexivity.
Defined.

(** ** A service without a key *)

(** X22: the constructors of [GeminiService] and [AppComponent] together with
    [translateAll].  The component starts with the key dialog shown exactly
    when the service has no client.  In that case no run, from whatever
    state, reaches the service: [translateAll] is refused with state
    [error] and makes no call, so the branch of [translateMangaPage] that
    throws for a missing client is never taken from the component. *)
Theorem service_without_key_is_never_called (env : Env)
    (apiKey : option string) (sdk : string -> GoogleGenAI) :
  let svc := GeminiService.new apiKey sdk in
  geminiService env = GeminiService.client svc ->
  (isApiKeyModalVisible (app (newAppComponent env)) = true <->
   GeminiService.genAI svc = None) /\
  (GeminiService.genAI svc = None ->
   forall w,
     status (app (exec (translateAll env) w)) = St_error /\
     calls (exec (translateAll env) w) = calls w).
Proof.
  cbv zeta. intros Hsvc.
  assert (Hsig : apiKeySignal (geminiService env)
                 = GeminiService.apiKeySignal (GeminiService.new apiKey sdk)).
  { by rewrite Hsvc. }
  split.
  - rewrite new_initialized, <- Hsig. unfold newAppComponent, constructorEffect.
    by destruct (apiKeySignal (geminiService env)).
  - intros Hnone w. apply new_initialized in Hnone. rewrite <- Hsig in Hnone.
    assert (Hg : exists g, firstUnmet env (app w) = Some g).
    { unfold firstUnmet, guardMet. rewrite Hnone. cbn [Js.truthy negb].
      destruct (negb _); [by eexists|]. destruct (negb _); by eexists. }
    destruct Hg as [g Hg].
    destruct (translateAll_unmet_app env w g Hg) as (w' & Hrun & Ha & Hc & _).
    rewrite (exec_run _ _ _ _ Hrun), Ha, Hc. by destruct g.
Qed.

Lemma service_without_key_is_never_called_witness :
  let env := envOf (GeminiService.client (GeminiService.new (Some "") sdkOk)) in
  isApiKeyModalVisible (app (newAppComponent env)) = true /\
  calls (exec (translateAll env) session3) = [].
Proof.
  destruct (service_without_key_is_never_called
              (envOf (GeminiService.client (GeminiService.new (Some "") sdkOk)))
              (Some "") sdkOk eq_refl) as [Hv Hn].
  split; [by apply Hv|]. by destruct (Hn eq_refl session3) as [_ ->].
Defined.

(** ** translateAll: page by page *)




(** A response without text: the service fulfils with [undefined], the
    split throws inside the [try], and the page is not counted although no
    call was rejected. *)
Example translateAll_response_without_text :
  let svc := GeminiService.new (Some "key") (sdkSilentAt 1) in
  let w' := exec (translateAll (envOf (GeminiService.client svc))) session3 in
  map error (pages (app w'))
  = [None; Some "Cannot read properties of undefined (reading 'split')"; None]
  /\ translatedPageCount (app w') = 2
  /\ errorMessage (app w')
     = "Failed on page 2. See details above."
  /\ status (app w') = St_success.
Proof. by vm_compute. Qed.

(** ** GeminiService in a run: failures end up as lines *)

Lemma runConsole_logged (env : Env) (url : string) (mode : TranslationMode)
    (l : list Page) (k j : nat) (p : Page) (entry : string * JsError) :
  l !! j = Some p ->
  entry ∈ logged (translateMangaPage (geminiService env) (k + j) (file p)
                    url mode) ->
  entry ∈ runConsole env url mode l k.
Proof.
  revert k j. induction l as [|q l IH]; intros k j Hj Hin; [done|].
  cbn [runConsole]. destruct j as [|j].
  - injection Hj as ->. rewrite Nat.add_0_r in Hin.
    apply elem_of_app. by left.
  - apply elem_of_app. right. apply elem_of_app. right.
    apply (IH (S k) j); [exact Hj|].
    by replace (S k + j) with (k + S j) by lia.
Qed.

(** X24: [translateAll] with the service as [GeminiService] builds it.  When
    the call to the SDK made for a page is rejected with an error,
    [translateMangaPage] prints the error and answers with a text instead of
    throwing, so the run treats the page as translated: the page gets that
    text as its lines and no error, and it is among the pages the translated
    count counts (the pages without error); the state ends as [success];
    the error is on the console, printed by the service. *)
Theorem translateAll_sdk_failure_becomes_lines (env : Env) (w : World)
    (svc : GeminiService.t) (ai : GoogleGenAI) (j : nat) (p : Page)
    (e : JsError) :
  let url := Js.trim (wikiUrl (app w)) in
  let mode := translationMode (app w) in
  geminiService env = GeminiService.client svc ->
  GeminiService.genAI svc = Some ai ->
  firstUnmet env (app w) = None ->
  NoDup (map pageNum (pages (app w))) ->
  pages (app w) !! j = Some p ->
  generateContent ai (length (calls w) + j)
    (GeminiService.request (file p) url mode) = Rejected e ->
  let w' := exec (translateAll env) w in
  (exists p',
     pages (app w') !! j = Some p' /\ error p' = None /\
     translation p' = Some (translationLines (failureText e))) /\
  translatedPageCount (app w')
  = length (filter (fun p' => error p' = None) (pages (app w'))) /\
  status (app w') = St_success /\
  ("Error translating manga page:", e) ∈ console w'.
Proof.
  intros url mode Hsvc Hai Hg Hnd Hj Hsdk. cbv zeta.
  destruct (translateAll_app env w Hg) as (w' & Hrun & Ha & _ & Hcon & _).
  rewrite (exec_run _ _ _ _ Hrun), Ha, Hcon.
  cbn [pages translatedPageCount status set_status].
  fold url mode.
  assert (Hcall : translateMangaPage (geminiService env)
                    (length (calls w) + j) (file p) url mode
                  = {| logged := [("Error translating manga page:", e)];
                       settled := Fulfilled (Some (failureText e)) |}).
  { rewrite Hsvc. cbn [GeminiService.client translateMangaPage].
    by apply (translateMangaPage_sdk_rejected _ _ _ _ _ ai). }
  split; [|split; [|split; [reflexivity|]]].
  - rewrite runApp_pages. change (pages (begun (app w))) with (pages (app w)).
    rewrite after_imap by exact Hnd. rewrite list_lookup_imap, Hj.
    cbn [fmap option_fmap option_map].
    eexists. split; [reflexivity|].
    unfold outcome. rewrite Hcall. cbn [settled answerOf]. by split.
  - rewrite runApp_pages.
    change (pages (begun (app w))) with (pages (app w)).
    pose proof (runApp_translatedPageCount env url mode (pages (app w))
                  (length (calls w)) (begun (app w))) as Hn.
    change (translatedPageCount (begun (app w))) with 0 in Hn.
    rewrite after_imap by exact Hnd.
    pose proof (filter_imap_failures env url mode (pages (app w))
                  (length (calls w))) as Hf.
    lia.
  - apply elem_of_app. right.
    apply (runConsole_logged env url mode _ _ j p); [exact Hj|].
    rewrite Hcall. cbn [logged]. apply list_elem_of_here.
Qed.

Lemma translateAll_sdk_failure_becomes_lines_witness :
  let svc := GeminiService.new (Some "key") (sdkFailingAt 1) in
  let w' := exec (translateAll (envOf (GeminiService.client svc))) session3 in
  exists p',
    pages (app w') !! 1 = Some p' /\ error p' = None /\
    translation p'
    = Some ["Translation failed. Please check the console for details. Error: 503 Service Unavailable"].
Proof.
  destruct (translateAll_sdk_failure_becomes_lines
              (envOf (GeminiService.client
                        (GeminiService.new (Some "key") (sdkFailingAt 1))))
              session3 (GeminiService.new (Some "key") (sdkFailingAt 1))
              (sdkFailingAt 1 "key") 1 page2
              (newError "503 Service Unavailable")
              eq_refl eq_refl eq_refl)
    as ((p2 & H2 & He2 & Ht2) & _).
  - apply (bool_decide_unpack _). by vm_compute.
  - reflexivity.
  - reflexivity.
  - exists p2. split; [exact H2|]. split; [exact He2|exact Ht2].
Defined.

(** ** The progress of a session *)

Lemma handleFile_counts env f w :
  translatedPageCount (app (exec (handleFile env f) w)) = 0 /\
  length (pages (app (exec (handleFile env f) w)))
  <= totalPageCount (app (exec (handleFile env f) w)).
Proof.
  destruct (handleFile_summary env f w) as (_ & _ & Hsum).
  pose proof (prelude_app f w) as H0.
  generalize dependent (exec (handleFile env f) w). intros w' Hsum.
  generalize dependent (exec (prelude f) w). intros w0 H0 Hsum.
  unfold loadedFrom, failedFrom in Hsum.
  destruct Hsum as [(ps & n & c & -> & Hlen & _)|(m & B & -> & HB & _)].
  - rewrite H0. split; [reflexivity|exact Hlen].
  - destruct HB as [->|[n ->]]; rewrite H0;
      cbn [translatedPageCount pages totalPageCount set_errorMessage set_status
           set_totalPageCount length]; split; (reflexivity || lia).
Qed.

(** X25: the counters of a session: [handleFile], then a context URL is
    entered, then [translateAll], whatever the file, the URL and the
    answers of the service.  The translated count is at most the number of
    pages in the Page Store, which is at most the page total; the run
    leaves the page total as ingestion set it. *)
Theorem translated_count_within_total (env : Env) (f : File) (w : World)
    (u : string) :
  let w1 := exec (handleFile env f) w in
  let w3 := exec (translateAll env) (exec (write (set_wikiUrl u)) w1) in
  translatedPageCount (app w3) <= length (pages (app w3)) /\
  length (pages (app w3)) <= totalPageCount (app w3) /\
  totalPageCount (app w3) = totalPageCount (app w1).
Proof.
  cbv zeta. destruct (handleFile_counts env f w) as [H0 Hle].
  generalize dependent (exec (handleFile env f) w). intros w1 H0 Hle.
  set (w2 := exec (write (set_wikiUrl u)) w1).
  assert (Hc2 : translatedPageCount (app w2) = translatedPageCount (app w1))
    by reflexivity.
  assert (Hp2 : pages (app w2) = pages (app w1)) by reflexivity.
  assert (Ht2 : totalPageCount (app w2) = totalPageCount (app w1))
    by reflexivity.
  clearbody w2. rewrite <- Hc2 in H0. rewrite <- Hp2, <- Ht2 in Hle.
  rewrite <- Ht2. clear Hc2 Hp2 Ht2.
  destruct (firstUnmet env (app w2)) as [g|] eqn:Hg.
  - destruct (translateAll_unmet_app env w2 g Hg) as (w3 & Hrun & Ha & _).
    rewrite (exec_run _ _ _ _ Hrun), Ha.
    assert (Hr : translatedPageCount (refused g (app w2))
                 = translatedPageCount (app w2) /\
                 pages (refused g (app w2)) = pages (app w2) /\
                 totalPageCount (refused g (app w2)) = totalPageCount (app w2))
      by (by destruct g).
    destruct Hr as (-> & -> & ->). lia.
  - destruct (translateAll_app env w2 Hg) as (w3 & Hrun & Ha & _).
    rewrite (exec_run _ _ _ _ Hrun), Ha.
    cbn [translatedPageCount pages totalPageCount set_status].
    pose proof (runApp_translatedPageCount env (Js.trim (wikiUrl (app w2)))
                  (translationMode (app w2)) (pages (app w2))
                  (length (calls w2)) (begun (app w2))) as Hn.
    assert (Hb0 : translatedPageCount (begun (app w2)) = 0) by reflexivity.
    rewrite Hb0 in Hn.
    destruct (runApp_frame env (Js.trim (wikiUrl (app w2)))
                (translationMode (app w2)) (pages (app w2))
                (length (calls w2)) (begun (app w2)))
      as (_ & _ & _ & Ht & _).
    rewrite runApp_pages, length_map, Ht.
    assert (Hbp : pages (begun (app w2)) = pages (app w2)) by reflexivity.
    assert (Hbt : totalPageCount (begun (app w2)) = totalPageCount (app w2))
      by reflexivity.
    rewrite Hbp, Hbt. lia.
Qed.

(** ** The numbers of the pages *)

Lemma StronglySorted_lt_seq n k : StronglySorted lt (seq n k).
Proof.
  revert n. induction k as [|k IH]; intros n; [constructor|].
  cbn [seq]. constructor; [apply IH|].
  apply Forall_forall. intros i Hi%elem_of_seq. lia.
Qed.

Lemma StronglySorted_sublist {A} (R : relation A) l1 l2 :
  l1 `sublist_of` l2 -> StronglySorted R l2 -> StronglySorted R l1.
Proof.
  induction 1 as [|x l1 l2 Hsub IH|x l1 l2 Hsub IH]; intros Hs.
  - constructor.
  - apply StronglySorted_inv in Hs as [Hs Hx]. constructor; [by apply IH|].
    apply Forall_forall. intros y Hy. rewrite Forall_forall in Hx.
    apply Hx. by eapply elem_of_sublist.
  - apply StronglySorted_inv in Hs as [Hs _]. by apply IH.
Qed.

Lemma handleFile_pages_numbers env f w :
  let a' := app (exec (handleFile env f) w) in
  Forall untouched (pages a') /\
  exists n, map pageNum (pages a') `sublist_of` seq 1 n /\
            (status a' = St_file_loaded -> n = totalPageCount a').
Proof.
  cbv zeta.
  assert (Hempty : forall a, pages a = [] ->
    Forall untouched (pages a) /\
    exists n, map pageNum (pages a) `sublist_of` seq 1 n /\
              (status a = St_file_loaded -> n = totalPageCount a)).
  { intros a Hp. rewrite Hp. split; [constructor|].
    exists (totalPageCount a). split; [apply sublist_nil_l|done]. }
  pose proof (prelude_pages f w) as Hp0.
  destruct (decide (fileExtensionOf (name f) = Some "cbz")) as [Hc|Hc].
  { pose proof (handleFile_cbz env f w Hc) as Heq.
    rewrite (exec_congr _ _ _ _ (f_equal snd Heq)). clear Heq.
    generalize dependent (exec (prelude f) w). intros w0 Hp0.
    unfold exec. rewrite handleCbz_eq.
    assert (Hfail : forall e,
      pages (app (cbzCatch e w0).2) = []).
    { intros e. rewrite cbzCatch_fulfils. cbn [snd]. by rewrite cbzCatch_app. }
    destruct (JSZip_loadAsync env f) as [files|e]; [|apply Hempty, Hfail].
    destruct (decide (imageFilesOf files = [])); [apply Hempty, Hfail|].
    clear Hfail.
    pose proof (keepsApp_forOf_cbz files (imageFilesOf files) ([], 1)
                  (cbzLoopStart files w0)) as Ha.
    destruct (forOf (imageFilesOf files) ([], 1) (cbzStep files)
                (cbzLoopStart files w0)) as [[[ps k]|e] w1] eqn:Hrun;
      cbn [snd fst] in *; unfold keepsApp in Ha.
    - assert (Hlen := Hrun).
      apply forOf_cbzStep_length in Hlen; [|apply zip_file_imageFilesOf].
      apply forOf_cbzStep_fulfilled in Hrun as (new & -> & Hnum & Hun).
      rewrite app_nil_l in *. cbn [length] in Hlen.
      rewrite loadedWith_app, Ha, cbzLoopStart_app.
      cbn [pages status totalPageCount set_status set_pages update_pages
           set_totalPageCount].
      split; [exact Hun|]. exists (length (imageFilesOf files)).
      split; [by rewrite Hnum, Hlen|done].
    - apply Hempty. rewrite cbzCatch_fulfils. cbn [snd].
      rewrite cbzCatch_app, Ha, cbzLoopStart_app. exact Hp0. }
  destruct (decide (fileExtensionOf (name f) = Some "pdf")) as [Hd|Hd].
  { pose proof (handleFile_pdf env f w Hd) as Heq.
    rewrite (exec_congr _ _ _ _ (f_equal snd Heq)). clear Heq.
    generalize dependent (exec (prelude f) w). intros w0 Hp0.
    unfold exec. rewrite handlePdf_eq.
    destruct (pdfjsLib env) as [gd|]; [|apply Hempty; exact Hp0].
    destruct (gd f) as [pdf|e].
    2: { apply Hempty. rewrite pdfCatch_fulfils. cbn [snd].
         rewrite pdfCatch_app. exact Hp0. }
    pose proof (keepsApp_forOf_pdf pdf (seq 1 (numPages pdf)) []
                  (pdfLoopStart pdf w0)) as Ha.
    destruct (forOf (seq 1 (numPages pdf)) [] (pdfStep pdf)
                (pdfLoopStart pdf w0)) as [[ps|e] w1] eqn:Hrun;
      cbn [snd fst] in *; unfold keepsApp in Ha.
    - apply forOf_pdfStep_fulfilled in Hrun as (new & -> & Hsub & Hun).
      rewrite app_nil_l. rewrite loadedWith_app, Ha, pdfLoopStart_app.
      cbn [pages status totalPageCount set_status set_pages update_pages
           set_totalPageCount].
      split; [exact Hun|]. exists (numPages pdf). split; [exact Hsub|done].
    - apply Hempty. rewrite pdfCatch_fulfils. cbn [snd].
      rewrite pdfCatch_app, Ha, pdfLoopStart_app. exact Hp0. }
  apply Hempty.
  pose proof (handleFile_other_eq env f w Hc Hd) as Heq.
  rewrite (exec_run _ _ _ _ Heq). exact Hp0.
Qed.

(** X26: the pages [handleFile] leaves, whatever the file and however reading
    it goes.  Every page is as extraction makes it: not translating, with
    no lines and no error.  The page numbers are strictly increasing, so no
    two pages share a number, and when the state is [file-loaded] each
    number lies between 1 and the page total. *)
Theorem handleFile_pages_fresh_and_numbered (env : Env) (f : File)
    (w : World) :
  let a' := app (exec (handleFile env f) w) in
  Forall untouched (pages a') /\
  StronglySorted lt (map pageNum (pages a')) /\
  NoDup (map pageNum (pages a')) /\
  (status a' = St_file_loaded ->
   Forall (fun p => 1 <= pageNum p <= totalPageCount a') (pages a')).
Proof.
  cbv zeta.
  destruct (handleFile_pages_numbers env f w) as (Hun & n & Hsub & Hn).
  generalize dependent (exec (handleFile env f) w). intros w' Hun Hsub Hn.
  split; [exact Hun|].
  split; [eapply StronglySorted_sublist;
            [exact Hsub|apply StronglySorted_lt_seq]|].
  split; [eapply sublist_NoDup; [apply NoDup_seq|exact Hsub]|].
  intros Hs. rewrite <- (Hn Hs). apply Forall_forall. intros p Hp.
  assert (Hin : pageNum p ∈ seq 1 n).
  { eapply elem_of_sublist; [|exact Hsub]. apply list_elem_of_fmap.
    by exists p. }
  apply elem_of_seq in Hin. lia.
Qed.

Lemma handleFile_pages_fresh_and_numbered_witness :
  let a' := app (exec (handleFile (pdfEnv threePages) (upload "Book.PDF"))
                   loaded3) in
  Forall (fun p => 1 <= pageNum p <= totalPageCount a') (pages a').
Proof.
  apply (proj2 (proj2 (proj2 (handleFile_pages_fresh_and_numbered
           (pdfEnv threePages) (upload "Book.PDF") loaded3)))).
  by vm_compute.
Defined.

(** ** The drag flag *)

(** [onDragOver] sets the drag flag and [onDragLeave] clears it; neither
    touches anything else, so a drag that enters and leaves changes nothing
    but a flag that was set before. *)
Lemma drag_over_then_leave (ev ev' : DragEvent) (w : World) :
  isDragging (app (exec (onDragOver ev) w)) = true /\
  app (exec (onDragLeave ev') (exec (onDragOver ev) w))
  = set_isDragging false (app w) /\
  calls (exec (onDragLeave ev') (exec (onDragOver ev) w)) = calls w /\
  liveUrls (exec (onDragLeave ev') (exec (onDragOver ev) w)) = liveUrls w.
Proof. by repeat split. Qed.
